(** * wg-quick-op: the wg-quick configuration codec of package [quick]

    A shallow embedding of [Config.MarshalText], [Config.UnmarshalText],
    [ParseKey], [GetUnresolvedEndpoints] and [MatchConfig], together with
    the parts of the Go standard library they call ([strings], [strconv],
    [encoding/base64], [text/template] on the fixed template), and the
    properties of the codec that the specification states.

    Conventions.
    - A Go [string] is a sequence of bytes: [list ascii].
    - Go [int] is taken to be 64 bits wide (every supported 64-bit target).
    - Go slices are lists; a nil slice and an empty slice are both [[]].
    - A Go pointer that may be nil ([*int], [*wgtypes.Key], ...) is an
      [option].
    - Packages [net], [regexp] and [os] are external collaborators: they
      are taken as parameters (classes [NetLib], [Provider]). *)

From Stdlib Require Import ZArith Lia List Ascii Bool.
From Stdlib Require String.
From stdpp Require Import base gmap strings list.

Abbreviation gostring := (list ascii).

(** String literals are read as byte sequences. *)
Coercion String.list_ascii_of_string : string >-> list.

(** ** Errors and fallible results *)

(** The error values of the package, structurally: each constructor is one
    [fmt.Errorf] format (or one library error), its arguments the values
    the format prints. *)
Inductive error : Type :=
  | CorruptInputError                       (* encoding/base64 *)
  | ErrSyntax                               (* strconv.ErrSyntax *)
  | ErrRange                                (* strconv.ErrRange *)
  | NetError                                (* any error of package net *)
  | ErrKeySize (n : nat)                    (* wgtypes: incorrect key size: %d *)
  | ErrWgParseKey (e : error)               (* wgtypes: failed to parse base64-encoded key: %v *)
  | ErrCannotParseIP                        (* cannot parse IP *)
  | ErrUnknownDirective (lhs : gostring)    (* unknown directive %s *)
  | ErrDecodeKey (e : error)                (* cannot decode key %v *)
  | ErrPresharedDefined                     (* preshared key already defined %v *)
  | ErrCannotParse (addr : gostring) (e : error)  (* cannot parse %s: %v *)
  | ErrMissingEq (no : Z)                   (* cannot parse line %d, missing = *)
  | ErrLine (no : Z) (e : error)            (* [line %d]: %v *)
  | ErrUnknownState (no : Z)                (* [line %d] cannot parse, unknown state *)
  | ErrReadFile                             (* cannot read file:%v *)
  | ErrParseConfigFile (e : error)          (* cannot parse config file:%v *)
  | ErrParseKey (e : error)                 (* cannot parse key:%v *)
  | ErrTemplateCall (fn : gostring)         (* template: error calling fn: nil pointer dereference *)
  | PanicNilPeer.                           (* write through a nil *PeerConfig; never reached *)

Inductive result (A : Type) : Type :=
  | Ok (a : A)
  | Err (e : error).
Arguments Ok {A} a.
Arguments Err {A} e.

Definition bind {A B} (r : result A) (k : A -> result B) : result B :=
  match r with
  | Ok a => k a
  | Err e => Err e
  end.

Notation "x <-- r ;; k" := (bind r (fun x => k))
  (at level 100, r at next level, right associativity).

Definition isOk {A} (r : result A) : bool :=
  match r with Ok _ => true | Err _ => false end.

Definition isErr {A} (r : result A) : bool := negb (isOk r).

(** Wrap the error of [r], as [fmt.Errorf("...: %v", err)] does. *)
Definition wrapErr {A} (w : error -> error) (r : result A) : result A :=
  match r with
  | Ok a => Ok a
  | Err e => Err (w e)
  end.

(** What a call that may hit [logrus.Fatalln] does: return a value, or
    log and exit the process. *)
Inductive outcome (A : Type) : Type :=
  | Returns (a : A)
  | Fatal.
Arguments Returns {A} a.
Arguments Fatal {A}.

(** ** Package strings *)

Module strings.

Definition byte (c : ascii) : N := N_of_ascii c.

(** [strings.Split(s, sep)] for a one-byte separator, which is how the
    package always calls it (["\n"], ["="], [","]): the pieces between
    the occurrences of [sep], one more than there are occurrences. *)
Fixpoint Split (s : gostring) (sep : ascii) : list gostring :=
  match s with
  | [] => [[]]
  | c :: s' =>
      if Ascii.eqb c sep then [] :: Split s' sep
      else match Split s' sep with
           | p :: ps => (c :: p) :: ps
           | [] => [[c]]
           end
  end.

Fixpoint Join (elems : list gostring) (sep : gostring) : gostring :=
  match elems with
  | [] => []
  | [x] => x
  | x :: xs => x ++ sep ++ Join xs sep
  end.

(** The [asciiSpace] table: tab, newline, vertical tab, form feed,
    carriage return, space. *)
Definition asciiSpace (c : ascii) : bool :=
  let n := byte c in
  ((9 <=? n) && (n <=? 13) || (n =? 32))%N.

(** UTF-8 encodings of the non-ASCII runes for which [unicode.IsSpace]
    holds: U+0085, U+00A0, U+1680, U+2000..U+200A, U+2028, U+2029,
    U+202F, U+205F, U+3000. *)
Definition unicodeSpaces : list (list N) :=
  [ [0xC2; 0x85]; [0xC2; 0xA0]; [0xE1; 0x9A; 0x80];
    [0xE2; 0x80; 0x80]; [0xE2; 0x80; 0x81]; [0xE2; 0x80; 0x82];
    [0xE2; 0x80; 0x83]; [0xE2; 0x80; 0x84]; [0xE2; 0x80; 0x85];
    [0xE2; 0x80; 0x86]; [0xE2; 0x80; 0x87]; [0xE2; 0x80; 0x88];
    [0xE2; 0x80; 0x89]; [0xE2; 0x80; 0x8A]; [0xE2; 0x80; 0xA8];
    [0xE2; 0x80; 0xA9]; [0xE2; 0x80; 0xAF]; [0xE2; 0x81; 0x9F];
    [0xE3; 0x80; 0x80] ]%N.

Fixpoint hasBytes (p : list N) (s : gostring) : bool :=
  match p, s with
  | [], _ => true
  | b :: p', c :: s' => (byte c =? b)%N && hasBytes p' s'
  | _ :: _, [] => false
  end.

(** Width in bytes of the white-space rune that [s] starts with, 0 when
    the first rune of [s] is not white space (or [s] is empty).  A rune
    decoded from the front of [s] is a white-space rune exactly when [s]
    starts with that rune's encoding. *)
Definition spaceWidth (s : gostring) : nat :=
  match s with
  | [] => 0
  | c :: _ =>
      if asciiSpace c then 1
      else match List.find (fun p => hasBytes p s) unicodeSpaces with
           | Some p => length p
           | None => 0
           end
  end.

(** The same looking from the end of [s], as [DecodeLastRuneInString]
    does; [r] is [s] reversed. *)
Definition spaceWidthLast (r : gostring) : nat :=
  match r with
  | [] => 0
  | c :: _ =>
      if asciiSpace c then 1
      else match List.find (fun p => hasBytes (rev p) r) unicodeSpaces with
           | Some p => length p
           | None => 0
           end
  end.

Fixpoint trimWhile (width : gostring -> nat) (fuel : nat) (s : gostring)
  : gostring :=
  match fuel with
  | 0 => s
  | S fuel' =>
      match width s with
      | 0 => s
      | w => trimWhile width fuel' (drop w s)
      end
  end.

Definition TrimLeftSpace (s : gostring) : gostring :=
  trimWhile spaceWidth (length s) s.

Definition TrimRightSpace (s : gostring) : gostring :=
  rev (trimWhile spaceWidthLast (length s) (rev s)).

(** [strings.TrimSpace]: leading and trailing white space, as defined by
    Unicode, removed. *)
Definition TrimSpace (s : gostring) : gostring :=
  TrimRightSpace (TrimLeftSpace s).

Fixpoint HasPrefix (s prefix : gostring) : bool :=
  match prefix, s with
  | [], _ => true
  | p :: prefix', c :: s' => Ascii.eqb c p && HasPrefix s' prefix'
  | _ :: _, [] => false
  end.

Definition HasSuffix (s suffix : gostring) : bool :=
  HasPrefix (rev s) (rev suffix).

(** [strings.LastIndex(s, substr)]: the index of the last occurrence of
    [substr] in [s], or -1. [lastIndexFrom i s] is the answer for the
    suffix [s] of the whole string that starts at index [i]. *)
Fixpoint lastIndexFrom (i : Z) (s substr : gostring) : Z :=
  match s with
  | [] => if HasPrefix [] substr then i else (-1)%Z
  | _ :: s' =>
      let later := lastIndexFrom (i + 1) s' substr in
      if (0 <=? later)%Z then later
      else if HasPrefix s substr then i else (-1)%Z
  end.

Definition LastIndex (s substr : gostring) : Z := lastIndexFrom 0 s substr.

Definition lowerByte (c : ascii) : ascii :=
  let n := byte c in
  if ((65 <=? n) && (n <=? 90))%N then ascii_of_N (n + 32) else c.

(** [strings.ToLower] on its ASCII path. On a string with a non-ASCII
    byte Go maps every rune through [unicode.ToLower]; no rune other
    than the ASCII letters lowers to ['o'] or ['f'], so the one use of
    [ToLower] here, the comparison with ["off"], has the same outcome. *)
Definition ToLower (s : gostring) : gostring := map lowerByte s.

End strings.

Definition gostring_eqb (a b : gostring) : bool := bool_decide (a = b).
Infix "==" := gostring_eqb (at level 70, no associativity).

(** ** Package strconv *)

Module strconv.

Definition isDigit (c : ascii) : bool :=
  let n := strings.byte c in ((48 <=? n) && (n <=? 57))%N.

Definition digitVal (c : ascii) : Z := Z.of_N (strings.byte c) - 48.

Definition maxUint64 : Z := 2 ^ 64 - 1.

(** The digit loop of [ParseUint(s, 10, 64)], [n] the value so far: a
    byte that is not a decimal digit is a syntax error, a value above
    [maxUint64] a range error. *)
Fixpoint parseDigits (n : Z) (s : gostring) : result Z :=
  match s with
  | [] => Ok n
  | c :: s' =>
      if isDigit c then
        let n1 := (n * 10 + digitVal c)%Z in
        if (maxUint64 <? n1)%Z then Err ErrRange else parseDigits n1 s'
      else Err ErrSyntax
  end.

Definition ParseUint (s : gostring) : result Z :=
  match s with
  | [] => Err ErrSyntax
  | _ => parseDigits 0 s
  end.

(** [strconv.ParseInt(s, 10, 64)]. *)
Definition ParseInt (s : gostring) : result Z :=
  match s with
  | [] => Err ErrSyntax
  | c :: s' =>
      let neg := Ascii.eqb c "-" in
      let digits := if Ascii.eqb c "+" || neg then s' else s in
      un <-- ParseUint digits ;;
      let cutoff := (2 ^ 63)%Z in
      if negb neg && (cutoff <=? un)%Z then Err ErrRange
      else if neg && (cutoff <? un)%Z then Err ErrRange
      else Ok (if neg then (- un)%Z else un)
  end.

(** [strconv.ParseBool]. *)
Definition ParseBool (s : gostring) : result bool :=
  if existsb (gostring_eqb s) ["1" : gostring; "t" : gostring; "T" : gostring; "TRUE" : gostring; "true" : gostring; "True" : gostring]
  then Ok true
  else if existsb (gostring_eqb s) ["0" : gostring; "f" : gostring; "F" : gostring; "FALSE" : gostring; "false" : gostring; "False" : gostring]
  then Ok false
  else Err ErrSyntax.

Definition digitChar (d : Z) : ascii := ascii_of_N (Z.to_N (d + 48)).

(** The decimal digits of [u >= 0], written in front of [acc]; 20
    digits are enough for any 64-bit value. *)
Fixpoint formatBits (fuel : nat) (u : Z) (acc : gostring) : gostring :=
  match fuel with
  | 0 => acc
  | S fuel' =>
      if (u <? 10)%Z then digitChar u :: acc
      else formatBits fuel' (u / 10) (digitChar (u mod 10) :: acc)
  end.

(** [strconv.FormatInt(i, 10)], which is also how [fmt] and
    [text/template] print an [int]. *)
Definition FormatInt (i : Z) : gostring :=
  if (i <? 0)%Z then "-"%char :: formatBits 20 (- i) []
  else formatBits 20 i [].

Definition FormatBool (b : bool) : gostring :=
  if b then "true" else "false".

End strconv.

(** ** Package encoding/base64, [StdEncoding] *)

Module base64.

Definition encodeStd : gostring :=
  "ABCDEFGHIJKLMNOPQRSTUVWXYZabcdefghijklmnopqrstuvwxyz0123456789+/".

Definition padChar : ascii := "=".

Definition byteVal (c : ascii) : Z := Z.of_N (N_of_ascii c).

(** The conversion [byte(x)]: the low 8 bits. *)
Definition toByte (x : Z) : ascii := ascii_of_N (Z.to_N (Z.land x 255)).

(** [enc.encode[i]]. *)
Definition encodeChar (i : Z) : ascii :=
  nth (Z.to_nat i) encodeStd "000"%char.

Fixpoint indexOf (c : ascii) (tbl : gostring) (i : Z) : option Z :=
  match tbl with
  | [] => None
  | t :: tbl' => if Ascii.eqb c t then Some i else indexOf c tbl' (i + 1)
  end.

(** [enc.decodeMap[c]], [None] standing for the invalid mark [0xff]. *)
Definition decodeMap (c : ascii) : option Z := indexOf c encodeStd 0.

Definition sextet (val : Z) (k : Z) : ascii :=
  encodeChar (Z.land (Z.shiftr val k) 63).

(** [Encoding.Encode]: three bytes to four characters, and the last
    one or two bytes padded with ['=']. *)
Fixpoint Encode (src : list ascii) : gostring :=
  match src with
  | b0 :: b1 :: b2 :: src' =>
      let val := Z.lor (Z.lor (Z.shiftl (byteVal b0) 16)
                               (Z.shiftl (byteVal b1) 8)) (byteVal b2) in
      sextet val 18 :: sextet val 12 :: sextet val 6 :: sextet val 0
        :: Encode src'
  | [b0; b1] =>
      let val := Z.lor (Z.shiftl (byteVal b0) 16) (Z.shiftl (byteVal b1) 8) in
      [sextet val 18; sextet val 12; sextet val 6; padChar]
  | [b0] =>
      let val := Z.shiftl (byteVal b0) 16 in
      [sextet val 18; sextet val 12; padChar; padChar]
  | [] => []
  end.

Definition EncodeToString (src : list ascii) : gostring := Encode src.

Definition isNewline (c : ascii) : bool :=
  Ascii.eqb c "010" || Ascii.eqb c "013".

Fixpoint skipNewlines (src : gostring) : gostring :=
  match src with
  | c :: src' => if isNewline c then skipNewlines src' else src
  | [] => []
  end.

(** The bytes of a quantum of [dlen] characters whose 6-bit values are
    [dbuf] (padded with zeros to four): [dlen - 1] bytes. *)
Definition quantumBytes (dbuf : list Z) (dlen : nat) : list ascii :=
  let d i := nth i dbuf 0%Z in
  let val := Z.lor (Z.lor (Z.lor (Z.shiftl (d 0) 18) (Z.shiftl (d 1) 12))
                          (Z.shiftl (d 2) 6)) (d 3) in
  take (dlen - 1) [toByte (Z.shiftr val 16); toByte (Z.shiftr val 8);
                   toByte val].

(** [Encoding.Decode], the loop over [decodeQuantum] in one recursion
    over the input: [dbuf] holds the [length dbuf < 4] values of the
    quantum being read, [dst] the bytes decoded so far.  Newlines and
    carriage returns are skipped; padding must complete the quantum and
    end the input.  (The 8- and 4-character fast paths of [Decode]
    compute what [decodeQuantum] does on valid characters.) *)
Fixpoint decodeLoop (src : gostring) (dbuf : list Z) (dst : list ascii)
  : result (list ascii) :=
  match src with
  | [] =>
      match dbuf with
      | [] => Ok dst
      | _ => Err CorruptInputError
      end
  | c :: src' =>
      match decodeMap c with
      | Some out =>
          if length dbuf =? 3
          then decodeLoop src' [] (dst ++ quantumBytes (dbuf ++ [out]) 4)
          else decodeLoop src' (dbuf ++ [out]) dst
      | None =>
          if isNewline c then decodeLoop src' dbuf dst
          else if negb (Ascii.eqb c padChar) then Err CorruptInputError
          else
            match length dbuf with
            | 0 | 1 => Err CorruptInputError
            | 2 =>
                match skipNewlines src' with
                | [] => Err CorruptInputError
                | c2 :: src2 =>
                    if negb (Ascii.eqb c2 padChar) then Err CorruptInputError
                    else match skipNewlines src2 with
                         | [] => Ok (dst ++ quantumBytes dbuf 2)
                         | _ :: _ => Err CorruptInputError
                         end
                end
            | _ =>
                match skipNewlines src' with
                | [] => Ok (dst ++ quantumBytes dbuf 3)
                | _ :: _ => Err CorruptInputError
                end
            end
      end
  end.

Definition DecodeString (s : gostring) : result (list ascii) :=
  decodeLoop s [] [].

End base64.

(** ** Package wgtypes (golang.zx2c4.com/wireguard/wgctrl) *)

Module wgtypes.

Definition KeyLen : nat := 32.

(** [type Key [KeyLen]byte]: a list of bytes, of length [KeyLen] for
    every key the library or this package builds. *)
Definition Key := list ascii.

Definition zeroKey : Key := replicate KeyLen "000"%char.

(** [copy(k[:], b)] into a zeroed key: as many bytes as fit, the rest
    of the array stays zero. *)
Definition copyKey (b : list ascii) : Key :=
  take KeyLen b ++ replicate (KeyLen - length b) "000"%char.

(** [wgtypes.ParseKey]: base64, then [NewKey], which checks the
    length. *)
Definition ParseKey (s : gostring) : result Key :=
  match base64.DecodeString s with
  | Err e => Err (ErrWgParseKey e)
  | Ok b =>
      if length b =? KeyLen then Ok (copyKey b)
      else Err (ErrKeySize (length b))
  end.

(** [Key.String]. *)
Definition Key_String (k : Key) : gostring := base64.EncodeToString k.

End wgtypes.

(** ** Keys in package quick *)

(** [serializeKey], applied to a key that is present. *)
Definition serializeKey (key : wgtypes.Key) : gostring :=
  base64.EncodeToString key.

(** [ParseKey]: base64, then [copy] into the fixed array, with no check
    of the length. *)
Definition ParseKey (key : gostring) : result wgtypes.Key :=
  match base64.DecodeString key with
  | Err e => Err e
  | Ok pkeySlice => Ok (wgtypes.copyKey pkeySlice)
  end.

(** ** External collaborators *)

(** Package [net], as far as the codec uses it.  Addresses are opaque
    values that the library parses and prints; [ResolveUDPAddr] may ask a
    resolver, whose answers are fixed for the duration of a call. *)
Class NetLib : Type := {
  IP : Type;
  IPMask : Type;
  UDPAddr : Type;
  (** [net.ParseCIDR]: the address and the mask of the network. *)
  ParseCIDR : gostring -> result (IP * IPMask);
  (** [net.ParseIP]: [None] is the nil [IP] returned on failure. *)
  ParseIP : gostring -> option IP;
  (** [net.ResolveUDPAddr("", address)]. *)
  ResolveUDPAddr : gostring -> result UDPAddr;
  IP_String : IP -> gostring;
  (** [IPNet.String] (pointer receiver) of [IPNet{IP: ip, Mask: mask}]. *)
  IPNet_String : IP -> IPMask -> gostring;
  UDPAddr_String : UDPAddr -> gostring
}.

(** The file provider and the regular-expression engine behind
    [MatchConfig], [GetConfig] and [GetUnresolvedEndpoints]. *)
Class Provider : Type := {
  (** [os.ReadDir("/etc/wireguard")]: the names of the entries. *)
  ReadDir : result (list gostring);
  (** [os.ReadFile(filepath.Join(path))]. *)
  ReadFile : gostring -> result gostring;
  (** [regexp.Match(pattern, b)]; an error when [pattern] does not
      compile. *)
  regexp_Match : gostring -> gostring -> result bool
}.

(** ** The configuration model *)

Section Codec.

Context {net : NetLib} {provider : Provider}.

(** [net.IPNet]. *)
Record IPNet : Type := mkIPNet {
  ipnet_IP : IP;
  ipnet_Mask : IPMask
}.

(** [time.Duration]: nanoseconds, an [int64]. *)
Definition Duration := Z.
Definition Second : Duration := 1000000000%Z.

(** [wgtypes.PeerConfig]. *)
Record PeerConfig : Type := mkPeerConfig {
  PublicKey : wgtypes.Key;
  Remove : bool;
  UpdateOnly : bool;
  PresharedKey : option wgtypes.Key;
  Endpoint : option UDPAddr;
  PersistentKeepaliveInterval : option Duration;
  ReplaceAllowedIPs : bool;
  AllowedIPs : list IPNet
}.

(** [Config], with the fields of the embedded [wgtypes.Config]
    ([PrivateKey], [ListenPort], [FirewallMark], [ReplacePeers], [Peers])
    promoted. *)
Record Config : Type := mkConfig {
  PrivateKey : option wgtypes.Key;
  ListenPort : option Z;
  FirewallMark : option Z;
  ReplacePeers : bool;
  Peers : list PeerConfig;
  Address : list IPNet;
  DNS : list IP;
  MTU : Z;
  Table : option Z;
  PreUp : list gostring;
  PostUp : list gostring;
  PreDown : list gostring;
  PostDown : list gostring;
  RouteProtocol : Z;
  RouteMetric : Z;
  AddressLabel : gostring;
  SaveConfig : bool;
  WgBin : gostring
}.

(** The zero value [wgtypes.PeerConfig{}]. *)
Definition zeroPeer : PeerConfig :=
  mkPeerConfig wgtypes.zeroKey false false None None None false [].

(** The zero value [Config{}]. *)
Definition zeroConfig : Config :=
  mkConfig None None None false [] [] [] 0 None [] [] [] [] 0 0 [] false [].

Definition set_Table (v : option Z) (c : Config) : Config :=
  mkConfig (PrivateKey c) (ListenPort c) (FirewallMark c) (ReplacePeers c)
    (Peers c) (Address c) (DNS c) (MTU c) v (PreUp c) (PostUp c)
    (PreDown c) (PostDown c) (RouteProtocol c) (RouteMetric c)
    (AddressLabel c) (SaveConfig c) (WgBin c).

(** [newConfig]: [Table] points to a fresh zero. *)
Definition newConfig : Config := set_Table (Some 0%Z) zeroConfig.

Definition set_PrivateKey (v : option wgtypes.Key) (c : Config) : Config :=
  mkConfig v (ListenPort c) (FirewallMark c) (ReplacePeers c)
    (Peers c) (Address c) (DNS c) (MTU c) (Table c) (PreUp c) (PostUp c)
    (PreDown c) (PostDown c) (RouteProtocol c) (RouteMetric c)
    (AddressLabel c) (SaveConfig c) (WgBin c).

Definition set_ListenPort (v : option Z) (c : Config) : Config :=
  mkConfig (PrivateKey c) v (FirewallMark c) (ReplacePeers c)
    (Peers c) (Address c) (DNS c) (MTU c) (Table c) (PreUp c) (PostUp c)
    (PreDown c) (PostDown c) (RouteProtocol c) (RouteMetric c)
    (AddressLabel c) (SaveConfig c) (WgBin c).

Definition set_Peers (v : list PeerConfig) (c : Config) : Config :=
  mkConfig (PrivateKey c) (ListenPort c) (FirewallMark c) (ReplacePeers c)
    v (Address c) (DNS c) (MTU c) (Table c) (PreUp c) (PostUp c)
    (PreDown c) (PostDown c) (RouteProtocol c) (RouteMetric c)
    (AddressLabel c) (SaveConfig c) (WgBin c).

Definition set_Address (v : list IPNet) (c : Config) : Config :=
  mkConfig (PrivateKey c) (ListenPort c) (FirewallMark c) (ReplacePeers c)
    (Peers c) v (DNS c) (MTU c) (Table c) (PreUp c) (PostUp c)
    (PreDown c) (PostDown c) (RouteProtocol c) (RouteMetric c)
    (AddressLabel c) (SaveConfig c) (WgBin c).

Definition set_DNS (v : list IP) (c : Config) : Config :=
  mkConfig (PrivateKey c) (ListenPort c) (FirewallMark c) (ReplacePeers c)
    (Peers c) (Address c) v (MTU c) (Table c) (PreUp c) (PostUp c)
    (PreDown c) (PostDown c) (RouteProtocol c) (RouteMetric c)
    (AddressLabel c) (SaveConfig c) (WgBin c).

Definition set_MTU (v : Z) (c : Config) : Config :=
  mkConfig (PrivateKey c) (ListenPort c) (FirewallMark c) (ReplacePeers c)
    (Peers c) (Address c) (DNS c) v (Table c) (PreUp c) (PostUp c)
    (PreDown c) (PostDown c) (RouteProtocol c) (RouteMetric c)
    (AddressLabel c) (SaveConfig c) (WgBin c).

Definition set_PreUp (v : list gostring) (c : Config) : Config :=
  mkConfig (PrivateKey c) (ListenPort c) (FirewallMark c) (ReplacePeers c)
    (Peers c) (Address c) (DNS c) (MTU c) (Table c) v (PostUp c)
    (PreDown c) (PostDown c) (RouteProtocol c) (RouteMetric c)
    (AddressLabel c) (SaveConfig c) (WgBin c).

Definition set_PostUp (v : list gostring) (c : Config) : Config :=
  mkConfig (PrivateKey c) (ListenPort c) (FirewallMark c) (ReplacePeers c)
    (Peers c) (Address c) (DNS c) (MTU c) (Table c) (PreUp c) v
    (PreDown c) (PostDown c) (RouteProtocol c) (RouteMetric c)
    (AddressLabel c) (SaveConfig c) (WgBin c).

Definition set_PreDown (v : list gostring) (c : Config) : Config :=
  mkConfig (PrivateKey c) (ListenPort c) (FirewallMark c) (ReplacePeers c)
    (Peers c) (Address c) (DNS c) (MTU c) (Table c) (PreUp c) (PostUp c)
    v (PostDown c) (RouteProtocol c) (RouteMetric c)
    (AddressLabel c) (SaveConfig c) (WgBin c).

Definition set_PostDown (v : list gostring) (c : Config) : Config :=
  mkConfig (PrivateKey c) (ListenPort c) (FirewallMark c) (ReplacePeers c)
    (Peers c) (Address c) (DNS c) (MTU c) (Table c) (PreUp c) (PostUp c)
    (PreDown c) v (RouteProtocol c) (RouteMetric c)
    (AddressLabel c) (SaveConfig c) (WgBin c).

Definition set_SaveConfig (v : bool) (c : Config) : Config :=
  mkConfig (PrivateKey c) (ListenPort c) (FirewallMark c) (ReplacePeers c)
    (Peers c) (Address c) (DNS c) (MTU c) (Table c) (PreUp c) (PostUp c)
    (PreDown c) (PostDown c) (RouteProtocol c) (RouteMetric c)
    (AddressLabel c) v (WgBin c).

Definition set_WgBin (v : gostring) (c : Config) : Config :=
  mkConfig (PrivateKey c) (ListenPort c) (FirewallMark c) (ReplacePeers c)
    (Peers c) (Address c) (DNS c) (MTU c) (Table c) (PreUp c) (PostUp c)
    (PreDown c) (PostDown c) (RouteProtocol c) (RouteMetric c)
    (AddressLabel c) (SaveConfig c) v.

Definition set_PublicKey (v : wgtypes.Key) (p : PeerConfig) : PeerConfig :=
  mkPeerConfig v (Remove p) (UpdateOnly p) (PresharedKey p) (Endpoint p)
    (PersistentKeepaliveInterval p) (ReplaceAllowedIPs p) (AllowedIPs p).

Definition set_PresharedKey (v : option wgtypes.Key) (p : PeerConfig)
  : PeerConfig :=
  mkPeerConfig (PublicKey p) (Remove p) (UpdateOnly p) v (Endpoint p)
    (PersistentKeepaliveInterval p) (ReplaceAllowedIPs p) (AllowedIPs p).

Definition set_Endpoint (v : option UDPAddr) (p : PeerConfig) : PeerConfig :=
  mkPeerConfig (PublicKey p) (Remove p) (UpdateOnly p) (PresharedKey p) v
    (PersistentKeepaliveInterval p) (ReplaceAllowedIPs p) (AllowedIPs p).

Definition set_PersistentKeepaliveInterval (v : option Duration)
  (p : PeerConfig) : PeerConfig :=
  mkPeerConfig (PublicKey p) (Remove p) (UpdateOnly p) (PresharedKey p)
    (Endpoint p) v (ReplaceAllowedIPs p) (AllowedIPs p).

Definition set_AllowedIPs (v : list IPNet) (p : PeerConfig) : PeerConfig :=
  mkPeerConfig (PublicKey p) (Remove p) (UpdateOnly p) (PresharedKey p)
    (Endpoint p) (PersistentKeepaliveInterval p) (ReplaceAllowedIPs p) v.

(** ** TextEncoder: [Config.MarshalText] *)

(** [toSeconds]: [int(duration / time.Second)], Go's division truncating
    toward zero. *)
Definition toSeconds (duration : Duration) : Z := Z.quot duration Second.

(** How [text/template] prints a [[]string]: [fmt]'s [[a b c]]. *)
Definition printStrings (l : list gostring) : gostring :=
  "[" ++ strings.Join l " " ++ "]".

Definition nl : gostring := ["010"%char].

(** [{{- if .X }}{{ "\n" }}Key = {{ .X }}{{ end }}] for a pointer field:
    the line is written when the pointer is not nil. *)
Definition optLine {A} (key : gostring) (show : A -> gostring)
  (v : option A) : gostring :=
  match v with
  | Some x => nl ++ key ++ " = " ++ show x
  | None => []
  end.

(** The same for a value field, written when the value is not the zero
    value of its type ([truthy] decides that). *)
Definition condLine {A} (key : gostring) (truthy : A -> bool)
  (show : A -> gostring) (v : A) : gostring :=
  if truthy v then nl ++ key ++ " = " ++ show v else [].

Definition nonEmpty {A} (l : list A) : bool :=
  match l with [] => false | _ => true end.

Definition showIPNet (n : IPNet) : gostring :=
  IPNet_String (ipnet_IP n) (ipnet_Mask n).

(** The body of [{{- range .Peers }} ... {{- end }}] for one peer. *)
Definition peerTemplate (p : PeerConfig) : gostring :=
  nl ++ nl ++ "[Peer]" ++ nl
  ++ "PublicKey = " ++ serializeKey (PublicKey p) ++ nl
  ++ "AllowedIPs = " ++ strings.Join (map showIPNet (AllowedIPs p)) ", "
  ++ optLine "PresharedKey" wgtypes.Key_String (PresharedKey p)
  ++ optLine "PersistentKeepalive"
       (fun d => strconv.FormatInt (toSeconds d))
       (PersistentKeepaliveInterval p)
  ++ optLine "Endpoint" UDPAddr_String (Endpoint p).

(** [cfgTemplate.Execute] on [wgtypeTemplateSpec].  The one action that
    can fail is [{{ .PrivateKey | wgKey }}]: [serializeKey] slices the
    array behind its argument, so on a nil [PrivateKey] it panics, and
    [text/template] turns a panic of a called function into the error
    that [Execute], and then [MarshalText], returns. *)
Definition MarshalText (cfg : Config) : result gostring :=
  match PrivateKey cfg with
  | None => Err (ErrTemplateCall "wgKey")
  | Some key =>
      Ok ("[Interface]"
          ++ concat (map (fun a => nl ++ "Address = " ++ showIPNet a)
                       (Address cfg))
          ++ concat (map (fun d => nl ++ "DNS = " ++ IP_String d) (DNS cfg))
          ++ nl ++ "PrivateKey = " ++ serializeKey key
          ++ optLine "ListenPort" strconv.FormatInt (ListenPort cfg)
          ++ condLine "MTU" (fun m => negb (m =? 0)%Z) strconv.FormatInt
               (MTU cfg)
          ++ optLine "Table" strconv.FormatInt (Table cfg)
          ++ condLine "PreUp" nonEmpty printStrings (PreUp cfg)
          ++ condLine "PostUp" nonEmpty printStrings (PostUp cfg)
          ++ condLine "PreDown" nonEmpty printStrings (PreDown cfg)
          ++ condLine "PostDown" nonEmpty printStrings (PostDown cfg)
          ++ condLine "SaveConfig" id strconv.FormatBool (SaveConfig cfg)
          ++ concat (map peerTemplate (Peers cfg))
          ++ nl)
  end.

(** ** TextDecoder: [Config.UnmarshalText] *)

Inductive parseState : Type := unknown | inter | peer.

Definition parseState_eqb (a b : parseState) : bool :=
  match a, b with
  | unknown, unknown | inter, inter | peer, peer => true
  | _, _ => false
  end.

(** [parts := strings.Split(ln, "=")], then [lhs] and [rhs] as both
    scanners compute them; [None] when [len(parts) < 2]. *)
Definition splitKeyValue (ln : gostring) : option (gostring * gostring) :=
  let parts := strings.Split ln "=" in
  if length parts <? 2 then None
  else Some (strings.TrimSpace (hd [] parts),
             strings.TrimSpace (strings.Join (tl parts) "=")).

(** [len(ln) == 0 || ln[0] == '#']. *)
Definition skipped (ln : gostring) : bool :=
  match ln with
  | [] => true
  | c :: _ => Ascii.eqb c "#"
  end.

(** The loop over [strings.Split(rhs, ",")] of [Address] and
    [AllowedIPs]: each element trimmed, parsed and appended; [wrap] builds
    the error returned for an element that does not parse. *)
Fixpoint parseCIDRs (wrap : gostring -> error -> error)
  (addrs : list gostring) (acc : list IPNet) : result (list IPNet) :=
  match addrs with
  | [] => Ok acc
  | addr :: rest =>
      match ParseCIDR (strings.TrimSpace addr) with
      | Err e => Err (wrap addr e)
      | Ok (ip, mask) => parseCIDRs wrap rest (acc ++ [mkIPNet ip mask])
      end
  end.

Fixpoint parseIPs (addrs : list gostring) (acc : list IP) : result (list IP) :=
  match addrs with
  | [] => Ok acc
  | addr :: rest =>
      match ParseIP (strings.TrimSpace addr) with
      | None => Err ErrCannotParseIP
      | Some ip => parseIPs rest (acc ++ [ip])
      end
  end.

Definition parseInterfaceLine (cfg : Config) (lhs rhs : gostring)
  : result Config :=
  if lhs == "Address" then
    a <-- parseCIDRs (fun _ e => e) (strings.Split rhs ",") (Address cfg) ;;
    Ok (set_Address a cfg)
  else if lhs == "DNS" then
    d <-- parseIPs (strings.Split rhs ",") (DNS cfg) ;;
    Ok (set_DNS d cfg)
  else if lhs == "MTU" then
    mtu <-- strconv.ParseInt rhs ;;
    Ok (set_MTU mtu cfg)
  else if lhs == "Table" then
    if strings.ToLower rhs == "off" then Ok (set_Table None cfg)
    else
      tbl <-- strconv.ParseInt rhs ;;
      Ok (set_Table (Some tbl) cfg)
  else if lhs == "ListenPort" then
    port <-- strconv.ParseInt rhs ;;
    Ok (set_ListenPort (Some port) cfg)
  else if lhs == "PreUp" then Ok (set_PreUp (PreUp cfg ++ [rhs]) cfg)
  else if lhs == "PostUp" then Ok (set_PostUp (PostUp cfg ++ [rhs]) cfg)
  else if lhs == "PreDown" then Ok (set_PreDown (PreDown cfg ++ [rhs]) cfg)
  else if lhs == "PostDown" then Ok (set_PostDown (PostDown cfg ++ [rhs]) cfg)
  else if lhs == "SaveConfig" then
    save <-- strconv.ParseBool rhs ;;
    Ok (set_SaveConfig save cfg)
  else if lhs == "PrivateKey" then
    key <-- wrapErr ErrDecodeKey (ParseKey rhs) ;;
    Ok (set_PrivateKey (Some key) cfg)
  else if lhs == "WgBin" then Ok (set_WgBin rhs cfg)
  else Err (ErrUnknownDirective lhs).

(** An [int64] product, wrapped to 64 bits. *)
Definition wrap64 (z : Z) : Z := ((z + 2 ^ 63) mod 2 ^ 64 - 2 ^ 63)%Z.

Definition parsePeerLine (peerCfg : PeerConfig) (lhs rhs : gostring)
  : result PeerConfig :=
  if lhs == "PublicKey" then
    key <-- wrapErr ErrDecodeKey (ParseKey rhs) ;;
    Ok (set_PublicKey key peerCfg)
  else if lhs == "PresharedKey" then
    key <-- wrapErr ErrDecodeKey (ParseKey rhs) ;;
    match PresharedKey peerCfg with
    | Some _ => Err ErrPresharedDefined
    | None => Ok (set_PresharedKey (Some key) peerCfg)
    end
  else if lhs == "AllowedIPs" then
    a <-- parseCIDRs ErrCannotParse (strings.Split rhs ",")
            (AllowedIPs peerCfg) ;;
    Ok (set_AllowedIPs a peerCfg)
  else if lhs == "Endpoint" then
    addr <-- ResolveUDPAddr rhs ;;
    Ok (set_Endpoint (Some addr) peerCfg)
  else if lhs == "PersistentKeepalive" then
    t <-- strconv.ParseInt rhs ;;
    Ok (set_PersistentKeepaliveInterval (Some (wrap64 (t * Second))) peerCfg)
  else Err (ErrUnknownDirective lhs).

(** [parsePeerLine(peerCfg, ...)] where [peerCfg] points at the last
    element of [cfg.Peers], which is where [UnmarshalText] keeps it. *)
Definition parseLastPeer (cfg : Config) (lhs rhs : gostring) : result Config :=
  match last (Peers cfg) with
  | None => Err PanicNilPeer
  | Some p =>
      p' <-- parsePeerLine p lhs rhs ;;
      Ok (set_Peers (removelast (Peers cfg) ++ [p']) cfg)
  end.

(** The [switch state] that hands [lhs] and [rhs] to the grammar of the
    section the scanner is in; [no] is the index of the line, counted
    from 0 as [range] does. *)
Definition dispatchLine (no : Z) (state : parseState) (cfg : Config)
  (lhs rhs : gostring) : result (parseState * Config) :=
  match state with
  | inter =>
      cfg' <-- wrapErr (ErrLine (no + 1)) (parseInterfaceLine cfg lhs rhs) ;;
      Ok (state, cfg')
  | peer =>
      cfg' <-- wrapErr (ErrLine (no + 1)) (parseLastPeer cfg lhs rhs) ;;
      Ok (state, cfg')
  | unknown => Err (ErrUnknownState (no + 1))
  end.

(** One iteration of the loop of [UnmarshalText], on the line of index
    [no]. *)
Definition unmarshalLine (no : Z) (state : parseState) (cfg : Config)
  (line : gostring) : result (parseState * Config) :=
  let ln := strings.TrimSpace line in
  if skipped ln then Ok (state, cfg)
  else if ln == "[Interface]" then Ok (inter, cfg)
  else if ln == "[Peer]" then Ok (peer, set_Peers (Peers cfg ++ [zeroPeer]) cfg)
  else
    match splitKeyValue ln with
    | None => Err (ErrMissingEq no)
    | Some (lhs, rhs) => dispatchLine no state cfg lhs rhs
    end.

Fixpoint unmarshalLines (no : Z) (lines : list gostring)
  (state : parseState) (cfg : Config) : result (parseState * Config) :=
  match lines with
  | [] => Ok (state, cfg)
  | line :: rest =>
      st <-- unmarshalLine no state cfg line ;;
      unmarshalLines (no + 1) rest (fst st) (snd st)
  end.

(** [Config.UnmarshalText]: the receiver is overwritten with
    [newConfig()] first, so the result depends on the text only. *)
Definition UnmarshalText (text : gostring) : result Config :=
  st <-- unmarshalLines 0 (strings.Split text "010") unknown newConfig ;;
  Ok (snd st).

(** ** EndpointExtractor: [GetUnresolvedEndpoints] *)

(** The variables of the loop. *)
Record scan : Type := mkScan {
  scan_state : parseState;
  scan_endpoint : gostring;
  scan_pubkey : gostring;
  unresolvedEndpoints : gmap wgtypes.Key gostring
}.

(** One iteration of the loop of [GetUnresolvedEndpoints]. *)
Definition endpointsLine (no : Z) (s : scan) (line : gostring) : result scan :=
  let ln := strings.TrimSpace line in
  if skipped ln then Ok s
  else if ln == "[Interface]" then
    Ok (mkScan inter (scan_endpoint s) (scan_pubkey s) (unresolvedEndpoints s))
  else if ln == "[Peer]" then
    Ok (mkScan peer [] [] (unresolvedEndpoints s))
  else if negb (parseState_eqb (scan_state s) peer) then Ok s
  else
    match splitKeyValue ln with
    | None => Err (ErrMissingEq no)
    | Some (lhs, rhs) =>
        let pubkey := if lhs == "PublicKey" then rhs else scan_pubkey s in
        let endpoint := if lhs == "Endpoint" then rhs else scan_endpoint s in
        if (pubkey == "") || (endpoint == "") then
          Ok (mkScan (scan_state s) endpoint pubkey (unresolvedEndpoints s))
        else
          key <-- wrapErr ErrParseKey (wgtypes.ParseKey pubkey) ;;
          Ok (mkScan (scan_state s) [] []
                (<[key := endpoint]> (unresolvedEndpoints s)))
    end.

Fixpoint endpointsLines (no : Z) (lines : list gostring) (s : scan)
  : result scan :=
  match lines with
  | [] => Ok s
  | line :: rest =>
      s' <-- endpointsLine no s line ;;
      endpointsLines (no + 1) rest s'
  end.

(** The scan of [GetUnresolvedEndpoints] over the text [b] of the file. *)
Definition extractEndpoints (b : gostring)
  : result (gmap wgtypes.Key gostring) :=
  s <-- endpointsLines 0 (strings.Split b "010") (mkScan unknown [] [] ∅) ;;
  Ok (unresolvedEndpoints s).

Definition confPath (name : gostring) : gostring :=
  "/etc/wireguard/" ++ name ++ ".conf".

Definition GetUnresolvedEndpoints (name : gostring)
  : result (gmap wgtypes.Key gostring) :=
  match ReadFile (confPath name) with
  | Err _ => Err ErrReadFile
  | Ok b => extractEndpoints b
  end.

(** ** ConfigStore: [GetConfig] and [MatchConfig] *)

Definition GetConfig (name : gostring) : result Config :=
  match ReadFile (confPath name) with
  | Err _ => Err ErrReadFile
  | Ok b => wrapErr ErrParseConfigFile (UnmarshalText b)
  end.

(** The pattern with [^] put in front and [$] behind when missing. *)
Definition anchored (pattern : gostring) : gostring :=
  let p := if strings.HasPrefix pattern "^" then pattern
           else "^" ++ pattern in
  if strings.HasSuffix p "$" then p else p ++ "$".

Definition len (s : gostring) : Z := Z.of_nat (length s).

(** The negation of the [continue] test of the loop:
    [len(name) < 6 || strings.LastIndex(name, ".conf") != len(name)-5]. *)
Definition isConfName (name : gostring) : bool :=
  negb ((len name <? 6)%Z
        || negb (strings.LastIndex name ".conf" =? len name - 5)%Z).

(** [file.Name()[:len(file.Name())-5]]. *)
Definition baseName (name : gostring) : gostring :=
  take (length name - 5) name.

(** The loop of [MatchConfig] over the directory entries, [pattern]
    already anchored. *)
Fixpoint matchFiles (pattern : gostring) (files : list gostring)
  (cfgs : gmap gostring Config) : outcome (gmap gostring Config) :=
  match files with
  | [] => Returns cfgs
  | file :: rest =>
      if negb (isConfName file) then matchFiles pattern rest cfgs
      else
        match regexp_Match pattern (baseName file) with
        | Err _ => Fatal
        | Ok false => matchFiles pattern rest cfgs
        | Ok true =>
            match ReadFile ("/etc/wireguard/" ++ file) with
            | Err _ => Fatal
            | Ok b =>
                match UnmarshalText b with
                | Err _ => Fatal
                | Ok c => matchFiles pattern rest (<[baseName file := c]> cfgs)
                end
            end
        end
  end.

Definition MatchConfig (pattern : gostring) : outcome (gmap gostring Config) :=
  match ReadDir with
  | Err _ => Fatal
  | Ok files => matchFiles (anchored pattern) files ∅
  end.

End Codec.

(** ** A concrete environment for examples *)

(** Package [net] restricted to IPv4 literals: dotted quads, prefix
    lengths, and [host:port] endpoints whose host is a literal (nothing is
    resolved by name). *)
Module ipv4.

Definition parseOctets (parts : list gostring) : option (list Z) :=
  let vals := map (fun p =>
                match p, strconv.ParseUint p with
                | c :: _ :: _, _ => if Ascii.eqb c "0" then None else
                    match strconv.ParseUint p with
                    | Ok v => if (v <=? 255)%Z then Some v else None
                    | Err _ => None
                    end
                | _, Ok v => Some v
                | _, Err _ => None
                end) parts in
  if (length parts =? 4) && forallb (fun v => match v with Some _ => true | None => false end) vals
  then Some (omap id vals) else None.

Definition parseIP (s : gostring) : option (list Z) :=
  parseOctets (strings.Split s ".").

Definition showIP (ip : list Z) : gostring :=
  strings.Join (map strconv.FormatInt ip) ".".

Definition parseCIDR (s : gostring) : result (list Z * Z) :=
  match strings.Split s "/" with
  | [a; m] =>
      match parseIP a, strconv.ParseUint m with
      | Some ip, Ok n => if (n <=? 32)%Z then Ok (ip, n) else Err NetError
      | _, _ => Err NetError
      end
  | _ => Err NetError
  end.

Definition resolveUDPAddr (s : gostring) : result (list Z * Z) :=
  match strings.Split s ":" with
  | [h; p] =>
      match parseIP h, strconv.ParseUint p with
      | Some ip, Ok n => if (n <=? 65535)%Z then Ok (ip, n) else Err NetError
      | _, _ => Err NetError
      end
  | _ => Err NetError
  end.

#[export] Instance net : NetLib := {|
  IP := list Z;
  IPMask := Z;
  UDPAddr := list Z * Z;
  ParseCIDR := parseCIDR;
  ParseIP := parseIP;
  ResolveUDPAddr := resolveUDPAddr;
  IP_String := showIP;
  IPNet_String := fun ip m => showIP ip ++ "/" ++ strconv.FormatInt m;
  UDPAddr_String := fun a => showIP (fst a) ++ ":" ++ strconv.FormatInt (snd a)
|}.

End ipv4.

(** A directory held in memory, and a pattern engine that knows literal
    patterns only: [^lit$] matches exactly [lit]. *)
Module memfs.

Definition lookupFile (files : list (gostring * gostring)) (path : gostring)
  : result gostring :=
  match List.find (fun f => ("/etc/wireguard/" ++ fst f) == path) files with
  | Some f => Ok (snd f)
  | None => Err ErrReadFile
  end.

Definition literalMatch (pattern b : gostring) : result bool :=
  match pattern with
  | c :: p =>
      if Ascii.eqb c "^" && strings.HasSuffix p "$"
      then Ok (removelast p == b)
      else Err ErrSyntax
  | [] => Err ErrSyntax
  end.

Definition provider (files : list (gostring * gostring)) : Provider := {|
  ReadDir := Ok (map fst files);
  ReadFile := lookupFile files;
  regexp_Match := literalMatch
|}.

End memfs.

(** ** Vocabulary of the statements *)

(** [c] occurs in [s]. *)
Definition contains (c : ascii) (s : gostring) : bool :=
  existsb (Ascii.eqb c) s.

(** A printable ASCII byte other than the space. *)
Definition graphic (c : ascii) : bool :=
  let n := strings.byte c in ((33 <=? n) && (n <=? 126))%N.

(** [s] is not empty and starts and ends with a graphic byte, so
    [strings.TrimSpace] has nothing to remove. *)
Definition trimmed (s : gostring) : bool :=
  match s with
  | [] => false
  | c :: _ => graphic c && graphic (List.last s c)
  end.

(** A value as the encoder writes one on a line: trimmed, on one line. *)
Definition oneLine (s : gostring) : bool :=
  trimmed s && negb (contains "010" s).

(** A word without white space: every byte graphic, at least one. *)
Definition token (s : gostring) : bool :=
  nonEmpty s && forallb graphic s.

(** [l] holds no newline. *)
Definition noNl (l : gostring) : bool := negb (contains "010" l).

(** The line [key = value], as the encoder writes it. *)
Definition kvLine (key value : gostring) : gostring :=
  key ++ " = " ++ value.

(** A directive name: trimmed, without ['='], not starting a comment. *)
Definition isKeyName (key : gostring) : bool :=
  trimmed key && negb (contains "=" key) && negb (skipped key).

(** The text of the endpoint scenario: a peer with public key [K1] and
    endpoint [host1:51820], then a peer with public key [K2] only. *)
Definition twoPeers (K1 K2 : gostring) : gostring :=
  strings.Join
    [ "[Peer]" : gostring;
      kvLine "PublicKey" K1;
      kvLine "Endpoint" "host1:51820";
      [];
      "[Peer]" : gostring;
      kvLine "PublicKey" K2;
      [] ] nl.

(** The number that the decimal digits [s] denote, read after the value
    [n]. *)
Definition valueOf (n : Z) (s : gostring) : Z :=
  fold_left (fun v c => (v * 10 + strconv.digitVal c)%Z) s n.

(** The range of [int64], and of [int] on a 64-bit target. *)
Definition int64 (z : Z) : Prop := (- 2 ^ 63 <= z < 2 ^ 63)%Z.

(** The first byte of an encoding is that of a multi-byte rune. *)
Definition highHead (p : list N) : bool :=
  match p with
  | b :: _ => (128 <=? b)%N
  | [] => false
  end.

Section Vocabulary.

Context {net : NetLib} {provider : Provider}.

(** The names that [MatchConfig] selects from a directory listing. *)
Definition selected (pattern : gostring) (files : list gostring)
  (k : gostring) : Prop :=
  exists file, In file files
    /\ (6 <= len file)%Z /\ file = k ++ ".conf"
    /\ regexp_Match pattern k = Ok true.



(** [l] is a [Table] directive, as the decoder reads it. *)
Definition isTableLine (l : gostring) : bool :=
  match splitKeyValue (strings.TrimSpace l) with
  | Some (lhs, _) => lhs == "Table"
  | None => false
  end.

(** [Decode(Encode(c))]. *)
Definition reencode (c : Config) : result Config :=
  text <-- MarshalText c ;;
  UnmarshalText text.

(** *** Values that print and parse back *)

Definition optHolds {A} (P : A -> Prop) (o : option A) : Prop :=
  match o with
  | Some x => P x
  | None => True
  end.

(** A key has the size of the array type. *)
Definition isKey (k : wgtypes.Key) : Prop := length k = wgtypes.KeyLen.

(** [net] prints the address on one line, without comma, and parses
    that text to the same address and mask. *)
Definition reparsesCIDR (a : IPNet) : Prop :=
  oneLine (showIPNet a) = true
  /\ contains "," (showIPNet a) = false
  /\ ParseCIDR (showIPNet a) = Ok (ipnet_IP a, ipnet_Mask a).

Definition reparsesIP (d : IP) : Prop :=
  oneLine (IP_String d) = true
  /\ contains "," (IP_String d) = false
  /\ ParseIP (IP_String d) = Some d.

Definition reparsesUDP (a : UDPAddr) : Prop :=
  oneLine (UDPAddr_String a) = true
  /\ ResolveUDPAddr (UDPAddr_String a) = Ok a.

(** No command of a hook list holds a newline. *)
Definition hookLines (l : list gostring) : Prop :=
  Forall (fun s => contains "010" s = false) l.

Definition printablePeer (p : PeerConfig) : Prop :=
  isKey (PublicKey p)
  /\ optHolds isKey (PresharedKey p)
  /\ AllowedIPs p <> []
  /\ Forall reparsesCIDR (AllowedIPs p)
  /\ optHolds reparsesUDP (Endpoint p)
  /\ optHolds int64 (PersistentKeepaliveInterval p).

(** The configurations whose encoding the decoder accepts: the private
    key is present, keys have their size, integers are in the range of
    [int], addresses and endpoints are values that [net] prints and parses
    back, hook commands are single lines, every peer has an allowed IP. *)
Definition printable (c : Config) : Prop :=
  (exists key, PrivateKey c = Some key /\ isKey key)
  /\ optHolds int64 (ListenPort c)
  /\ int64 (MTU c)
  /\ optHolds int64 (Table c)
  /\ Forall reparsesCIDR (Address c)
  /\ Forall reparsesIP (DNS c)
  /\ hookLines (PreUp c) /\ hookLines (PostUp c)
  /\ hookLines (PreDown c) /\ hookLines (PostDown c)
  /\ Forall printablePeer (Peers c).

(** *** What the decoder makes of an encoding *)

(** A hook list comes back as the single line it was printed on. *)
Definition canonHook (l : list gostring) : list gostring :=
  match l with
  | [] => []
  | _ => [printStrings l]
  end.

(** No [Table] line is written for nil, and the decoder then keeps the
    zero of [newConfig]. *)
Definition canonTable (t : option Z) : option Z :=
  match t with
  | None => Some 0%Z
  | Some n => Some n
  end.

(** An interval comes back in whole seconds. *)
Definition canonDuration (d : Duration) : Duration :=
  (toSeconds d * Second)%Z.

Definition canonPeer (p : PeerConfig) : PeerConfig :=
  mkPeerConfig (PublicKey p) false false (PresharedKey p) (Endpoint p)
    (option_map canonDuration (PersistentKeepaliveInterval p)) false
    (AllowedIPs p).

(** The fields that the template writes, as the decoder reads them back;
    the fields it does not write at their zero values. *)
Definition canon (c : Config) : Config :=
  mkConfig (PrivateKey c) (ListenPort c) None false
    (map canonPeer (Peers c)) (Address c) (DNS c) (MTU c)
    (canonTable (Table c)) (canonHook (PreUp c)) (canonHook (PostUp c))
    (canonHook (PreDown c)) (canonHook (PostDown c)) 0 0 []
    (SaveConfig c) [].

(** A peer that the round trip gives back as it is. *)
Definition stablePeer (p : PeerConfig) : Prop :=
  Remove p = false /\ UpdateOnly p = false /\ ReplaceAllowedIPs p = false
  /\ optHolds (fun d => Z.rem d Second = 0%Z) (PersistentKeepaliveInterval p).

(** A configuration that the round trip gives back as it is: the routing
    table is not disabled, the hook lists are empty, the fields that the
    template does not write are at their zero values, intervals are whole
    seconds. *)
Definition stable (c : Config) : Prop :=
  Table c <> None
  /\ PreUp c = [] /\ PostUp c = [] /\ PreDown c = [] /\ PostDown c = []
  /\ FirewallMark c = None /\ ReplacePeers c = false
  /\ RouteProtocol c = 0%Z /\ RouteMetric c = 0%Z
  /\ AddressLabel c = [] /\ WgBin c = []
  /\ Forall stablePeer (Peers c).

(** *** The lines of an encoding *)

(** Each line with a newline in front of it. *)
Definition afterNl (ls : list gostring) : gostring :=
  concat (map (fun l => nl ++ l) ls).

Definition optLines {A} (key : gostring) (show : A -> gostring)
  (v : option A) : list gostring :=
  match v with
  | Some x => [kvLine key (show x)]
  | None => []
  end.

Definition condLines {A} (key : gostring) (truthy : A -> bool)
  (show : A -> gostring) (v : A) : list gostring :=
  if truthy v then [kvLine key (show v)] else [].

Definition peerLines (p : PeerConfig) : list gostring :=
  [ [] ; "[Peer]" : gostring;
    kvLine "PublicKey" (serializeKey (PublicKey p));
    kvLine "AllowedIPs" (strings.Join (map showIPNet (AllowedIPs p)) ", ") ]
  ++ optLines "PresharedKey" wgtypes.Key_String (PresharedKey p)
  ++ optLines "PersistentKeepalive"
       (fun d => strconv.FormatInt (toSeconds d))
       (PersistentKeepaliveInterval p)
  ++ optLines "Endpoint" UDPAddr_String (Endpoint p).

Definition interfaceLines (c : Config) (key : wgtypes.Key) : list gostring :=
  map (fun a => kvLine "Address" (showIPNet a)) (Address c)
  ++ map (fun d => kvLine "DNS" (IP_String d)) (DNS c)
  ++ [kvLine "PrivateKey" (serializeKey key)]
  ++ optLines "ListenPort" strconv.FormatInt (ListenPort c)
  ++ condLines "MTU" (fun m => negb (m =? 0)%Z) strconv.FormatInt (MTU c)
  ++ optLines "Table" strconv.FormatInt (Table c)
  ++ condLines "PreUp" nonEmpty printStrings (PreUp c)
  ++ condLines "PostUp" nonEmpty printStrings (PostUp c)
  ++ condLines "PreDown" nonEmpty printStrings (PreDown c)
  ++ condLines "PostDown" nonEmpty printStrings (PostDown c)
  ++ condLines "SaveConfig" id strconv.FormatBool (SaveConfig c).

(** The lines of [MarshalText cfg] after the first. *)
Definition bodyLines (c : Config) (key : wgtypes.Key) : list gostring :=
  interfaceLines c key ++ concat (map peerLines (Peers c)) ++ [[]].

End Vocabulary.

(** ** Example values *)

Module example.

Import ipv4.

(** The key whose bytes are 1, 2, ..., 32, and its base64 form. *)
Definition key : wgtypes.Key := map ascii_of_nat (seq 1 32).

Definition keyText : gostring :=
  "AQIDBAUGBwgJCgsMDQ4PEBESExQVFhcYGRobHB0eHyA=".

Definition otherKeyText : gostring :=
  "IB8eHRwbGhkYFxYVFBMSERAPDg0MCwoJCAcGBQQDAgE=".

Definition peer1 : PeerConfig :=
  mkPeerConfig key false false (Some key)
    (Some ([1; 2; 3; 4]%Z, 51820%Z)) (Some 25000000000%Z) false
    [mkIPNet [10; 0; 0; 0]%Z 24%Z; mkIPNet [10; 0; 1; 0]%Z 24%Z].

(** A configuration with every written field set. *)
Definition config : Config :=
  mkConfig (Some key) (Some 51820%Z) None false [peer1]
    [mkIPNet [10; 0; 0; 1]%Z 24%Z] [[8; 8; 8; 8]%Z] 1420 (Some 42%Z)
    [] [] [] [] 0 0 [] true [].

(** [newConfig] with a private key and one [PreUp] command. *)
Definition hookConfig : Config :=
  set_PreUp ["a" : gostring] (set_PrivateKey (Some key) newConfig).

(** An interface whose routing table is disabled. *)
Definition offText : gostring :=
  "[Interface]" ++ nl ++ kvLine "PrivateKey" keyText ++ nl
  ++ kvLine "Table" "off".


(** A directory with two configurations and one other file. *)
Definition files : list (gostring * gostring) :=
  [ ("wg0.conf" : gostring, offText);
    ("wg1.conf" : gostring, twoPeers keyText otherKeyText);
    ("notes.txt" : gostring, "hello" : gostring) ].

Definition store : Provider := memfs.provider files.

End example.

(** ** Vocabulary of the further properties *)

(** The directive names of the two grammars. *)
Definition interfaceKeys : list gostring :=
  [ "Address" : gostring; "DNS" : gostring; "MTU" : gostring;
    "Table" : gostring; "ListenPort" : gostring; "PreUp" : gostring;
    "PostUp" : gostring; "PreDown" : gostring; "PostDown" : gostring;
    "SaveConfig" : gostring; "PrivateKey" : gostring; "WgBin" : gostring ].

Definition peerKeys : list gostring :=
  [ "PublicKey" : gostring; "PresharedKey" : gostring;
    "AllowedIPs" : gostring; "Endpoint" : gostring;
    "PersistentKeepalive" : gostring ].

Definition isOneOf (keys : list gostring) (lhs : gostring) : bool :=
  existsb (gostring_eqb lhs) keys.

(** [l] is blank or a comment. *)
Definition isSkipped (l : gostring) : bool := skipped (strings.TrimSpace l).

Definition isPeerHeader (l : gostring) : bool :=
  strings.TrimSpace l == "[Peer]".

(** The number of [[Peer]] headers among the lines. *)
Definition countPeerHeaders (lines : list gostring) : nat :=
  length (filter (fun l => isPeerHeader l = true) lines).

(** [l] is read as the directive [lhs = rhs]. *)
Definition isDirective (l lhs rhs : gostring) : Prop :=
  skipped (strings.TrimSpace l) = false
  /\ splitKeyValue (strings.TrimSpace l) = Some (lhs, rhs).

(** One peer block with key [K] and endpoint [e1], then a second one that
    gives its endpoint [e2] before the same key [K]. *)
Definition samePeerTwice (K e1 e2 : gostring) : gostring :=
  strings.Join
    [ "[Peer]" : gostring;
      kvLine "PublicKey" K;
      kvLine "Endpoint" e1;
      "[Peer]" : gostring;
      kvLine "Endpoint" e2;
      kvLine "PublicKey" K ] nl.

(** One peer block with key [K] and endpoint [e]. *)
Definition onePeer (K e : gostring) : gostring :=
  strings.Join
    [ "[Peer]" : gostring; kvLine "PublicKey" K; kvLine "Endpoint" e ] nl.

(** One peer block with key [K] and no endpoint. *)
Definition keyOnly (K : gostring) : gostring :=
  strings.Join [ "[Peer]" : gostring; kvLine "PublicKey" K ] nl.

(** [l] is not a section header. *)
Definition notHeader (l : gostring) : Prop :=
  (strings.TrimSpace l == "[Interface]") = false
  /\ (strings.TrimSpace l == "[Peer]") = false.

Section MoreVocabulary.

Context {net : NetLib} {provider : Provider}.

(** In a peer section the scanner has a current peer. *)
Definition peerReady (state : parseState) (cfg : Config) : Prop :=
  state = peer -> exists ps p, Peers cfg = ps ++ [p].

(** The mapping [m] with the endpoint of [p], when it has one, under its
    public key. *)
Definition withEndpoint (p : PeerConfig) (m : gmap wgtypes.Key gostring)
  : gmap wgtypes.Key gostring :=
  match Endpoint p with
  | Some a => <[PublicKey p := UDPAddr_String a]> m
  | None => m
  end.

(** The endpoints of the peers that have one, by public key, a later peer
    replacing an earlier one with the same key. *)
Definition endpointsOf (peers : list PeerConfig)
  (m : gmap wgtypes.Key gostring) : gmap wgtypes.Key gostring :=
  fold_left (fun m p => withEndpoint p m) peers m.

(** The text [s] is, up to white space around it, what [net] prints for
    [a], and [net] parses that back. *)
Definition spellsCIDR (s : gostring) (a : IPNet) : Prop :=
  contains "," s = false
  /\ ParseCIDR (strings.TrimSpace s) = Ok (ipnet_IP a, ipnet_Mask a).

(** [MatchConfig] stops the process at the directory entry [file]: a
    [.conf] name on which the pattern errs, or one that the pattern
    matches while [GetConfig] fails on the shortened name. *)
Definition exitsOn (pattern file : gostring) : Prop :=
  isConfName file = true
  /\ ((exists e, regexp_Match pattern (baseName file) = Err e)
      \/ (regexp_Match pattern (baseName file) = Ok true
          /\ exists e, GetConfig (baseName file) = Err e)).

End MoreVocabulary.

(** ** Further example values *)

Module sample.

Import ipv4.

(** What [MarshalText] writes for [example.config]. *)
Definition encoded : gostring :=
  strings.Join
    [ "[Interface]" : gostring;
      "Address = 10.0.0.1/24" : gostring;
      "DNS = 8.8.8.8" : gostring;
      kvLine "PrivateKey" example.keyText;
      "ListenPort = 51820" : gostring;
      "MTU = 1420" : gostring;
      "Table = 42" : gostring;
      "SaveConfig = true" : gostring;
      [];
      "[Peer]" : gostring;
      kvLine "PublicKey" example.keyText;
      "AllowedIPs = 10.0.0.0/24, 10.0.1.0/24" : gostring;
      kvLine "PresharedKey" example.keyText;
      "PersistentKeepalive = 25" : gostring;
      "Endpoint = 1.2.3.4:51820" : gostring;
      [] ] nl.

(** An interface, a peer with a key, and the header of a second peer. *)
Definition twoHeaders : list gostring :=
  [ "[Interface]" : gostring;
    "[Peer]" : gostring;
    kvLine "PublicKey" example.keyText;
    "[Peer]" : gostring ].

Definition firstPeer : PeerConfig := set_PublicKey example.key zeroPeer.

(** Two addresses and the way a file may spell them. *)
Definition addresses : list IPNet :=
  [mkIPNet [10; 0; 0; 1]%Z 24%Z; mkIPNet [10; 0; 1; 1]%Z 24%Z].

Definition spellings : list gostring :=
  ["10.0.0.1/24" : gostring; " 10.0.1.1/24" : gostring].

Definition endpoint : UDPAddr := ([1; 2; 3; 4]%Z, 51820%Z).

(** A directory with the files of the extractor's scenarios. *)
Definition files : list (gostring * gostring) :=
  [ ("wg0.conf" : gostring, encoded);
    ("twice.conf" : gostring,
     samePeerTwice example.keyText "1.2.3.4:51820" "5.6.7.8:51820");
    ("bad.conf" : gostring, onePeer "QUJD" "1.2.3.4:51820");
    ("lone.conf" : gostring, keyOnly "QUJD");
    ("broken.conf" : gostring, "[Interface]" ++ nl ++ "MTU = x");
    ("notes.txt" : gostring, "hello" : gostring) ].

Definition store : Provider := memfs.provider files.

End sample.

(** * Properties *)

(** ** Results *)

Lemma bind_Ok {A B} (r : result A) (k : A -> result B) a :
  r = Ok a -> bind r k = k a.
Proof. intros ->. reflexivity. Qed.

Lemma bind_Err {A B} (r : result A) (k : A -> result B) e :
  r = Err e -> bind r k = Err e.
Proof. intros ->. reflexivity. Qed.

Lemma gostring_eqb_eq (a b : gostring) : (a == b) = true <-> a = b.
Proof. unfold gostring_eqb. apply bool_decide_eq_true. Qed.

Lemma gostring_eqb_refl (a : gostring) : (a == a) = true.
Proof. apply gostring_eqb_eq. reflexivity. Qed.

Lemma gostring_eqb_neq (a b : gostring) : (a == b) = false <-> a <> b.
Proof. unfold gostring_eqb. apply bool_decide_eq_false. Qed.

(** ** strings.Split and strings.Join *)

Lemma contains_app c s t : contains c (s ++ t) = contains c s || contains c t.
Proof. unfold contains. apply existsb_app. Qed.

Lemma contains_cons c d s :
  contains c (d :: s) = Ascii.eqb c d || contains c s.
Proof. reflexivity. Qed.

Lemma Split_not_nil s sep : strings.Split s sep <> [].
Proof.
  destruct s as [|c s]; simpl; [discriminate|].
  destruct (Ascii.eqb c sep); [discriminate|].
  destruct (strings.Split s sep); discriminate.
Qed.

Lemma Split_cons_sep s sep : strings.Split (sep :: s) sep = [] :: strings.Split s sep.
Proof. simpl. rewrite Ascii.eqb_refl. reflexivity. Qed.

Lemma Split_cons_other c s sep p ps :
  Ascii.eqb c sep = false -> strings.Split s sep = p :: ps ->
  strings.Split (c :: s) sep = (c :: p) :: ps.
Proof. intros Hc Hs. simpl. rewrite Hc, Hs. reflexivity. Qed.

(** Up to the first separator: the first piece, then the pieces of the
    rest. *)
Lemma Split_app_sep s sep t :
  contains sep s = false ->
  strings.Split (s ++ sep :: t) sep = s :: strings.Split t sep.
Proof.
  induction s as [|c s IH]; intros Hs.
  - apply Split_cons_sep.
  - rewrite contains_cons in Hs. apply orb_false_elim in Hs as [Hc Hs].
    rewrite <- app_comm_cons.
    apply Split_cons_other; [|auto].
    rewrite Ascii.eqb_sym. exact Hc.
Qed.

Lemma Split_no_sep s sep :
  contains sep s = false -> strings.Split s sep = [s].
Proof.
  induction s as [|c s IH]; intros Hs; [reflexivity|].
  rewrite contains_cons in Hs. apply orb_false_elim in Hs as [Hc Hs].
  apply Split_cons_other; [|auto].
  rewrite Ascii.eqb_sym. exact Hc.
Qed.

Lemma Join_cons x y ys sep :
  strings.Join (x :: y :: ys) sep = x ++ sep ++ strings.Join (y :: ys) sep.
Proof. reflexivity. Qed.

(** Joining the pieces with the separator gives the string back. *)
Lemma Join_Split s sep : strings.Join (strings.Split s sep) [sep] = s.
Proof.
  induction s as [|c s IH]; [reflexivity|].
  simpl strings.Split.
  destruct (Ascii.eqb_spec c sep) as [->|Hne].
  - pose proof (Split_not_nil s sep) as Hnn.
    destruct (strings.Split s sep) as [|p ps] eqn:E; [contradiction|].
    rewrite Join_cons, IH. reflexivity.
  - pose proof (Split_not_nil s sep) as Hnn.
    destruct (strings.Split s sep) as [|p ps] eqn:E; [contradiction|].
    destruct ps as [|q qs].
    + simpl in *. congruence.
    + rewrite Join_cons in *. rewrite <- IH. reflexivity.
Qed.

(** Splitting what was joined gives the pieces back, when no piece holds
    the separator. *)
Lemma Split_Join (ls : list gostring) sep :
  ls <> [] -> forallb (fun l => negb (contains sep l)) ls = true ->
  strings.Split (strings.Join ls [sep]) sep = ls.
Proof.
  induction ls as [|l ls IH]; intros Hne Hall; [contradiction|].
  simpl in Hall. apply andb_prop in Hall as [Hl Hall].
  apply negb_true_iff in Hl.
  destruct ls as [|l' ls'].
  - simpl. apply Split_no_sep. exact Hl.
  - rewrite Join_cons. simpl app at 2.
    rewrite Split_app_sep by exact Hl.
    f_equal. apply IH; [discriminate|exact Hall].
Qed.

(** ** strings.TrimSpace *)

Lemma trimWhile_stop width n s : width s = 0 -> strings.trimWhile width n s = s.
Proof. intros H. destruct n; simpl; [reflexivity|]. rewrite H. reflexivity. Qed.

Lemma trimWhile_step width n s w :
  width s = S w ->
  strings.trimWhile width (S n) s = strings.trimWhile width n (drop (S w) s).
Proof. intros H. simpl. rewrite H. reflexivity. Qed.

Lemma graphic_not_space c : graphic c = true -> strings.asciiSpace c = false.
Proof.
  unfold graphic, strings.asciiSpace. intros H.
  apply andb_prop in H as [H1 H2].
  apply N.leb_le in H1. apply N.leb_le in H2.
  apply orb_false_intro.
  - apply andb_false_iff. right. apply N.leb_gt. lia.
  - apply N.eqb_neq. lia.
Qed.

Lemma hasBytes_high b p c s :
  (128 <= b)%N -> graphic c = true -> strings.hasBytes (b :: p) (c :: s) = false.
Proof.
  intros Hb H. unfold graphic in H. apply andb_prop in H as [_ H2].
  apply N.leb_le in H2. simpl.
  apply andb_false_iff. left. apply N.eqb_neq. lia.
Qed.

Lemma find_high_graphic (f : list N -> list N) tbl c s :
  forallb highHead (map f tbl) = true -> graphic c = true ->
  List.find (fun p => strings.hasBytes (f p) (c :: s)) tbl = None.
Proof.
  intros Htbl H. induction tbl as [|p tbl IH]; [reflexivity|].
  simpl in Htbl. apply andb_prop in Htbl as [Hp Htbl].
  simpl List.find. destruct (f p) as [|b p'] eqn:E; [discriminate|].
  rewrite hasBytes_high; [auto|apply N.leb_le, Hp|exact H].
Qed.

Lemma spaceWidth_graphic c s : graphic c = true -> strings.spaceWidth (c :: s) = 0.
Proof.
  intros H. unfold strings.spaceWidth.
  rewrite (graphic_not_space c H).
  rewrite (find_high_graphic (fun p => p)); [reflexivity|reflexivity|exact H].
Qed.

Lemma spaceWidthLast_graphic c s :
  graphic c = true -> strings.spaceWidthLast (c :: s) = 0.
Proof.
  intros H. unfold strings.spaceWidthLast.
  rewrite (graphic_not_space c H).
  rewrite (find_high_graphic (@rev N)); [reflexivity|reflexivity|exact H].
Qed.

Lemma TrimLeftSpace_graphic c s :
  graphic c = true -> strings.TrimLeftSpace (c :: s) = c :: s.
Proof.
  intros H. unfold strings.TrimLeftSpace.
  apply trimWhile_stop, spaceWidth_graphic, H.
Qed.

Lemma TrimRightSpace_graphic s c :
  graphic c = true -> strings.TrimRightSpace (s ++ [c]) = s ++ [c].
Proof.
  intros H. unfold strings.TrimRightSpace.
  rewrite rev_app_distr. simpl rev at 1. simpl app at 1.
  rewrite trimWhile_stop by (apply spaceWidthLast_graphic, H).
  simpl. rewrite rev_involutive. reflexivity.
Qed.

Lemma trimmed_inv s :
  trimmed s = true ->
  exists c s', s = c :: s' /\ graphic c = true /\
    exists t d, s = t ++ [d] /\ graphic d = true.
Proof.
  destruct s as [|c s']; [discriminate|]. intros H.
  unfold trimmed in H. apply andb_prop in H as [H1 H2].
  exists c, s'. repeat split; auto.
  exists (removelast (c :: s')), (List.last (c :: s') c). split; auto.
  apply app_removelast_last. discriminate.
Qed.

(** Nothing to trim from a trimmed string. *)
Lemma TrimSpace_trimmed s : trimmed s = true -> strings.TrimSpace s = s.
Proof.
  intros H. destruct (trimmed_inv s H) as (c & s' & E & Hc & t & d & E' & Hd).
  unfold strings.TrimSpace. rewrite E, (TrimLeftSpace_graphic c s' Hc), <- E, E'.
  apply TrimRightSpace_graphic, Hd.
Qed.

Lemma asciiSpace_width c s : strings.asciiSpace c = true -> strings.spaceWidth (c :: s) = 1.
Proof. intros H. unfold strings.spaceWidth. rewrite H. reflexivity. Qed.

Lemma asciiSpace_widthLast c s :
  strings.asciiSpace c = true -> strings.spaceWidthLast (c :: s) = 1.
Proof. intros H. unfold strings.spaceWidthLast. rewrite H. reflexivity. Qed.

(** One leading space before a trimmed string is removed. *)
Lemma TrimSpace_space_trimmed s :
  trimmed s = true -> strings.TrimSpace (" "%char :: s) = s.
Proof.
  intros H. rewrite <- (TrimSpace_trimmed s H) at 2.
  reflexivity.
Qed.

(** One trailing space after a trimmed string is removed. *)
Lemma TrimSpace_trimmed_space s :
  trimmed s = true -> strings.TrimSpace (s ++ [" "%char]) = s.
Proof.
  intros H. destruct (trimmed_inv s H) as (c & s' & E & Hc & t & d & E' & Hd).
  unfold strings.TrimSpace.
  assert (HL : strings.TrimLeftSpace (s ++ [" "%char]) = s ++ [" "%char]).
  { rewrite E, <- app_comm_cons. apply TrimLeftSpace_graphic, Hc. }
  rewrite HL. unfold strings.TrimRightSpace.
  rewrite rev_app_distr, length_app, Nat.add_comm.
  change (rev [" "%char] ++ rev s) with (" "%char :: rev s).
  change (length [" "%char] + length s) with (S (length s)).
  rewrite (trimWhile_step _ _ _ 0) by (apply asciiSpace_widthLast; reflexivity).
  change (drop 1 (" "%char :: rev s)) with (rev s).
  assert (HR : rev s = d :: rev t).
  { rewrite E', rev_app_distr. reflexivity. }
  rewrite HR, trimWhile_stop by (apply spaceWidthLast_graphic, Hd).
  rewrite <- HR. apply rev_involutive.
Qed.

Lemma trimmed_ends c t u d :
  c :: t = u ++ [d] -> graphic c = true -> graphic d = true ->
  trimmed (c :: t) = true.
Proof.
  intros E Hc Hd. unfold trimmed. rewrite E, last_last, Hd.
  destruct u; injection E as -> _; rewrite Hc; reflexivity.
Qed.

Lemma trimmed_app_r a b :
  trimmed a = true -> trimmed b = true -> trimmed (a ++ b) = true.
Proof.
  intros Ha Hb.
  destruct (trimmed_inv a Ha) as (c & s' & E & Hc & _).
  destruct (trimmed_inv b Hb) as (_ & _ & _ & _ & t & d & E' & Hd).
  subst a. rewrite <- app_comm_cons.
  apply (trimmed_ends c _ (c :: s' ++ t) d); auto.
  rewrite E', <- !app_comm_cons, app_assoc. reflexivity.
Qed.

(** A string that starts with a graphic byte and ends with a trimmed one
    is trimmed, whatever lies between. *)
Lemma trimmed_sandwich c m b :
  graphic c = true -> trimmed b = true -> trimmed (c :: m ++ b) = true.
Proof.
  intros Hc Hb.
  destruct (trimmed_inv b Hb) as (_ & _ & _ & _ & t & d & E' & Hd).
  apply (trimmed_ends c _ (c :: m ++ t) d); auto.
  rewrite E', <- !app_comm_cons, app_assoc. reflexivity.
Qed.

(** ** Lines of the two scanners *)

Section Scanner.

Context {net : NetLib} {provider : Provider}.

Lemma splitKeyValue_first_eq k v :
  contains "=" k = false ->
  splitKeyValue (k ++ "="%char :: v)
  = Some (strings.TrimSpace k, strings.TrimSpace v).
Proof.
  intros Hk. unfold splitKeyValue.
  rewrite (Split_app_sep k "=" v Hk).
  pose proof (Split_not_nil v "=") as Hnn.
  destruct (strings.Split v "=") as [|p ps] eqn:E; [contradiction|].
  simpl length. simpl Nat.ltb. cbn iota. simpl hd. simpl tl.
  rewrite <- E. change (String.list_ascii_of_string "=") with ["="%char].
  rewrite Join_Split. reflexivity.
Qed.

Lemma splitKeyValue_no_eq ln :
  contains "=" ln = false -> splitKeyValue ln = None.
Proof.
  intros H. unfold splitKeyValue. rewrite (Split_no_sep ln "=" H). reflexivity.
Qed.

Lemma splitKeyValue_Some_contains ln kv :
  splitKeyValue ln = Some kv -> contains "=" ln = true.
Proof.
  intros H. destruct (contains "=" ln) eqn:E; [reflexivity|].
  rewrite (splitKeyValue_no_eq ln E) in H. discriminate.
Qed.

(** A line with ['='] in it is not a section header. *)
Lemma contains_eq_not_header ln :
  contains "=" ln = true -> (ln == "[Interface]") = false /\ (ln == "[Peer]") = false.
Proof.
  intros H. split; apply gostring_eqb_neq; intros E; rewrite E in H;
    discriminate.
Qed.

Lemma unmarshalLine_skipped no state cfg line :
  skipped (strings.TrimSpace line) = true ->
  unmarshalLine no state cfg line = Ok (state, cfg).
Proof. intros H. unfold unmarshalLine. rewrite H. reflexivity. Qed.

(** A line with a key and a value goes to the grammar of the section. *)
Lemma unmarshalLine_key_value no state cfg line lhs rhs :
  skipped (strings.TrimSpace line) = false ->
  splitKeyValue (strings.TrimSpace line) = Some (lhs, rhs) ->
  unmarshalLine no state cfg line = dispatchLine no state cfg lhs rhs.
Proof.
  intros Hs Hkv. unfold unmarshalLine. rewrite Hs.
  destruct (contains_eq_not_header _ (splitKeyValue_Some_contains _ _ Hkv)) as [-> ->].
  rewrite Hkv. reflexivity.
Qed.

Lemma unmarshalLines_app no a b state cfg :
  unmarshalLines no (a ++ b) state cfg
  = (st <-- unmarshalLines no a state cfg ;;
     unmarshalLines (no + Z.of_nat (length a)) b (fst st) (snd st)).
Proof.
  revert no state cfg. induction a as [|l a IH]; intros no state cfg.
  - simpl. rewrite Z.add_0_r. reflexivity.
  - simpl app. simpl unmarshalLines.
    destruct (unmarshalLine no state cfg l) as [[st' cfg']|e]; [|reflexivity].
    simpl bind. rewrite IH. simpl length.
    replace (no + 1 + Z.of_nat (length a))%Z with (no + Z.of_nat (S (length a)))%Z by lia.
    reflexivity.
Qed.

Lemma endpointsLines_app no a b s :
  endpointsLines no (a ++ b) s
  = (s' <-- endpointsLines no a s ;;
     endpointsLines (no + Z.of_nat (length a)) b s').
Proof.
  revert no s. induction a as [|l a IH]; intros no s.
  - simpl. rewrite Z.add_0_r. reflexivity.
  - simpl app. simpl endpointsLines.
    destruct (endpointsLine no s l) as [s'|e]; [|reflexivity].
    simpl bind. rewrite IH. simpl length.
    replace (no + 1 + Z.of_nat (length a))%Z with (no + Z.of_nat (S (length a)))%Z by lia.
    reflexivity.
Qed.

(** The line of index [length pre] has no ['='], the lines before it were
    accepted: [UnmarshalText] fails with that index in the error. *)
Lemma UnmarshalText_missing_eq text pre line post st :
  strings.Split text "010" = pre ++ line :: post ->
  unmarshalLines 0 pre unknown newConfig = Ok st ->
  skipped (strings.TrimSpace line) = false ->
  (strings.TrimSpace line == "[Interface]") = false ->
  (strings.TrimSpace line == "[Peer]") = false ->
  contains "=" (strings.TrimSpace line) = false ->
  UnmarshalText text = Err (ErrMissingEq (Z.of_nat (length pre))).
Proof.
  intros Hsplit Hpre Hs Hi Hp Heq. unfold UnmarshalText.
  rewrite Hsplit, unmarshalLines_app, Hpre. simpl bind.
  simpl unmarshalLines. unfold unmarshalLine.
  rewrite Hs, Hi, Hp, (splitKeyValue_no_eq _ Heq). reflexivity.
Qed.

(** What both scanners make of a line [key = value] written by the
    encoder. *)
Lemma kvLine_scan key value :
  isKeyName key = true -> trimmed value = true ->
  strings.TrimSpace (kvLine key value) = kvLine key value
  /\ skipped (kvLine key value) = false
  /\ splitKeyValue (kvLine key value) = Some (key, value).
Proof.
  intros Hk Hv. unfold isKeyName in Hk.
  apply andb_prop in Hk as [Hk Hsk]. apply andb_prop in Hk as [Htr Heq].
  apply negb_true_iff in Hsk. apply negb_true_iff in Heq.
  destruct (trimmed_inv key Htr) as (c & key' & E & Hc & _).
  unfold kvLine. change (String.list_ascii_of_string " = ") with [" "%char; "="%char; " "%char].
  split; [|split].
  - apply TrimSpace_trimmed. rewrite E, <- app_comm_cons, app_assoc.
    apply trimmed_sandwich; [exact Hc|exact Hv].
  - rewrite E in *. exact Hsk.
  - replace (key ++ [" "%char; "="%char; " "%char] ++ value)
      with ((key ++ [" "%char]) ++ "="%char :: " "%char :: value)
      by (rewrite <- app_assoc; reflexivity).
    rewrite splitKeyValue_first_eq.
    + rewrite (TrimSpace_trimmed_space key Htr), (TrimSpace_space_trimmed value Hv).
      reflexivity.
    + rewrite contains_app, Heq. reflexivity.
Qed.

End Scanner.

(** ** Tokens *)

Lemma graphic_not_newline c : graphic c = true -> Ascii.eqb "010" c = false.
Proof.
  intros H. apply Ascii.eqb_neq. intros <-. discriminate.
Qed.

Lemma token_no_newline s : forallb graphic s = true -> contains "010" s = false.
Proof.
  induction s as [|c s IH]; [reflexivity|]. intros H.
  simpl in H. apply andb_prop in H as [Hc Hs].
  rewrite contains_cons, (graphic_not_newline c Hc), (IH Hs). reflexivity.
Qed.

Lemma forallb_last {A} (f : A -> bool) l d :
  l <> [] -> forallb f l = true -> f (List.last l d) = true.
Proof.
  induction l as [|a l IH]; [contradiction|]. intros _ H.
  simpl in H. apply andb_prop in H as [Ha Hl].
  destruct l as [|b l]; [exact Ha|].
  change (List.last (a :: b :: l) d) with (List.last (b :: l) d).
  apply IH; [discriminate|exact Hl].
Qed.

Lemma token_trimmed s : token s = true -> trimmed s = true.
Proof.
  unfold token. intros H. apply andb_prop in H as [Hne Hall].
  destruct s as [|c s]; [discriminate|].
  unfold trimmed. apply andb_true_intro. split.
  - simpl in Hall. apply andb_prop in Hall as [Hc _]. exact Hc.
  - apply forallb_last; [discriminate|exact Hall].
Qed.

Lemma token_oneLine s : token s = true -> oneLine s = true.
Proof.
  intros H. unfold oneLine. rewrite (token_trimmed s H).
  unfold token in H. apply andb_prop in H as [_ H].
  rewrite (token_no_newline s H). reflexivity.
Qed.

Lemma contains_kvLine c key value :
  contains c (kvLine key value)
  = contains c key || (contains c " = " || contains c value).
Proof. unfold kvLine. rewrite !contains_app. reflexivity. Qed.

(** Decide the comparisons of string literals in the goal. *)
Ltac is_literal t :=
  lazymatch t with
  | String.list_ascii_of_string _ => idtac
  | @nil _ => idtac
  end.

Ltac eval_eqb :=
  repeat match goal with
         | |- context [gostring_eqb ?a ?b] =>
             is_literal a; is_literal b;
             let r := eval vm_compute in (gostring_eqb a b) in
             lazymatch r with
             | true => change (gostring_eqb a b) with true
             | false => change (gostring_eqb a b) with false
             end
         end;
  cbv beta iota.

(** ** The endpoint extractor *)

Section Extractor.

Context {net : NetLib} {provider : Provider}.

Lemma endpointsLine_blank no s : endpointsLine no s [] = Ok s.
Proof. reflexivity. Qed.

Lemma endpointsLine_Peer no s :
  endpointsLine no s "[Peer]" = Ok (mkScan peer [] [] (unresolvedEndpoints s)).
Proof. reflexivity. Qed.

(** Outside a [[Peer]] section a line that is not a header changes
    nothing, whatever it holds. *)
Lemma endpointsLine_outside no s line :
  scan_state s <> peer ->
  (strings.TrimSpace line == "[Interface]") = false ->
  (strings.TrimSpace line == "[Peer]") = false ->
  endpointsLine no s line = Ok s.
Proof.
  intros Hst Hi Hp. unfold endpointsLine. rewrite Hi, Hp.
  destruct (skipped _); [reflexivity|].
  destruct (scan_state s); try reflexivity. contradiction.
Qed.


(** Inside a [[Peer]] section, a line [lhs = rhs]. *)
Lemma endpointsLine_key_value no s line lhs rhs :
  scan_state s = peer ->
  skipped (strings.TrimSpace line) = false ->
  splitKeyValue (strings.TrimSpace line) = Some (lhs, rhs) ->
  endpointsLine no s line
  = (let pubkey := if lhs == "PublicKey" then rhs else scan_pubkey s in
     let endpoint := if lhs == "Endpoint" then rhs else scan_endpoint s in
     if (pubkey == "") || (endpoint == "") then
       Ok (mkScan peer endpoint pubkey (unresolvedEndpoints s))
     else
       key <-- wrapErr ErrParseKey (wgtypes.ParseKey pubkey) ;;
       Ok (mkScan peer [] [] (<[key := endpoint]> (unresolvedEndpoints s)))).
Proof.
  intros Hst Hs Hkv. unfold endpointsLine. rewrite Hs.
  destruct (contains_eq_not_header _ (splitKeyValue_Some_contains _ _ Hkv)) as [-> ->].
  rewrite Hst, Hkv. reflexivity.
Qed.

(** As soon as both transient fields are set, the pair is committed and
    both fields are reset. *)
Lemma endpointsLine_commit no s line lhs rhs key :
  scan_state s = peer ->
  skipped (strings.TrimSpace line) = false ->
  splitKeyValue (strings.TrimSpace line) = Some (lhs, rhs) ->
  let pubkey := if lhs == "PublicKey" then rhs else scan_pubkey s in
  let endpoint := if lhs == "Endpoint" then rhs else scan_endpoint s in
  pubkey <> [] -> endpoint <> [] ->
  wgtypes.ParseKey pubkey = Ok key ->
  endpointsLine no s line
  = Ok (mkScan peer [] [] (<[key := endpoint]> (unresolvedEndpoints s))).
Proof.
  intros Hst Hs Hkv pubkey endpoint Hp He Hkey.
  rewrite (endpointsLine_key_value no s line lhs rhs Hst Hs Hkv).
  fold pubkey endpoint. cbv zeta.
  apply gostring_eqb_neq in Hp, He.
  change (String.list_ascii_of_string "") with (@nil ascii).
  rewrite Hp, He, Hkey. reflexivity.
Qed.

Lemma endpointsLine_kvLine no s key value :
  scan_state s = peer -> isKeyName key = true -> trimmed value = true ->
  endpointsLine no s (kvLine key value)
  = (let pubkey := if key == "PublicKey" then value else scan_pubkey s in
     let endpoint := if key == "Endpoint" then value else scan_endpoint s in
     if (pubkey == "") || (endpoint == "") then
       Ok (mkScan peer endpoint pubkey (unresolvedEndpoints s))
     else
       key <-- wrapErr ErrParseKey (wgtypes.ParseKey pubkey) ;;
       Ok (mkScan peer [] [] (<[key := endpoint]> (unresolvedEndpoints s)))).
Proof.
  intros Hst Hk Hv. destruct (kvLine_scan key value Hk Hv) as (Ht & Hs & Hkv).
  apply endpointsLine_key_value; rewrite ?Ht; auto.
Qed.

(** C7. Two [[Peer]] blocks, the first with [PublicKey = K1] and
    [Endpoint = host1:51820], the second with [PublicKey = K2] and no
    endpoint: the extractor returns exactly the mapping of the key parsed
    from [K1] to ["host1:51820"].  And in general, on the line of a peer
    block that makes both the public key and the endpoint non-empty, the
    pair is committed under the parsed key and both transient fields are
    reset. *)
Theorem extract_two_peers (name K1 K2 : gostring) (k1 : wgtypes.Key) :
  ReadFile (confPath name) = Ok (twoPeers K1 K2) ->
  token K1 = true -> token K2 = true ->
  wgtypes.ParseKey K1 = Ok k1 ->
  GetUnresolvedEndpoints name = Ok {[ k1 := "host1:51820" : gostring ]}
  /\ forall no s line lhs rhs key,
       scan_state s = peer ->
       skipped (strings.TrimSpace line) = false ->
       splitKeyValue (strings.TrimSpace line) = Some (lhs, rhs) ->
       let pubkey := if lhs == "PublicKey" then rhs else scan_pubkey s in
       let endpoint := if lhs == "Endpoint" then rhs else scan_endpoint s in
       pubkey <> [] -> endpoint <> [] ->
       wgtypes.ParseKey pubkey = Ok key ->
       endpointsLine no s line
       = Ok (mkScan peer [] [] (<[key := endpoint]> (unresolvedEndpoints s))).
Proof.
  intros Hfile HK1 HK2 Hkey. split; [|apply endpointsLine_commit].
  unfold GetUnresolvedEndpoints. rewrite Hfile.
  unfold extractEndpoints, twoPeers, nl.
  rewrite Split_Join.
  2: discriminate.
  2: { cbn [forallb]. rewrite !contains_kvLine.
       apply token_oneLine in HK1, HK2. unfold oneLine in HK1, HK2.
       apply andb_prop in HK1 as [_ HK1]. apply andb_prop in HK2 as [_ HK2].
       apply negb_true_iff in HK1, HK2. rewrite HK1, HK2. reflexivity. }
  assert (HK1ne : (K1 == "") = false).
  { apply gostring_eqb_neq. intros ->. discriminate. }
  cbn [endpointsLines].
  rewrite endpointsLine_Peer. cbn [bind].
  rewrite endpointsLine_kvLine by (auto using token_trimmed).
  eval_eqb. cbn [scan_endpoint scan_pubkey unresolvedEndpoints].
  rewrite HK1ne. eval_eqb. cbn [orb bind].
  rewrite endpointsLine_kvLine by (auto using token_trimmed).
  eval_eqb. cbn [scan_endpoint scan_pubkey unresolvedEndpoints].
  rewrite HK1ne. eval_eqb. cbn [orb]. rewrite Hkey. cbn [wrapErr bind].
  rewrite endpointsLine_blank. cbn [bind].
  rewrite endpointsLine_Peer. cbn [bind unresolvedEndpoints].
  rewrite endpointsLine_kvLine by (auto using token_trimmed).
  eval_eqb. cbn [scan_endpoint scan_pubkey unresolvedEndpoints orb].
  rewrite orb_true_r. cbn [bind].
  rewrite endpointsLine_blank. cbn [bind unresolvedEndpoints].
  rewrite insert_empty. reflexivity.
Qed.

End Extractor.

Section ScannerClaims.

Context {net : NetLib} {provider : Provider}.

(** C8. In a line whose first ['='] comes after [k] and before [v] (so
    [v] may hold more of them), splitting on every ['='] and joining the
    tail again gives [v] back; the decoder's key is [k] trimmed and its
    value is [v] trimmed, whatever [v] holds, and that pair is what the
    grammar of the current section receives.  A value that ends in ['=']
    padding therefore arrives whole. *)
Theorem value_after_first_equals (k v : gostring) :
  contains "=" k = false ->
  strings.Join (tl (strings.Split (k ++ "="%char :: v) "=")) "=" = v
  /\ splitKeyValue (k ++ "="%char :: v)
     = Some (strings.TrimSpace k, strings.TrimSpace v)
  /\ forall no state cfg line,
       strings.TrimSpace line = k ++ "="%char :: v ->
       skipped (k ++ "="%char :: v) = false ->
       unmarshalLine no state cfg line
       = dispatchLine no state cfg (strings.TrimSpace k) (strings.TrimSpace v).
Proof.
  intros Hk. split; [|split].
  - rewrite (Split_app_sep k "=" v Hk). simpl tl.
    change (String.list_ascii_of_string "=") with ["="%char].
    apply Join_Split.
  - apply splitKeyValue_first_eq, Hk.
  - intros no state cfg line Hline Hs.
    apply unmarshalLine_key_value; rewrite Hline; [exact Hs|].
    apply splitKeyValue_first_eq, Hk.
Qed.

(** C5, on the code: the line without ['='] is the first line of the text
    (and the second line of a peer block for the extractor), and the error
    carries 0 (and 1): the index of the line counted from 0, one less than
    its 1-based number.  The errors of the section grammars, one statement
    further down in the same loop, carry the 1-based number. *)
Theorem missing_eq_carries_zero_based_index :
  UnmarshalText "foo" = Err (ErrMissingEq 0)
  /\ extractEndpoints ("[Peer]" ++ nl ++ "foo") = Err (ErrMissingEq 1)
  /\ UnmarshalText ("[Interface]" ++ nl ++ "Foo = bar")
     = Err (ErrLine 2 (ErrUnknownDirective "Foo")).
Proof. repeat split; reflexivity. Qed.



End ScannerClaims.


(** C4, on the code: ["QUJD"] is valid base64 for the three bytes
    ["ABC"]; [ParseKey] returns a key (those bytes, then 29 zero bytes)
    and no error, where [wgtypes.ParseKey], which the endpoint extractor
    calls, rejects the same input for its size. *)
Theorem ParseKey_accepts_short_input :
  base64.DecodeString "QUJD" = Ok ("ABC" : gostring)
  /\ ParseKey "QUJD" = Ok ("ABC" ++ replicate 29 "000"%char)
  /\ wgtypes.ParseKey "QUJD" = Err (ErrKeySize 3).
Proof. repeat split; reflexivity. Qed.

(** ** strings.HasPrefix, strings.HasSuffix, strings.LastIndex *)

Lemma HasPrefix_app p t : strings.HasPrefix (p ++ t) p = true.
Proof.
  induction p as [|c p IH]; [destruct t; reflexivity|].
  simpl. rewrite Ascii.eqb_refl. exact IH.
Qed.

Lemma HasPrefix_inv s p : strings.HasPrefix s p = true -> exists t, s = p ++ t.
Proof.
  revert s. induction p as [|c p IH]; intros s H.
  - exists s. reflexivity.
  - destruct s as [|d s]; [discriminate|]. simpl in H.
    apply andb_prop in H as [Hc Hp]. apply Ascii.eqb_eq in Hc as ->.
    destruct (IH s Hp) as [t ->]. exists t. reflexivity.
Qed.

Lemma HasSuffix_app s p : strings.HasSuffix (s ++ p) p = true.
Proof.
  unfold strings.HasSuffix. rewrite rev_app_distr. apply HasPrefix_app.
Qed.

(** A result of [lastIndexFrom] other than -1 is the index of an
    occurrence. *)
Lemma lastIndexFrom_sound s : forall i sub,
  (0 <= i)%Z -> strings.lastIndexFrom i s sub <> (-1)%Z ->
  exists n, n <= length s
    /\ strings.lastIndexFrom i s sub = (i + Z.of_nat n)%Z
    /\ strings.HasPrefix (drop n s) sub = true.
Proof.
  induction s as [|c s IH]; intros i sub Hi Hr.
  - destruct sub as [|d sub]; [|contradiction].
    exists 0. repeat split; [simpl; lia|simpl; lia].
  - cbn [strings.lastIndexFrom] in Hr |- *.
    destruct (0 <=? strings.lastIndexFrom (i + 1) s sub)%Z eqn:El.
    + apply Z.leb_le in El.
      destruct (IH (i + 1)%Z sub) as (n & Hn & Heq & Hp); [lia|lia|].
      exists (S n). repeat split; [simpl; lia|lia|exact Hp].
    + destruct (strings.HasPrefix (c :: s) sub) eqn:E; [|contradiction].
      exists 0. repeat split; [lia|lia|exact E].
Qed.

(** No occurrence lies after the result of [lastIndexFrom]. *)
Lemma lastIndexFrom_max s : forall i sub n,
  (0 <= i)%Z -> n <= length s -> strings.HasPrefix (drop n s) sub = true ->
  (i + Z.of_nat n <= strings.lastIndexFrom i s sub)%Z.
Proof.
  induction s as [|c s IH]; intros i sub n Hi Hn Hp.
  - simpl in Hn. assert (n = 0) as -> by lia.
    destruct sub; [simpl; lia|discriminate].
  - cbn [strings.lastIndexFrom]. destruct n as [|n].
    + change (drop 0 (c :: s)) with (c :: s) in Hp. rewrite Hp.
      destruct (0 <=? strings.lastIndexFrom (i + 1) s sub)%Z eqn:El; [|lia].
      apply Z.leb_le in El.
      destruct (lastIndexFrom_sound s (i + 1)%Z sub) as (m & _ & Heq & _); lia.
    + simpl in Hn. change (drop (S n) (c :: s)) with (drop n s) in Hp.
      specialize (IH (i + 1)%Z sub n).
      assert (i + 1 + Z.of_nat n <= strings.lastIndexFrom (i + 1) s sub)%Z as Hle
        by (apply IH; [lia|lia|exact Hp]).
      destruct (0 <=? strings.lastIndexFrom (i + 1) s sub)%Z eqn:El.
      * lia.
      * apply Z.leb_gt in El. lia.
Qed.

Lemma HasPrefix_length s p : strings.HasPrefix s p = true -> length p <= length s.
Proof.
  intros H. destruct (HasPrefix_inv s p H) as [t ->]. rewrite length_app. lia.
Qed.

(** The test of [MatchConfig] on a name: at least six bytes, the last
    five being [.conf]. *)
Lemma isConfName_spec (file : gostring) :
  isConfName file = true
  <-> (6 <= len file)%Z /\ exists k, file = k ++ ".conf".
Proof.
  unfold isConfName, len. rewrite negb_true_iff, orb_false_iff, negb_false_iff.
  rewrite Z.ltb_ge, Z.eqb_eq. unfold strings.LastIndex. split.
  - intros [Hlen Hidx]. split; [exact Hlen|].
    destruct (lastIndexFrom_sound file 0 ".conf") as (n & Hn & Heq & Hp);
      [lia|lia|].
    assert (n = length file - 5) as -> by lia.
    destruct (HasPrefix_inv _ _ Hp) as [t Ht].
    assert (t = []) as ->.
    { apply (f_equal (@length ascii)) in Ht.
      rewrite length_drop, length_app in Ht. simpl in Ht.
      destruct t; [reflexivity|simpl in Ht; lia]. }
    exists (take (length file - 5) file).
    rewrite app_nil_r in Ht. rewrite <- Ht. symmetry. apply take_drop.
  - intros [Hlen [k ->]]. split; [exact Hlen|].
    rewrite length_app in *. simpl length in *.
    assert (Hocc : strings.HasPrefix (drop (length k) (k ++ ".conf")) ".conf" = true).
    { rewrite drop_app_length. reflexivity. }
    pose proof (lastIndexFrom_max (k ++ ".conf") 0 ".conf" (length k)) as Hmax.
    rewrite length_app in Hmax. specialize (Hmax ltac:(lia) ltac:(lia) Hocc).
    destruct (lastIndexFrom_sound (k ++ ".conf") 0 ".conf") as (n & Hn & Heq & Hp);
      [lia|lia|].
    apply HasPrefix_length in Hp. rewrite length_drop, length_app in Hp.
    simpl length in Hp. lia.
Qed.

Lemma baseName_conf (k : gostring) : baseName (k ++ ".conf") = k.
Proof.
  unfold baseName. rewrite length_app. simpl length.
  replace (length k + 5 - 5) with (length k) by lia.
  apply take_app_length.
Qed.

(** ** The configuration store *)

Section Store.

Context {net : NetLib} {provider : Provider}.

Lemma matchFiles_keys pattern files : forall cfgs m,
  matchFiles pattern files cfgs = Returns m ->
  forall k, is_Some (m !! k) <-> is_Some (cfgs !! k) \/ selected pattern files k.
Proof.
  induction files as [|file files IH]; intros cfgs m H k.
  - simpl in H. injection H as <-. split; [auto|].
    intros [Hk|(f & [] & _)]. exact Hk.
  - simpl in H.
    assert (Hskip : forall kk, ~ (isConfName file = true /\ file = kk ++ ".conf"
                           /\ regexp_Match pattern kk = Ok true) ->
              (selected pattern (file :: files) kk <-> selected pattern files kk)).
    { intros kk Hno. split.
      - intros (f & [<-|Hin] & Hlen & Hf & Hm).
        + exfalso. apply Hno. repeat split; auto.
          apply isConfName_spec. split; [exact Hlen|]. exists kk. exact Hf.
        + exists f. auto.
      - intros (f & Hin & Hrest). exists f. split; [right; exact Hin|exact Hrest]. }
    destruct (isConfName file) eqn:Econf; simpl in H.
    2: { rewrite (IH _ _ H k), Hskip; [reflexivity|]. intros [? _]. discriminate. }
    destruct (proj1 (isConfName_spec file) Econf) as [Hlen [b Hb]].
    rewrite Hb, baseName_conf in H.
    destruct (regexp_Match pattern b) as [[|]|e] eqn:Em; try discriminate.
    2: { rewrite (IH _ _ H k), Hskip; [reflexivity|].
         intros (_ & Hf & Hm). rewrite Hb in Hf.
         apply app_inv_tail in Hf. subst. congruence. }
    destruct (ReadFile _) as [text|e]; [|discriminate].
    destruct (UnmarshalText text) as [c|e]; [|discriminate].
    rewrite (IH _ _ H k). rewrite lookup_insert_is_Some.
    split.
    + intros [[<-|[Hne Hk]]|Hsel].
      * right. exists file. repeat split; auto. left. reflexivity.
      * left. exact Hk.
      * right. destruct Hsel as (f & Hin & Hrest). exists f. split; [right; auto|auto].
    + intros [Hk|(f & [<-|Hin] & Hl & Hf & Hm)].
      * destruct (decide (b = k)) as [->|Hne]; left; [left; reflexivity|right; auto].
      * left. left. rewrite Hb in Hf. apply app_inv_tail in Hf. exact Hf.
      * right. exists f. auto.
Qed.

Lemma anchored_prefix pattern : strings.HasPrefix (anchored pattern) "^" = true.
Proof.
  unfold anchored.
  destruct (strings.HasPrefix pattern "^") eqn:E.
  - destruct (strings.HasSuffix pattern "$"); [exact E|].
    destruct (HasPrefix_inv _ _ E) as [t ->].
    rewrite <- app_assoc. apply HasPrefix_app.
  - destruct (strings.HasSuffix _ "$"); [apply HasPrefix_app|].
    rewrite <- app_assoc. apply HasPrefix_app.
Qed.

Lemma anchored_suffix pattern : strings.HasSuffix (anchored pattern) "$" = true.
Proof.
  unfold anchored. cbv zeta.
  set (p := if strings.HasPrefix pattern "^" then pattern else "^" ++ pattern).
  destruct (strings.HasSuffix p "$") eqn:E; [exact E|].
  apply HasSuffix_app.
Qed.

(** C9. [MatchConfig] looks only at names of at least six bytes that end
    in [.conf]; when it returns, the keys of its mapping are exactly the
    names, with [.conf] removed, of those entries of the directory whose
    shortened name the pattern matches, the pattern being given a leading
    [^] and a trailing [$] when it has none. *)
Theorem MatchConfig_keys (pattern : gostring) (files : list gostring)
  (m : gmap gostring Config) :
  ReadDir = Ok files ->
  MatchConfig pattern = Returns m ->
  (forall file, isConfName file = true
                <-> (6 <= len file)%Z /\ exists k, file = k ++ ".conf")
  /\ (forall k, is_Some (m !! k)
                <-> exists file, In file files
                      /\ (6 <= len file)%Z /\ file = k ++ ".conf"
                      /\ regexp_Match (anchored pattern) k = Ok true)
  /\ strings.HasPrefix (anchored pattern) "^" = true
  /\ strings.HasSuffix (anchored pattern) "$" = true
  /\ (strings.HasPrefix pattern "^" = true ->
      strings.HasSuffix pattern "$" = true -> anchored pattern = pattern).
Proof.
  intros Hdir Hm. unfold MatchConfig in Hm. rewrite Hdir in Hm.
  split; [apply isConfName_spec|].
  split; [|split; [apply anchored_prefix|split; [apply anchored_suffix|]]].
  - intros k. rewrite (matchFiles_keys _ _ _ _ Hm k), lookup_empty.
    unfold selected. split; [intros [[? ?]|H]; [discriminate|exact H]|auto].
  - intros Hp Hs. unfold anchored. rewrite Hp, Hs. reflexivity.
Qed.

End Store.

(** ** Duplicate preshared keys *)

Section Preshared.

Context {net : NetLib} {provider : Provider}.

Lemma parsePeerLine_PresharedKey p rhs :
  parsePeerLine p "PresharedKey" rhs
  = (key <-- wrapErr ErrDecodeKey (ParseKey rhs) ;;
     match PresharedKey p with
     | Some _ => Err ErrPresharedDefined
     | None => Ok (set_PresharedKey (Some key) p)
     end).
Proof. reflexivity. Qed.









End Preshared.

(** ** strconv: printing and parsing integers *)

Section Decimal.

Local Open Scope Z_scope.

Lemma digit_cases d : 0 <= d <= 9 ->
  d = 0 \/ d = 1 \/ d = 2 \/ d = 3 \/ d = 4 \/ d = 5 \/ d = 6 \/ d = 7
  \/ d = 8 \/ d = 9.
Proof. lia. Qed.

Lemma digitChar_props d : 0 <= d <= 9 ->
  strconv.digitVal (strconv.digitChar d) = d
  /\ strconv.isDigit (strconv.digitChar d) = true
  /\ graphic (strconv.digitChar d) = true.
Proof.
  intros H. destruct (digit_cases d H) as [E|[E|[E|[E|[E|[E|[E|[E|[E|E]]]]]]]]];
    subst d; repeat split; reflexivity.
Qed.

Lemma valueOf_app n a b : valueOf n (a ++ b) = valueOf (valueOf n a) b.
Proof. unfold valueOf. apply fold_left_app. Qed.

Lemma isDigit_digitVal c : strconv.isDigit c = true -> 0 <= strconv.digitVal c <= 9.
Proof.
  unfold strconv.isDigit, strconv.digitVal. intros H.
  apply andb_prop in H as [H1 H2]. apply N.leb_le in H1. apply N.leb_le in H2.
  lia.
Qed.

Lemma valueOf_ge s : forall n,
  forallb strconv.isDigit s = true -> 0 <= n -> n <= valueOf n s.
Proof.
  induction s as [|c s IH]; intros n Hs Hn; [simpl; lia|].
  simpl in Hs. apply andb_prop in Hs as [Hc Hs].
  pose proof (isDigit_digitVal c Hc).
  change (valueOf n (c :: s)) with (valueOf (n * 10 + strconv.digitVal c) s).
  specialize (IH (n * 10 + strconv.digitVal c) Hs). lia.
Qed.

(** The digit loop computes the value of the digits, as long as that
    fits 64 bits. *)
Lemma parseDigits_value s : forall n,
  forallb strconv.isDigit s = true -> 0 <= n ->
  valueOf n s <= strconv.maxUint64 ->
  strconv.parseDigits n s = Ok (valueOf n s).
Proof.
  induction s as [|c s IH]; intros n Hs Hn Hmax; [reflexivity|].
  simpl in Hs. apply andb_prop in Hs as [Hc Hs].
  pose proof (isDigit_digitVal c Hc) as Hd.
  change (valueOf n (c :: s)) with (valueOf (n * 10 + strconv.digitVal c) s) in *.
  pose proof (valueOf_ge s (n * 10 + strconv.digitVal c) Hs ltac:(lia)) as Hge.
  cbn [strconv.parseDigits]. rewrite Hc. cbv zeta.
  replace (strconv.maxUint64 <? n * 10 + strconv.digitVal c) with false
    by (symmetry; apply Z.ltb_ge; lia).
  apply IH; [exact Hs|lia|exact Hmax].
Qed.

(** [formatBits] writes digits, at least one, whose value is [u]. *)
Lemma formatBits_spec fuel : forall u acc,
  fuel <> 0%nat -> 0 <= u < 10 ^ Z.of_nat fuel ->
  exists ds, strconv.formatBits fuel u acc = ds ++ acc
    /\ ds <> []
    /\ forallb strconv.isDigit ds = true
    /\ forallb graphic ds = true
    /\ forall n, valueOf n ds = n * 10 ^ Z.of_nat (length ds) + u.
Proof.
  induction fuel as [|fuel IH]; intros u acc Hf Hu; [contradiction|].
  cbn [strconv.formatBits]. destruct (u <? 10) eqn:E.
  - apply Z.ltb_lt in E.
    destruct (digitChar_props u ltac:(lia)) as (Hv & Hd & Hg).
    exists [strconv.digitChar u]. repeat split.
    + discriminate.
    + simpl. rewrite Hd. reflexivity.
    + simpl. rewrite Hg. reflexivity.
    + intros n. unfold valueOf. simpl. rewrite Hv. lia.
  - apply Z.ltb_ge in E.
    assert (Hq : 0 <= u / 10 < 10 ^ Z.of_nat fuel).
    { rewrite Nat2Z.inj_succ, Z.pow_succ_r in Hu by lia.
      split; [apply Z.div_pos; lia|apply Z.div_lt_upper_bound; lia]. }
    assert (Hfuel : fuel <> 0%nat).
    { intros ->. simpl in Hq. assert (1 <= u / 10) by (apply Z.div_le_lower_bound; lia). lia. }
    destruct (digitChar_props (u mod 10)) as (Hv & Hd & Hg).
    { pose proof (Z.mod_pos_bound u 10). lia. }
    destruct (IH (u / 10) (strconv.digitChar (u mod 10) :: acc) Hfuel Hq)
      as (ds & Heq & Hne & Hds & Hgs & Hval).
    exists (ds ++ [strconv.digitChar (u mod 10)]). repeat split.
    + rewrite Heq, <- app_assoc. reflexivity.
    + destruct ds; discriminate.
    + rewrite forallb_app, Hds. simpl. rewrite Hd. reflexivity.
    + rewrite forallb_app, Hgs. simpl. rewrite Hg. reflexivity.
    + intros n. rewrite valueOf_app, Hval, length_app.
      unfold valueOf at 1. simpl fold_left. rewrite Hv.
      rewrite Nat2Z.inj_add. simpl Z.of_nat. rewrite Z.pow_add_r by lia.
      pose proof (Z.div_mod u 10). lia.
Qed.

Lemma formatBits_20 u : 0 <= u <= 2 ^ 63 ->
  exists c ds, strconv.formatBits 20 u [] = c :: ds
    /\ strconv.isDigit c = true
    /\ forallb strconv.isDigit ds = true
    /\ forallb graphic (c :: ds) = true
    /\ valueOf 0 (c :: ds) = u.
Proof.
  intros Hu.
  destruct (formatBits_spec 20 u []) as (ds & Heq & Hne & Hds & Hgs & Hval).
  { discriminate. }
  { change (10 ^ Z.of_nat 20) with 100000000000000000000.
    change (2 ^ 63) with 9223372036854775808 in Hu. lia. }
  rewrite app_nil_r in Heq. destruct ds as [|c ds]; [contradiction|].
  simpl in Hds. apply andb_prop in Hds as [Hc Hds].
  exists c, ds. repeat split; auto; try (rewrite Hval; lia).
Qed.

Lemma isDigit_not_sign c :
  strconv.isDigit c = true -> Ascii.eqb c "-" = false /\ Ascii.eqb c "+" = false.
Proof.
  intros H. split; apply Ascii.eqb_neq; intros ->; discriminate.
Qed.

(** What [FormatInt] prints, [ParseInt] reads back. *)
Lemma ParseInt_FormatInt z :
  int64 z -> strconv.ParseInt (strconv.FormatInt z) = Ok z.
Proof.
  unfold int64, strconv.FormatInt. intros Hz.
  change (2 ^ 63) with 9223372036854775808 in Hz.
  destruct (z <? 0) eqn:E.
  - apply Z.ltb_lt in E.
    destruct (formatBits_20 (- z)) as (c & ds & Heq & Hc & Hds & _ & Hval).
    { change (2 ^ 63) with 9223372036854775808. lia. }
    rewrite Heq. unfold strconv.ParseInt.
    change (Ascii.eqb "-" "-") with true. change (Ascii.eqb "-" "+") with false.
    cbn [orb]. unfold strconv.ParseUint.
    rewrite parseDigits_value.
    + rewrite Hval. cbn [bind negb andb].
      change (2 ^ 63) with 9223372036854775808.
      replace (9223372036854775808 <? - z) with false
        by (symmetry; apply Z.ltb_ge; lia).
      f_equal. lia.
    + simpl. rewrite Hc, Hds. reflexivity.
    + lia.
    + rewrite Hval. unfold strconv.maxUint64.
      change (2 ^ 64) with 18446744073709551616. lia.
  - apply Z.ltb_ge in E.
    destruct (formatBits_20 z) as (c & ds & Heq & Hc & Hds & _ & Hval).
    { change (2 ^ 63) with 9223372036854775808. lia. }
    rewrite Heq. unfold strconv.ParseInt.
    destruct (isDigit_not_sign c Hc) as [-> ->].
    cbn [orb]. unfold strconv.ParseUint.
    rewrite parseDigits_value.
    + rewrite Hval. cbn [bind negb andb].
      change (2 ^ 63) with 9223372036854775808.
      replace (9223372036854775808 <=? z) with false
        by (symmetry; apply Z.leb_gt; lia).
      reflexivity.
    + simpl. rewrite Hc, Hds. reflexivity.
    + lia.
    + rewrite Hval. unfold strconv.maxUint64.
      change (2 ^ 64) with 18446744073709551616. lia.
Qed.

Lemma FormatInt_token z : int64 z -> token (strconv.FormatInt z) = true.
Proof.
  unfold int64, strconv.FormatInt. intros Hz.
  change (2 ^ 63) with 9223372036854775808 in Hz.
  destruct (z <? 0) eqn:E.
  - apply Z.ltb_lt in E.
    destruct (formatBits_20 (- z)) as (c & ds & Heq & _ & _ & Hg & _).
    { change (2 ^ 63) with 9223372036854775808. lia. }
    rewrite Heq. unfold token. cbn [nonEmpty andb forallb]. 
    change (graphic "-") with true. exact Hg.
  - apply Z.ltb_ge in E.
    destruct (formatBits_20 z) as (c & ds & Heq & _ & _ & Hg & _).
    { change (2 ^ 63) with 9223372036854775808. lia. }
    rewrite Heq. unfold token. cbn [nonEmpty andb]. exact Hg.
Qed.

Lemma lowerByte_digit c : strconv.isDigit c = true -> strings.lowerByte c = c.
Proof.
  unfold strconv.isDigit, strings.lowerByte. intros H.
  apply andb_prop in H as [H1 H2]. apply N.leb_le in H1. apply N.leb_le in H2.
  replace (65 <=? strings.byte c)%N with false; [reflexivity|].
  symmetry. apply N.leb_gt. lia.
Qed.

(** A number is not the word [off]. *)
Lemma FormatInt_not_off z :
  int64 z -> (strings.ToLower (strconv.FormatInt z) == "off") = false.
Proof.
  unfold int64, strconv.FormatInt. intros Hz.
  change (2 ^ 63) with 9223372036854775808 in Hz.
  apply gostring_eqb_neq.
  destruct (z <? 0) eqn:E.
  - discriminate.
  - apply Z.ltb_ge in E.
    destruct (formatBits_20 z) as (c & ds & Heq & Hc & _).
    { change (2 ^ 63) with 9223372036854775808. lia. }
    rewrite Heq. unfold strings.ToLower. cbn [map].
    rewrite (lowerByte_digit c Hc). intros H. injection H as -> _.
    discriminate.
Qed.

Lemma wrap64_int64 z : int64 z -> wrap64 z = z.
Proof.
  unfold int64, wrap64. intros H.
  change (2 ^ 63) with 9223372036854775808 in *.
  change (2 ^ 64) with 18446744073709551616.
  rewrite Z.mod_small by lia. lia.
Qed.

End Decimal.

(** ** encoding/base64: decoding what was encoded *)

Section Base64.

Local Open Scope Z_scope.

Lemma lor_shiftl_add a b k :
  0 <= k -> 0 <= a -> 0 <= b < 2 ^ k -> Z.lor (Z.shiftl a k) b = a * 2 ^ k + b.
Proof.
  intros Hk Ha Hb.
  rewrite Z.shiftl_mul_pow2 by lia.
  rewrite <- Z.lxor_lor, <- Z.add_nocarry_lxor; try reflexivity.
  all: apply Z.bits_inj'; intros n Hn; rewrite Z.land_spec, Z.bits_0.
  all: destruct (Z.lt_ge_cases n k) as [Hlt|Hge].
  all: try (rewrite Z.mul_pow2_bits_low by lia; reflexivity).
  all: destruct (Z.eq_dec b 0) as [->|Hnz]; [rewrite Z.bits_0; apply andb_false_r|].
  all: rewrite (Z.bits_above_log2 b n); [apply andb_false_r|lia|].
  all: apply Z.log2_lt_pow2; [lia|].
  all: apply Z.lt_le_trans with (2 ^ k); [lia|apply Z.pow_le_mono_r; lia].
Qed.

(** Bits that do not overlap: [lor] is addition. *)
Lemma lor_add_disjoint k a b :
  0 <= k -> 0 <= a -> a mod 2 ^ k = 0 -> 0 <= b < 2 ^ k -> Z.lor a b = a + b.
Proof.
  intros Hk Ha Hm Hb.
  assert (E : a = Z.shiftl (a / 2 ^ k) k).
  { rewrite Z.shiftl_mul_pow2 by lia.
    pose proof (Z.div_mod a (2 ^ k)). lia. }
  rewrite E at 1. rewrite lor_shiftl_add; try lia.
  - pose proof (Z.div_mod a (2 ^ k)). lia.
  - apply Z.div_pos; lia.
Qed.

Ltac arith := cbv beta; Z.div_mod_to_equations; lia.

Ltac bits_to_arith :=
  change 63 with (Z.ones 6); change 255 with (Z.ones 8);
  repeat rewrite Z.land_ones by lia;
  repeat rewrite Z.shiftr_div_pow2 by lia;
  repeat rewrite Z.shiftl_mul_pow2 by lia;
  change (2 ^ 0) with 1 in *;
  change (2 ^ 6) with 64 in *; change (2 ^ 8) with 256 in *;
  change (2 ^ 12) with 4096 in *; change (2 ^ 16) with 65536 in *;
  change (2 ^ 18) with 262144 in *; change (2 ^ 24) with 16777216 in *.

(** The four 6-bit groups of a 24-bit value put it together again. *)
Lemma recombine val : 0 <= val < 2 ^ 24 ->
  Z.lor (Z.lor (Z.lor (Z.shiftl (Z.land (Z.shiftr val 18) 63) 18)
                      (Z.shiftl (Z.land (Z.shiftr val 12) 63) 12))
               (Z.shiftl (Z.land (Z.shiftr val 6) 63) 6))
        (Z.land (Z.shiftr val 0) 63) = val.
Proof.
  intros H. bits_to_arith.
  rewrite (lor_add_disjoint 18 (_ * 262144) (_ * 4096))
    by (change (2 ^ 18) with 262144; arith).
  rewrite (lor_add_disjoint 12 (_ + _) (_ * 64))
    by (change (2 ^ 12) with 4096; arith).
  rewrite (lor_add_disjoint 6) by (change (2 ^ 6) with 64; arith).
  arith.
Qed.

Lemma pack3 b0 b1 b2 : 0 <= b0 < 256 -> 0 <= b1 < 256 -> 0 <= b2 < 256 ->
  Z.lor (Z.lor (Z.shiftl b0 16) (Z.shiftl b1 8)) b2 = b0 * 65536 + b1 * 256 + b2.
Proof.
  intros. bits_to_arith.
  rewrite (lor_add_disjoint 16 (_ * 65536) (_ * 256))
    by (change (2 ^ 16) with 65536; arith).
  rewrite (lor_add_disjoint 8) by (change (2 ^ 8) with 256; arith).
  reflexivity.
Qed.

Lemma pack2 b0 b1 : 0 <= b0 < 256 -> 0 <= b1 < 256 ->
  Z.lor (Z.shiftl b0 16) (Z.shiftl b1 8) = b0 * 65536 + b1 * 256.
Proof.
  intros. bits_to_arith.
  rewrite (lor_add_disjoint 16) by (change (2 ^ 16) with 65536; arith).
  reflexivity.
Qed.

Lemma byteVal_range c : 0 <= base64.byteVal c < 256.
Proof.
  unfold base64.byteVal. pose proof (N_ascii_bounded c). lia.
Qed.

Lemma toByte_low x b : 0 <= b < 256 -> x mod 256 = b ->
  base64.toByte x = ascii_of_N (Z.to_N b).
Proof.
  intros Hb Hx. unfold base64.toByte.
  change 255 with (Z.ones 8). rewrite Z.land_ones by lia.
  change (2 ^ 8) with 256. rewrite Hx. reflexivity.
Qed.

Lemma ascii_of_byteVal c : ascii_of_N (Z.to_N (base64.byteVal c)) = c.
Proof.
  unfold base64.byteVal. rewrite N2Z.id. apply ascii_N_embedding.
Qed.

Lemma sextet_range val k : 0 <= Z.land (Z.shiftr val k) 63 < 64.
Proof.
  change 63 with (Z.ones 6). rewrite Z.land_ones by lia.
  apply Z.mod_pos_bound. reflexivity.
Qed.

Lemma encodeChar_props v : 0 <= v < 64 ->
  base64.decodeMap (base64.encodeChar v) = Some v
  /\ graphic (base64.encodeChar v) = true.
Proof.
  intros Hv.
  assert (Hall : forall n, (n < 64)%nat ->
            base64.decodeMap (base64.encodeChar (Z.of_nat n)) = Some (Z.of_nat n)
            /\ graphic (base64.encodeChar (Z.of_nat n)) = true).
  { intros n Hn.
    do 64 (destruct n as [|n]; [split; reflexivity|]). lia. }
  rewrite <- (Z2Nat.id v) by lia. apply Hall. lia.
Qed.

Lemma decodeMap_sextet val k :
  base64.decodeMap (base64.sextet val k) = Some (Z.land (Z.shiftr val k) 63).
Proof. apply encodeChar_props, sextet_range. Qed.

Lemma graphic_sextet val k : graphic (base64.sextet val k) = true.
Proof. apply encodeChar_props, sextet_range. Qed.

(** A whole quantum gives its three bytes back. *)
Lemma quantumBytes_3 b0 b1 b2 :
  let val := Z.lor (Z.lor (Z.shiftl (base64.byteVal b0) 16)
                          (Z.shiftl (base64.byteVal b1) 8)) (base64.byteVal b2) in
  base64.quantumBytes
    [Z.land (Z.shiftr val 18) 63; Z.land (Z.shiftr val 12) 63;
     Z.land (Z.shiftr val 6) 63; Z.land (Z.shiftr val 0) 63] 4
  = [b0; b1; b2].
Proof.
  intros val. pose proof (byteVal_range b0). pose proof (byteVal_range b1).
  pose proof (byteVal_range b2).
  assert (Hval : val = base64.byteVal b0 * 65536 + base64.byteVal b1 * 256
                       + base64.byteVal b2) by (apply pack3; assumption).
  unfold base64.quantumBytes. cbn [nth]. rewrite recombine
    by (change (2 ^ 24) with 16777216; lia).
  cbn [Nat.sub take].
  rewrite (toByte_low (Z.shiftr val 16) (base64.byteVal b0)),
          (toByte_low (Z.shiftr val 8) (base64.byteVal b1)),
          (toByte_low val (base64.byteVal b2)), !ascii_of_byteVal;
    try assumption; try reflexivity.
  all: rewrite ?Z.shiftr_div_pow2 by lia;
    change (2 ^ 16) with 65536; change (2 ^ 8) with 256; arith.
Qed.

(** A quantum of three characters gives its two bytes back. *)
Lemma quantumBytes_2 b0 b1 :
  let val := Z.lor (Z.shiftl (base64.byteVal b0) 16)
                   (Z.shiftl (base64.byteVal b1) 8) in
  base64.quantumBytes
    [Z.land (Z.shiftr val 18) 63; Z.land (Z.shiftr val 12) 63;
     Z.land (Z.shiftr val 6) 63] 3
  = [b0; b1].
Proof.
  intros val. pose proof (byteVal_range b0). pose proof (byteVal_range b1).
  assert (Hval : val = base64.byteVal b0 * 65536 + base64.byteVal b1 * 256)
    by (apply pack2; assumption).
  assert (Hlow : Z.land (Z.shiftr val 0) 63 = 0) by (bits_to_arith; arith).
  pose proof (recombine val) as R. rewrite Hlow in R.
  unfold base64.quantumBytes. cbn [nth].
  rewrite R by (change (2 ^ 24) with 16777216; lia).
  cbn [Nat.sub take].
  rewrite (toByte_low (Z.shiftr val 16) (base64.byteVal b0)),
          (toByte_low (Z.shiftr val 8) (base64.byteVal b1)), !ascii_of_byteVal;
    try assumption; try reflexivity.
  all: rewrite ?Z.shiftr_div_pow2 by lia;
    change (2 ^ 16) with 65536; change (2 ^ 8) with 256; arith.
Qed.

(** A quantum of two characters gives its byte back. *)
Lemma quantumBytes_1 b0 :
  let val := Z.shiftl (base64.byteVal b0) 16 in
  base64.quantumBytes
    [Z.land (Z.shiftr val 18) 63; Z.land (Z.shiftr val 12) 63] 2
  = [b0].
Proof.
  intros val. pose proof (byteVal_range b0).
  assert (Hval : val = base64.byteVal b0 * 65536)
    by (unfold val; rewrite Z.shiftl_mul_pow2 by lia; reflexivity).
  assert (Hlow : Z.land (Z.shiftr val 0) 63 = 0) by (bits_to_arith; arith).
  assert (Hmid : Z.land (Z.shiftr val 6) 63 = 0) by (bits_to_arith; arith).
  pose proof (recombine val) as R. rewrite Hlow, Hmid in R.
  unfold base64.quantumBytes. cbn [nth].
  rewrite R by (change (2 ^ 24) with 16777216; lia).
  cbn [Nat.sub take].
  rewrite (toByte_low (Z.shiftr val 16) (base64.byteVal b0)), !ascii_of_byteVal;
    try assumption; try reflexivity.
  rewrite ?Z.shiftr_div_pow2 by lia. change (2 ^ 16) with 65536. arith.
Qed.

Lemma list_ind3 {A} (P : list A -> Prop) :
  P [] -> (forall a, P [a]) -> (forall a b, P [a; b]) ->
  (forall a b c l, P l -> P (a :: b :: c :: l)) ->
  forall l, P l.
Proof.
  intros H0 H1 H2 H3.
  fix IH 1. intros [|a [|b [|c l]]]; [exact H0|apply H1|apply H2|].
  apply H3, IH.
Qed.

Lemma decodeLoop_value c v src dbuf dst :
  base64.decodeMap c = Some v ->
  base64.decodeLoop (c :: src) dbuf dst
  = if (length dbuf =? 3)%nat
    then base64.decodeLoop src [] (dst ++ base64.quantumBytes (dbuf ++ [v]) 4)
    else base64.decodeLoop src (dbuf ++ [v]) dst.
Proof. intros H. cbn [base64.decodeLoop]. rewrite H. reflexivity. Qed.

Lemma decodeLoop_pad1 dst s0 s1 s2 :
  base64.decodeLoop [base64.padChar] [s0; s1; s2] dst
  = Ok (dst ++ base64.quantumBytes [s0; s1; s2] 3).
Proof. reflexivity. Qed.

Lemma decodeLoop_pad2 dst s0 s1 :
  base64.decodeLoop [base64.padChar; base64.padChar] [s0; s1] dst
  = Ok (dst ++ base64.quantumBytes [s0; s1] 2).
Proof. reflexivity. Qed.

Lemma decodeLoop_Encode src : forall dst,
  base64.decodeLoop (base64.Encode src) [] dst = Ok (dst ++ src).
Proof.
  induction src as [|b0|b0 b1|b0 b1 b2 src IH] using list_ind3; intros dst.
  - simpl. rewrite app_nil_r. reflexivity.
  - cbn [base64.Encode]. cbv zeta.
    rewrite !(decodeLoop_value _ _ _ _ _ (decodeMap_sextet _ _)).
    cbn [length Nat.eqb app]. rewrite decodeLoop_pad2.
    rewrite (quantumBytes_1 b0). reflexivity.
  - cbn [base64.Encode]. cbv zeta.
    rewrite !(decodeLoop_value _ _ _ _ _ (decodeMap_sextet _ _)).
    cbn [length Nat.eqb app]. rewrite decodeLoop_pad1.
    rewrite (quantumBytes_2 b0 b1). reflexivity.
  - cbn [base64.Encode]. cbv zeta.
    rewrite !(decodeLoop_value _ _ _ _ _ (decodeMap_sextet _ _)).
    cbn [length Nat.eqb app].
    rewrite (quantumBytes_3 b0 b1 b2), IH, <- app_assoc. reflexivity.
Qed.

(** [DecodeString] returns the bytes that [EncodeToString] was given. *)
Lemma DecodeString_EncodeToString src :
  base64.DecodeString (base64.EncodeToString src) = Ok src.
Proof. apply decodeLoop_Encode. Qed.

Lemma Encode_graphic src : forallb graphic (base64.Encode src) = true.
Proof.
  induction src as [|b0|b0 b1|b0 b1 b2 src IH] using list_ind3;
    cbn [base64.Encode forallb]; cbv zeta;
    rewrite ?graphic_sextet, ?IH; reflexivity.
Qed.

Lemma Encode_token src : src <> [] -> token (base64.EncodeToString src) = true.
Proof.
  intros H. unfold token, base64.EncodeToString. rewrite Encode_graphic.
  destruct src as [|b0 [|b1 [|b2 src]]]; [contradiction|reflexivity..].
Qed.

Lemma copyKey_full (k : wgtypes.Key) :
  length k = wgtypes.KeyLen -> wgtypes.copyKey k = k.
Proof.
  intros H. unfold wgtypes.copyKey. rewrite H, Nat.sub_diag.
  rewrite <- H, firstn_all. apply app_nil_r.
Qed.

(** A key of 32 bytes comes back from its base64 form. *)
Lemma ParseKey_serializeKey (k : wgtypes.Key) :
  length k = wgtypes.KeyLen -> ParseKey (serializeKey k) = Ok k.
Proof.
  intros H. unfold ParseKey, serializeKey.
  rewrite DecodeString_EncodeToString, (copyKey_full k H). reflexivity.
Qed.

Lemma serializeKey_token (k : wgtypes.Key) :
  length k = wgtypes.KeyLen -> token (serializeKey k) = true.
Proof.
  intros H. apply Encode_token. intros ->. discriminate.
Qed.

End Base64.

(** ** The text of an encoding, line by line *)

Section EncoderLines.

Context {net : NetLib} {provider : Provider}.

Lemma afterNl_app a b : afterNl (a ++ b) = afterNl a ++ afterNl b.
Proof. unfold afterNl. rewrite map_app, concat_app. reflexivity. Qed.

Lemma afterNl_nil : afterNl [] = [].
Proof. reflexivity. Qed.

Lemma afterNl_one l : afterNl [l] = nl ++ l.
Proof. unfold afterNl. cbn [map concat]. apply app_nil_r. Qed.

Lemma afterNl_cons l ls : afterNl (l :: ls) = nl ++ l ++ afterNl ls.
Proof. unfold afterNl. cbn [map concat]. rewrite <- app_assoc. reflexivity. Qed.

Lemma afterNl_concat ll : afterNl (concat ll) = concat (map afterNl ll).
Proof.
  induction ll as [|l ll IH]; [reflexivity|].
  simpl. rewrite afterNl_app, IH. reflexivity.
Qed.

Lemma afterNl_map {A} (f : A -> gostring) l :
  afterNl (map f l) = concat (map (fun a => nl ++ f a) l).
Proof. unfold afterNl. rewrite map_map. reflexivity. Qed.

Lemma optLine_lines {A} key (show : A -> gostring) v :
  optLine key show v = afterNl (optLines key show v).
Proof.
  destruct v; unfold optLine, optLines; [|reflexivity].
  rewrite afterNl_one. reflexivity.
Qed.

Lemma condLine_lines {A} key truthy (show : A -> gostring) v :
  condLine key truthy show v = afterNl (condLines key truthy show v).
Proof.
  unfold condLine, condLines. destruct (truthy v); [|reflexivity].
  rewrite afterNl_one. reflexivity.
Qed.

Lemma peerTemplate_lines p : peerTemplate p = afterNl (peerLines p).
Proof.
  unfold peerTemplate, peerLines. rewrite !afterNl_app, !optLine_lines.
  rewrite !afterNl_cons, afterNl_nil, app_nil_r. unfold kvLine.
  rewrite <- !app_assoc. reflexivity.
Qed.

(** [MarshalText] writes [[Interface]] and then [bodyLines], each after
    a newline. *)
Lemma MarshalText_lines c key :
  PrivateKey c = Some key ->
  MarshalText c = Ok ("[Interface]" ++ afterNl (bodyLines c key)).
Proof.
  intros Hk. unfold MarshalText, bodyLines, interfaceLines. rewrite Hk.
  rewrite !afterNl_app, afterNl_concat, map_map, !afterNl_map.
  rewrite <- !optLine_lines, <- !condLine_lines, afterNl_one.
  rewrite (map_ext (fun x => afterNl (peerLines x)) peerTemplate)
    by (intros p; symmetry; apply peerTemplate_lines).
  rewrite !afterNl_one. unfold kvLine.
  rewrite <- !app_assoc, app_nil_r. reflexivity.
Qed.

(** The lines of a text written that way. *)
Lemma Split_afterNl rest : forall first,
  contains "010" first = false ->
  forallb noNl rest = true ->
  strings.Split (first ++ afterNl rest) "010" = first :: rest.
Proof.
  induction rest as [|l rest IH]; intros first Hf Hrest.
  - rewrite afterNl_nil, app_nil_r. apply Split_no_sep, Hf.
  - simpl in Hrest. apply andb_prop in Hrest as [Hl Hrest].
    apply negb_true_iff in Hl.
    change (afterNl (l :: rest)) with (nl ++ l ++ afterNl rest).
    unfold nl. simpl app at 2.
    rewrite (Split_app_sep first "010" _ Hf). f_equal. apply IH; assumption.
Qed.

End EncoderLines.

(** ** Every line of an encoding is one line *)

Section OneLine.

Context {net : NetLib} {provider : Provider}.

Lemma optHolds_impl {A} (P Q : A -> Prop) v :
  (forall x, P x -> Q x) -> optHolds P v -> optHolds Q v.
Proof. intros H. destruct v; simpl; auto. Qed.

Lemma oneLine_inv s :
  oneLine s = true -> trimmed s = true /\ contains "010" s = false.
Proof.
  unfold oneLine. intros H. apply andb_prop in H as [H1 H2].
  apply negb_true_iff in H2. auto.
Qed.

Lemma noNl_kvLine key value :
  contains "010" key = false -> contains "010" value = false ->
  noNl (kvLine key value) = true.
Proof.
  intros Hk Hv. unfold noNl. rewrite contains_kvLine, Hk, Hv. reflexivity.
Qed.

Lemma noNl_optLines {A} key (show : A -> gostring) v :
  contains "010" key = false ->
  optHolds (fun x => contains "010" (show x) = false) v ->
  forallb noNl (optLines key show v) = true.
Proof.
  intros Hk Hv. destruct v as [x|]; [|reflexivity].
  simpl. rewrite noNl_kvLine; auto.
Qed.

Lemma noNl_condLines {A} key truthy (show : A -> gostring) v :
  contains "010" key = false ->
  contains "010" (show v) = false ->
  forallb noNl (condLines key truthy show v) = true.
Proof.
  intros Hk Hv. unfold condLines. destruct (truthy v); [|reflexivity].
  simpl. rewrite noNl_kvLine; auto.
Qed.

Lemma noNl_map {A} key (f : A -> gostring) (P : A -> Prop) l :
  contains "010" key = false ->
  (forall a, P a -> contains "010" (f a) = false) ->
  Forall P l ->
  forallb noNl (map (fun a => kvLine key (f a)) l) = true.
Proof.
  intros Hk Hf Hl. induction Hl as [|a l Ha Hl IH]; [reflexivity|].
  simpl. rewrite IH, noNl_kvLine; auto.
Qed.

Lemma contains_Join c sep (l : list gostring) :
  contains c sep = false ->
  Forall (fun s => contains c s = false) l ->
  contains c (strings.Join l sep) = false.
Proof.
  intros Hsep Hl. induction Hl as [|s l Hs Hl IH]; [reflexivity|].
  destruct l as [|s' l]; [exact Hs|].
  rewrite Join_cons, !contains_app, Hs, Hsep, IH. reflexivity.
Qed.

Lemma printStrings_noNl l :
  hookLines l -> contains "010" (printStrings l) = false.
Proof.
  intros H. unfold printStrings. rewrite !contains_app.
  rewrite (contains_Join "010" " " l); [reflexivity|reflexivity|exact H].
Qed.

Lemma FormatInt_noNl z : int64 z -> contains "010" (strconv.FormatInt z) = false.
Proof.
  intros H. apply oneLine_inv, token_oneLine, FormatInt_token, H.
Qed.

Lemma serializeKey_noNl k : isKey k -> contains "010" (serializeKey k) = false.
Proof.
  intros H. apply oneLine_inv, token_oneLine, serializeKey_token, H.
Qed.

(** Go's truncating division by [time.Second]. *)
Lemma toSeconds_spec d :
  (d = Second * toSeconds d + Z.rem d Second
   /\ (0 <= d -> 0 <= Z.rem d Second < Second)
   /\ (d <= 0 -> - Second < Z.rem d Second <= 0))%Z.
Proof.
  unfold toSeconds, Second. split; [apply Z.quot_rem'|]. split; intros H.
  - apply Z.rem_bound_pos_pos; lia.
  - apply Z.rem_bound_pos_neg; lia.
Qed.

Lemma toSeconds_int64 d : int64 d -> int64 (toSeconds d).
Proof.
  unfold int64. intros H. destruct (toSeconds_spec d) as (E & Hp & Hn).
  unfold Second in *. change (2 ^ 63)%Z with 9223372036854775808%Z in *.
  destruct (Z.le_ge_cases 0 d); [specialize (Hp ltac:(lia))|specialize (Hn ltac:(lia))]; lia.
Qed.

Lemma allowedIPs_noNl ips :
  Forall reparsesCIDR ips ->
  contains "010" (strings.Join (map showIPNet ips) ", ") = false.
Proof.
  intros H. apply contains_Join; [reflexivity|].
  apply Forall_map. eapply Forall_impl; [exact H|].
  intros a (Ha & _). apply oneLine_inv, Ha.
Qed.

Lemma peerLines_noNl p : printablePeer p -> forallb noNl (peerLines p) = true.
Proof.
  intros (Hpk & Hpsk & _ & Hips & Hep & Hka). unfold peerLines.
  rewrite !forallb_app. cbn [forallb].
  rewrite !noNl_kvLine, !noNl_optLines; try reflexivity.
  - eapply optHolds_impl; [|exact Hep]. intros a (Ha & _). apply oneLine_inv, Ha.
  - eapply optHolds_impl; [|exact Hka]. intros d Hd.
    apply FormatInt_noNl, toSeconds_int64, Hd.
  - eapply optHolds_impl; [|exact Hpsk]. intros k Hk. apply serializeKey_noNl, Hk.
  - apply allowedIPs_noNl, Hips.
  - apply serializeKey_noNl, Hpk.
Qed.

Lemma forallb_concat {A} (f : A -> bool) ll :
  forallb (forallb f) ll = true -> forallb f (concat ll) = true.
Proof.
  induction ll as [|l ll IH]; [reflexivity|]. simpl. intros H.
  apply andb_prop in H as [Hl Hll]. rewrite forallb_app, Hl, IH; auto.
Qed.

Lemma bodyLines_noNl c key :
  printable c -> PrivateKey c = Some key ->
  forallb noNl (bodyLines c key) = true.
Proof.
  intros ((k & Hk & Hkey) & Hlp & Hmtu & Htbl & Haddr & Hdns
          & Hpre & Hpost & Hpred & Hpostd & Hpeers) Hpk.
  rewrite Hk in Hpk. injection Hpk as <-.
  unfold bodyLines, interfaceLines. rewrite !forallb_app.
  rewrite (noNl_map "Address" showIPNet reparsesCIDR); try reflexivity; auto.
  2: { intros a (Ha & _). apply oneLine_inv, Ha. }
  rewrite (noNl_map "DNS" IP_String reparsesIP); try reflexivity; auto.
  2: { intros a (Ha & _). apply oneLine_inv, Ha. }
  cbn [forallb].
  rewrite noNl_kvLine; [|reflexivity|apply serializeKey_noNl, Hkey].
  rewrite !noNl_optLines, !noNl_condLines; try reflexivity;
    auto using printStrings_noNl, FormatInt_noNl.
  - cbn [andb]. apply andb_true_intro. split; [|reflexivity].
    apply forallb_concat.
    induction Hpeers as [|p ps Hp Hps IH]; [reflexivity|].
    cbn [map forallb]. rewrite (peerLines_noNl p Hp), IH. reflexivity.
  - destruct (SaveConfig c); reflexivity.
  - eapply optHolds_impl; [|exact Htbl]. apply FormatInt_noNl.
  - eapply optHolds_impl; [|exact Hlp]. apply FormatInt_noNl.
Qed.

End OneLine.

(** ** Decoding the lines of an encoding *)

Section DecodeLines.

Context {net : NetLib} {provider : Provider}.

Lemma unmarshalLine_inter_kv no cfg key value cfg' :
  isKeyName key = true -> trimmed value = true ->
  parseInterfaceLine cfg key value = Ok cfg' ->
  unmarshalLine no inter cfg (kvLine key value) = Ok (inter, cfg').
Proof.
  intros Hk Hv H. destruct (kvLine_scan key value Hk Hv) as (Ht & Hs & Hkv).
  rewrite (unmarshalLine_key_value no inter cfg _ key value)
    by (rewrite Ht; assumption).
  unfold dispatchLine. rewrite H. reflexivity.
Qed.

Lemma unmarshalLine_peer_kv no cfg ps p key value p' :
  isKeyName key = true -> trimmed value = true ->
  parsePeerLine p key value = Ok p' ->
  unmarshalLine no peer (set_Peers (ps ++ [p]) cfg) (kvLine key value)
  = Ok (peer, set_Peers (ps ++ [p']) cfg).
Proof.
  intros Hk Hv H. destruct (kvLine_scan key value Hk Hv) as (Ht & Hs & Hkv).
  rewrite (unmarshalLine_key_value no peer _ _ key value)
    by (rewrite Ht; assumption).
  unfold dispatchLine, parseLastPeer.
  change (Peers (set_Peers (ps ++ [p]) cfg)) with (ps ++ [p]).
  rewrite last_snoc, H. cbn [wrapErr bind]. rewrite removelast_last.
  reflexivity.
Qed.

Lemma unmarshalLines_cons no l rest st cfg st' cfg' :
  unmarshalLine no st cfg l = Ok (st', cfg') ->
  unmarshalLines no (l :: rest) st cfg = unmarshalLines (no + 1) rest st' cfg'.
Proof. intros H. cbn [unmarshalLines]. rewrite H. reflexivity. Qed.

(** *** The directives of an interface, printed by the encoder *)

Lemma parse_Address cfg a :
  reparsesCIDR a ->
  parseInterfaceLine cfg "Address" (showIPNet a)
  = Ok (set_Address (Address cfg ++ [a]) cfg).
Proof.
  intros (Hl & Hc & Hp). apply oneLine_inv in Hl as [Ht _].
  unfold parseInterfaceLine. eval_eqb.
  rewrite (Split_no_sep _ "," Hc). cbn [parseCIDRs].
  rewrite (TrimSpace_trimmed _ Ht), Hp. destruct a. reflexivity.
Qed.

Lemma parse_DNS cfg d :
  reparsesIP d ->
  parseInterfaceLine cfg "DNS" (IP_String d) = Ok (set_DNS (DNS cfg ++ [d]) cfg).
Proof.
  intros (Hl & Hc & Hp). apply oneLine_inv in Hl as [Ht _].
  unfold parseInterfaceLine. eval_eqb.
  rewrite (Split_no_sep _ "," Hc). cbn [parseIPs].
  rewrite (TrimSpace_trimmed _ Ht), Hp. reflexivity.
Qed.

Lemma parse_PrivateKey cfg k :
  isKey k ->
  parseInterfaceLine cfg "PrivateKey" (serializeKey k)
  = Ok (set_PrivateKey (Some k) cfg).
Proof.
  intros Hk. unfold parseInterfaceLine. eval_eqb.
  rewrite (ParseKey_serializeKey k Hk). reflexivity.
Qed.

Lemma parse_ListenPort cfg z :
  int64 z ->
  parseInterfaceLine cfg "ListenPort" (strconv.FormatInt z)
  = Ok (set_ListenPort (Some z) cfg).
Proof.
  intros Hz. unfold parseInterfaceLine. eval_eqb.
  rewrite (ParseInt_FormatInt z Hz). reflexivity.
Qed.

Lemma parse_MTU cfg z :
  int64 z ->
  parseInterfaceLine cfg "MTU" (strconv.FormatInt z) = Ok (set_MTU z cfg).
Proof.
  intros Hz. unfold parseInterfaceLine. eval_eqb.
  rewrite (ParseInt_FormatInt z Hz). reflexivity.
Qed.

Lemma parse_Table cfg z :
  int64 z ->
  parseInterfaceLine cfg "Table" (strconv.FormatInt z)
  = Ok (set_Table (Some z) cfg).
Proof.
  intros Hz. unfold parseInterfaceLine. eval_eqb.
  rewrite (FormatInt_not_off z Hz), (ParseInt_FormatInt z Hz). reflexivity.
Qed.

Lemma parse_SaveConfig cfg :
  parseInterfaceLine cfg "SaveConfig" (strconv.FormatBool true)
  = Ok (set_SaveConfig true cfg).
Proof. reflexivity. Qed.

(** *** The directives of a peer, printed by the encoder *)

Lemma parse_PublicKey p k :
  isKey k ->
  parsePeerLine p "PublicKey" (serializeKey k) = Ok (set_PublicKey k p).
Proof.
  intros Hk. unfold parsePeerLine. eval_eqb.
  rewrite (ParseKey_serializeKey k Hk). reflexivity.
Qed.

Lemma parse_PresharedKey p k :
  isKey k -> PresharedKey p = None ->
  parsePeerLine p "PresharedKey" (wgtypes.Key_String k)
  = Ok (set_PresharedKey (Some k) p).
Proof.
  intros Hk Hp. rewrite parsePeerLine_PresharedKey.
  change (wgtypes.Key_String k) with (serializeKey k).
  rewrite (ParseKey_serializeKey k Hk), Hp. reflexivity.
Qed.

Lemma canonDuration_int64 d : int64 d -> int64 (canonDuration d).
Proof.
  unfold int64, canonDuration. intros H.
  destruct (toSeconds_spec d) as (E & Hp & Hn).
  unfold Second in *. change (2 ^ 63)%Z with 9223372036854775808%Z in *.
  destruct (Z.le_ge_cases 0 d);
    [specialize (Hp ltac:(lia))|specialize (Hn ltac:(lia))]; lia.
Qed.

Lemma parse_PersistentKeepalive p d :
  int64 d ->
  parsePeerLine p "PersistentKeepalive" (strconv.FormatInt (toSeconds d))
  = Ok (set_PersistentKeepaliveInterval (Some (canonDuration d)) p).
Proof.
  intros Hd. unfold parsePeerLine. eval_eqb.
  rewrite (ParseInt_FormatInt _ (toSeconds_int64 d Hd)). cbn [bind].
  change (toSeconds d * Second)%Z with (canonDuration d).
  rewrite (wrap64_int64 _ (canonDuration_int64 d Hd)). reflexivity.
Qed.

Lemma parse_Endpoint p a :
  reparsesUDP a ->
  parsePeerLine p "Endpoint" (UDPAddr_String a) = Ok (set_Endpoint (Some a) p).
Proof.
  intros (_ & Ha). unfold parsePeerLine. eval_eqb. rewrite Ha. reflexivity.
Qed.

(** The pieces of a list joined with [", "]. *)
Lemma Split_Join_comma (rest : list gostring) : forall s,
  contains "," s = false ->
  Forall (fun s => contains "," s = false) rest ->
  strings.Split (strings.Join (s :: rest) ", ") ","
  = s :: map (cons " "%char) rest.
Proof.
  induction rest as [|s2 rest IH]; intros s Hs Hrest.
  - simpl. apply Split_no_sep, Hs.
  - inversion Hrest as [|? ? Hs2 Hrest']; subst.
    rewrite Join_cons.
    change (s ++ ", " ++ strings.Join (s2 :: rest) ", ")
      with (s ++ ","%char :: " "%char :: strings.Join (s2 :: rest) ", ").
    rewrite (Split_app_sep s "," _ Hs). f_equal.
    rewrite (Split_cons_other " " _ "," s2 (map (cons " "%char) rest));
      [reflexivity|reflexivity|apply IH; assumption].
Qed.

Lemma parseCIDRs_spaced wrap ips : forall acc,
  Forall reparsesCIDR ips ->
  parseCIDRs wrap (map (cons " "%char) (map showIPNet ips)) acc
  = Ok (acc ++ ips).
Proof.
  induction ips as [|a ips IH]; intros acc H.
  - simpl. rewrite app_nil_r. reflexivity.
  - inversion H as [|? ? (Hl & Hc & Hp) Hips]; subst.
    apply oneLine_inv in Hl as [Ht _].
    cbn [map parseCIDRs]. rewrite (TrimSpace_space_trimmed _ Ht), Hp.
    rewrite IH by assumption. rewrite <- app_assoc. destruct a. reflexivity.
Qed.

Lemma parse_AllowedIPs p ips :
  ips <> [] -> Forall reparsesCIDR ips ->
  parsePeerLine p "AllowedIPs" (strings.Join (map showIPNet ips) ", ")
  = Ok (set_AllowedIPs (AllowedIPs p ++ ips) p).
Proof.
  intros Hne H. destruct ips as [|a ips]; [contradiction|].
  inversion H as [|? ? (Hl & Hc & Hp) Hips]; subst.
  apply oneLine_inv in Hl as [Ht _].
  unfold parsePeerLine. eval_eqb. cbn [map].
  rewrite Split_Join_comma; [|exact Hc|].
  2: { apply Forall_map. eapply Forall_impl; [exact Hips|].
       intros b (_ & Hb & _). exact Hb. }
  cbn [parseCIDRs]. rewrite (TrimSpace_trimmed _ Ht), Hp.
  rewrite parseCIDRs_spaced by assumption. cbn [bind].
  rewrite <- app_assoc. destruct a. reflexivity.
Qed.

Lemma allowedIPs_trimmed ips :
  ips <> [] -> Forall reparsesCIDR ips ->
  trimmed (strings.Join (map showIPNet ips) ", ") = true.
Proof.
  intros Hne H. induction H as [|a ips (Hl & _) Hips IH]; [contradiction|].
  apply oneLine_inv in Hl as [Ht _].
  destruct ips as [|b ips]; [exact Ht|].
  cbn [map]. rewrite Join_cons.
  destruct (trimmed_inv _ Ht) as (c & s' & E & Hc & _).
  rewrite E, <- app_comm_cons, app_assoc.
  apply trimmed_sandwich; [exact Hc|]. apply IH. discriminate.
Qed.

End DecodeLines.

(** ** Decoding an encoding, section by section *)

Section RoundTrip.

Context {net : NetLib} {provider : Provider}.

Lemma FormatInt_trimmed z : int64 z -> trimmed (strconv.FormatInt z) = true.
Proof. intros H. apply token_trimmed, FormatInt_token, H. Qed.

Lemma serializeKey_trimmed k : isKey k -> trimmed (serializeKey k) = true.
Proof. intros H. apply token_trimmed, serializeKey_token, H. Qed.

Lemma printStrings_trimmed l : trimmed (printStrings l) = true.
Proof.
  unfold printStrings.
  apply (trimmed_ends "[" _ ("[" ++ strings.Join l " ") "]"); reflexivity.
Qed.

Lemma unmarshalLines_nil no st cfg : unmarshalLines no [] st cfg = Ok (st, cfg).
Proof. reflexivity. Qed.

Lemma seg_Address addrs : forall no cfg,
  Forall reparsesCIDR addrs ->
  unmarshalLines no (map (fun a => kvLine "Address" (showIPNet a)) addrs)
    inter cfg
  = Ok (inter, set_Address (Address cfg ++ addrs) cfg).
Proof.
  induction addrs as [|a addrs IH]; intros no cfg H.
  - rewrite app_nil_r. destruct cfg. reflexivity.
  - inversion H as [|? ? Ha Haddrs]; subst. cbn [map].
    rewrite (unmarshalLines_cons _ _ _ _ _ inter
               (set_Address (Address cfg ++ [a]) cfg)).
    + rewrite IH by assumption.
      change (Address (set_Address (Address cfg ++ [a]) cfg))
        with (Address cfg ++ [a]).
      rewrite <- app_assoc. reflexivity.
    + apply unmarshalLine_inter_kv; [reflexivity| |apply parse_Address, Ha].
      destruct Ha as (Hl & _). apply oneLine_inv, Hl.
Qed.

Lemma seg_DNS ds : forall no cfg,
  Forall reparsesIP ds ->
  unmarshalLines no (map (fun d => kvLine "DNS" (IP_String d)) ds) inter cfg
  = Ok (inter, set_DNS (DNS cfg ++ ds) cfg).
Proof.
  induction ds as [|d ds IH]; intros no cfg H.
  - rewrite app_nil_r. destruct cfg. reflexivity.
  - inversion H as [|? ? Hd Hds]; subst. cbn [map].
    rewrite (unmarshalLines_cons _ _ _ _ _ inter (set_DNS (DNS cfg ++ [d]) cfg)).
    + rewrite IH by assumption.
      change (DNS (set_DNS (DNS cfg ++ [d]) cfg)) with (DNS cfg ++ [d]).
      rewrite <- app_assoc. reflexivity.
    + apply unmarshalLine_inter_kv; [reflexivity| |apply parse_DNS, Hd].
      destruct Hd as (Hl & _). apply oneLine_inv, Hl.
Qed.

Lemma seg_PrivateKey no cfg k :
  isKey k ->
  unmarshalLines no [kvLine "PrivateKey" (serializeKey k)] inter cfg
  = Ok (inter, set_PrivateKey (Some k) cfg).
Proof.
  intros Hk.
  rewrite (unmarshalLines_cons _ _ _ _ _ inter (set_PrivateKey (Some k) cfg));
    [reflexivity|].
  apply unmarshalLine_inter_kv;
    [reflexivity|apply serializeKey_trimmed, Hk|apply parse_PrivateKey, Hk].
Qed.

Lemma seg_ListenPort no cfg v :
  ListenPort cfg = None -> optHolds int64 v ->
  unmarshalLines no (optLines "ListenPort" strconv.FormatInt v) inter cfg
  = Ok (inter, set_ListenPort v cfg).
Proof.
  intros Hcfg Hv. destruct v as [z|]; cbn [optLines].
  - rewrite (unmarshalLines_cons _ _ _ _ _ inter (set_ListenPort (Some z) cfg));
      [reflexivity|].
    apply unmarshalLine_inter_kv;
      [reflexivity|apply FormatInt_trimmed, Hv|apply parse_ListenPort, Hv].
  - destruct cfg. simpl in Hcfg. subst. reflexivity.
Qed.

Lemma seg_MTU no cfg m :
  MTU cfg = 0%Z -> int64 m ->
  unmarshalLines no
    (condLines "MTU" (fun m => negb (m =? 0)%Z) strconv.FormatInt m) inter cfg
  = Ok (inter, set_MTU m cfg).
Proof.
  intros Hcfg Hm. unfold condLines. destruct (m =? 0)%Z eqn:E; cbn [negb].
  - apply Z.eqb_eq in E. subst m. destruct cfg. simpl in Hcfg. subst.
    reflexivity.
  - rewrite (unmarshalLines_cons _ _ _ _ _ inter (set_MTU m cfg));
      [reflexivity|].
    apply unmarshalLine_inter_kv;
      [reflexivity|apply FormatInt_trimmed, Hm|apply parse_MTU, Hm].
Qed.

Lemma seg_Table no cfg v :
  Table cfg = Some 0%Z -> optHolds int64 v ->
  unmarshalLines no (optLines "Table" strconv.FormatInt v) inter cfg
  = Ok (inter, set_Table (canonTable v) cfg).
Proof.
  intros Hcfg Hv. destruct v as [z|]; cbn [optLines canonTable].
  - rewrite (unmarshalLines_cons _ _ _ _ _ inter (set_Table (Some z) cfg));
      [reflexivity|].
    apply unmarshalLine_inter_kv;
      [reflexivity|apply FormatInt_trimmed, Hv|apply parse_Table, Hv].
  - destruct cfg. simpl in Hcfg. subst. reflexivity.
Qed.

(** A hook list: one line holding the printed list, or no line. *)
Lemma seg_hook no cfg key (get : Config -> list gostring)
  (set : list gostring -> Config -> Config) l :
  isKeyName key = true ->
  (forall v, parseInterfaceLine cfg key v = Ok (set (get cfg ++ [v]) cfg)) ->
  get cfg = [] -> set [] cfg = cfg ->
  unmarshalLines no (condLines key nonEmpty printStrings l) inter cfg
  = Ok (inter, set (canonHook l) cfg).
Proof.
  intros Hkey Hparse Hget Hset. unfold condLines, canonHook.
  destruct l as [|s l]; cbn [nonEmpty].
  - rewrite Hset. reflexivity.
  - rewrite (unmarshalLines_cons _ _ _ _ _ inter
               (set [printStrings (s :: l)] cfg)); [reflexivity|].
    apply unmarshalLine_inter_kv; [exact Hkey|apply printStrings_trimmed|].
    rewrite Hparse, Hget. reflexivity.
Qed.

Lemma seg_SaveConfig no cfg b :
  SaveConfig cfg = false ->
  unmarshalLines no (condLines "SaveConfig" id strconv.FormatBool b) inter cfg
  = Ok (inter, set_SaveConfig b cfg).
Proof.
  intros Hcfg. unfold condLines, id. destruct b.
  - rewrite (unmarshalLines_cons _ _ _ _ _ inter (set_SaveConfig true cfg));
      [reflexivity|].
    apply unmarshalLine_inter_kv; [reflexivity|reflexivity|apply parse_SaveConfig].
  - destruct cfg. simpl in Hcfg. subst. reflexivity.
Qed.

(** An optional directive of the current peer. *)
Lemma seg_peer_opt {A} no cfg ps p key (show : A -> gostring)
  (upd : A -> PeerConfig -> PeerConfig) v :
  isKeyName key = true ->
  optHolds (fun x => trimmed (show x) = true
                     /\ parsePeerLine p key (show x) = Ok (upd x p)) v ->
  unmarshalLines no (optLines key show v) peer (set_Peers (ps ++ [p]) cfg)
  = Ok (peer, set_Peers (ps ++ [match v with
                                 | Some x => upd x p
                                 | None => p
                                 end]) cfg).
Proof.
  intros Hkey Hv. destruct v as [x|]; cbn [optLines]; [|reflexivity].
  destruct Hv as [Ht Hparse].
  rewrite (unmarshalLines_cons _ _ _ _ _ peer (set_Peers (ps ++ [upd x p]) cfg));
    [reflexivity|].
  apply unmarshalLine_peer_kv; assumption.
Qed.

(** The lines of one peer: a new peer is appended and filled in. *)
Lemma seg_peer p no st cfg :
  printablePeer p ->
  unmarshalLines no (peerLines p) st cfg
  = Ok (peer, set_Peers (Peers cfg ++ [canonPeer p]) cfg).
Proof.
  intros (Hpk & Hpsk & Hne & Hips & Hep & Hka). unfold peerLines.
  cbn [app].
  rewrite (unmarshalLines_cons _ _ _ _ _ st cfg) by reflexivity.
  rewrite (unmarshalLines_cons _ _ _ _ _ peer
             (set_Peers (Peers cfg ++ [zeroPeer]) cfg)) by reflexivity.
  set (p1 := set_PublicKey (PublicKey p) zeroPeer).
  rewrite (unmarshalLines_cons _ _ _ _ _ peer
             (set_Peers (Peers cfg ++ [p1]) cfg)).
  2: { apply (unmarshalLine_peer_kv _ cfg (Peers cfg) zeroPeer);
         [reflexivity|apply serializeKey_trimmed, Hpk
         |apply parse_PublicKey, Hpk]. }
  set (p2 := set_AllowedIPs (AllowedIPs p) p1).
  rewrite (unmarshalLines_cons _ _ _ _ _ peer
             (set_Peers (Peers cfg ++ [p2]) cfg)).
  2: { apply (unmarshalLine_peer_kv _ cfg (Peers cfg) p1);
         [reflexivity|apply allowedIPs_trimmed; assumption
         |apply (parse_AllowedIPs p1); assumption]. }
  rewrite unmarshalLines_app.
  rewrite (seg_peer_opt _ cfg (Peers cfg) p2 "PresharedKey" wgtypes.Key_String
             (fun k => set_PresharedKey (Some k))); [|reflexivity|].
  2: { eapply optHolds_impl; [|exact Hpsk]. intros k Hk. split.
       - apply serializeKey_trimmed, Hk.
       - apply parse_PresharedKey; [exact Hk|reflexivity]. }
  cbn [bind fst snd].
  set (p3 := match PresharedKey p with
             | Some k => set_PresharedKey (Some k) p2
             | None => p2
             end).
  rewrite unmarshalLines_app.
  rewrite (seg_peer_opt _ cfg (Peers cfg) p3 "PersistentKeepalive"
             (fun d => strconv.FormatInt (toSeconds d))
             (fun d => set_PersistentKeepaliveInterval (Some (canonDuration d))));
    [|reflexivity|].
  2: { eapply optHolds_impl; [|exact Hka]. intros d Hd. split.
       - apply FormatInt_trimmed, toSeconds_int64, Hd.
       - apply parse_PersistentKeepalive, Hd. }
  cbn [bind fst snd].
  set (p4 := match PersistentKeepaliveInterval p with
             | Some d => set_PersistentKeepaliveInterval (Some (canonDuration d)) p3
             | None => p3
             end).
  rewrite (seg_peer_opt _ cfg (Peers cfg) p4 "Endpoint" UDPAddr_String
             (fun a => set_Endpoint (Some a))); [|reflexivity|].
  2: { eapply optHolds_impl; [|exact Hep]. intros a Ha. split.
       - destruct Ha as (Hl & _). apply oneLine_inv, Hl.
       - apply parse_Endpoint, Ha. }
  do 2 f_equal. f_equal. f_equal.
  unfold p4, p3, p2, p1, canonPeer.
  destruct (Endpoint p), (PersistentKeepaliveInterval p), (PresharedKey p);
    reflexivity.
Qed.

Lemma seg_peers ps : forall no st cfg,
  Forall printablePeer ps ->
  exists st',
    unmarshalLines no (concat (map peerLines ps)) st cfg
    = Ok (st', set_Peers (Peers cfg ++ map canonPeer ps) cfg).
Proof.
  induction ps as [|p ps IH]; intros no st cfg H.
  - exists st. cbn [map concat]. rewrite app_nil_r. destruct cfg. reflexivity.
  - inversion H as [|? ? Hp Hps]; subst. cbn [map concat].
    rewrite unmarshalLines_app, (seg_peer p no st cfg Hp). cbn [bind fst snd].
    destruct (IH (no + Z.of_nat (length (peerLines p)))%Z peer
                (set_Peers (Peers cfg ++ [canonPeer p]) cfg) Hps) as [st' ->].
    exists st'.
    change (Peers (set_Peers (Peers cfg ++ [canonPeer p]) cfg))
      with (Peers cfg ++ [canonPeer p]).
    rewrite <- app_assoc. reflexivity.
Qed.

(** The decoder reads an encoding back as [canon] of the configuration
    that was encoded. *)
Lemma reencode_canon c : printable c -> reencode c = Ok (canon c).
Proof.
  intros Hp. pose proof Hp as ((key & Hk & Hkey) & Hlp & Hmtu & Htbl & Haddr
    & Hdns & Hpre & Hpost & Hpred & Hpostd & Hpeers).
  unfold reencode. rewrite (MarshalText_lines c key Hk). cbn [bind].
  unfold UnmarshalText.
  rewrite Split_afterNl; [|reflexivity|apply bodyLines_noNl; assumption].
  rewrite (unmarshalLines_cons _ _ _ _ _ inter newConfig) by reflexivity.
  unfold bodyLines, interfaceLines. rewrite <- !app_assoc.
  rewrite unmarshalLines_app, (seg_Address _ _ _ Haddr). cbn [bind fst snd].
  rewrite unmarshalLines_app, (seg_DNS _ _ _ Hdns). cbn [bind fst snd].
  rewrite unmarshalLines_app, (seg_PrivateKey _ _ _ Hkey). cbn [bind fst snd].
  rewrite unmarshalLines_app, seg_ListenPort; [|reflexivity|exact Hlp].
  cbn [bind fst snd].
  rewrite unmarshalLines_app, seg_MTU; [|reflexivity|exact Hmtu].
  cbn [bind fst snd].
  rewrite unmarshalLines_app, seg_Table; [|reflexivity|exact Htbl].
  cbn [bind fst snd].
  rewrite unmarshalLines_app, (seg_hook _ _ "PreUp" PreUp set_PreUp);
    [|reflexivity|reflexivity|reflexivity|reflexivity].
  cbn [bind fst snd].
  rewrite unmarshalLines_app, (seg_hook _ _ "PostUp" PostUp set_PostUp);
    [|reflexivity|reflexivity|reflexivity|reflexivity].
  cbn [bind fst snd].
  rewrite unmarshalLines_app, (seg_hook _ _ "PreDown" PreDown set_PreDown);
    [|reflexivity|reflexivity|reflexivity|reflexivity].
  cbn [bind fst snd].
  rewrite unmarshalLines_app, (seg_hook _ _ "PostDown" PostDown set_PostDown);
    [|reflexivity|reflexivity|reflexivity|reflexivity].
  cbn [bind fst snd].
  rewrite unmarshalLines_app, seg_SaveConfig by reflexivity.
  cbn [bind fst snd].
  rewrite unmarshalLines_app.
  match goal with
  | |- context [unmarshalLines ?no (concat (map peerLines (Peers c))) ?st ?cfg] =>
      destruct (seg_peers (Peers c) no st cfg Hpeers) as [st' ->]
  end.
  cbn [bind fst snd].
  rewrite (unmarshalLines_cons _ _ _ _ _ st' _) by reflexivity.
  rewrite unmarshalLines_nil. cbn [bind snd].
  unfold canon. rewrite Hk. reflexivity.
Qed.

End RoundTrip.

(** ** The routing table through a decoding and a cycle *)

Section TableClaims.

Context {net : NetLib} {provider : Provider}.

(** A directive other than [Table] leaves the routing table alone. *)
Lemma parseInterfaceLine_Table_other cfg lhs rhs cfg' :
  (lhs == "Table") = false ->
  parseInterfaceLine cfg lhs rhs = Ok cfg' -> Table cfg' = Table cfg.
Proof.
  intros Hne H. unfold parseInterfaceLine in H.
  repeat match type of H with
         | (if ?c then _ else _) = _ => destruct c
         end;
    try discriminate;
    try (injection H as <-; reflexivity);
    match type of H with
    | bind ?r _ = _ => destruct r; simpl in H; try discriminate
    end;
    injection H as <-; reflexivity.
Qed.

Lemma parseLastPeer_Table cfg lhs rhs cfg' :
  parseLastPeer cfg lhs rhs = Ok cfg' -> Table cfg' = Table cfg.
Proof.
  unfold parseLastPeer. destruct (last (Peers cfg)); [|discriminate].
  destruct (parsePeerLine _ lhs rhs); simpl; [|discriminate].
  intros H. injection H as <-. reflexivity.
Qed.

Lemma unmarshalLine_Table no st cfg line st' :
  isTableLine line = false ->
  unmarshalLine no st cfg line = Ok st' -> Table (snd st') = Table cfg.
Proof.
  unfold isTableLine, unmarshalLine. intros Hl.
  destruct (skipped _); [intros H; injection H as <-; reflexivity|].
  destruct (_ == "[Interface]"); [intros H; injection H as <-; reflexivity|].
  destruct (_ == "[Peer]"); [intros H; injection H as <-; reflexivity|].
  destruct (splitKeyValue _) as [[lhs rhs]|]; [|discriminate].
  unfold dispatchLine. destruct st; [discriminate| |].
  - destruct (parseInterfaceLine cfg lhs rhs) as [c|] eqn:E; simpl; [|discriminate].
    intros H. injection H as <-. apply (parseInterfaceLine_Table_other _ _ _ _ Hl E).
  - destruct (parseLastPeer cfg lhs rhs) as [c|] eqn:E; simpl; [|discriminate].
    intros H. injection H as <-. apply (parseLastPeer_Table _ _ _ _ E).
Qed.

Lemma unmarshalLines_Table lines : forall no st cfg st',
  forallb (fun l => negb (isTableLine l)) lines = true ->
  unmarshalLines no lines st cfg = Ok st' -> Table (snd st') = Table cfg.
Proof.
  induction lines as [|l lines IH]; intros no st cfg st' Hall H.
  - injection H as <-. reflexivity.
  - simpl in Hall. apply andb_prop in Hall as [Hl Hall].
    apply negb_true_iff in Hl. cbn [unmarshalLines] in H.
    destruct (unmarshalLine no st cfg l) as [[st1 cfg1]|] eqn:E; [|discriminate].
    cbn [bind fst snd] in H. rewrite (IH _ _ _ _ Hall H).
    apply (unmarshalLine_Table _ _ _ _ _ Hl E).
Qed.

Lemma canonPeer_stable p : stablePeer p -> canonPeer p = p.
Proof.
  intros (H1 & H2 & H3 & H4). destruct p as [pk rm uo psk ep ka ra ips].
  simpl in *. subst. unfold canonPeer. simpl. f_equal.
  destruct ka as [d|]; [|reflexivity]. simpl in *. f_equal.
  unfold canonDuration. destruct (toSeconds_spec d) as (E & _). lia.
Qed.

Lemma canon_stable c : stable c -> canon c = c.
Proof.
  intros (Ht & H1 & H2 & H3 & H4 & H5 & H6 & H7 & H8 & H9 & H10 & Hp).
  destruct c. simpl in *. subst. unfold canon. simpl.
  destruct Table0 as [t|]; [|contradiction]. simpl. f_equal.
  induction Hp as [|p ps Hp Hps IH]; [reflexivity|].
  simpl. rewrite (canonPeer_stable p Hp), IH. reflexivity.
Qed.

(** X11. The decoder tells the three routing-table states apart:
    [Table = off], in any letter case, decodes to the disabled state
    (nil); a text without a [Table] directive decodes to the default
    state (a pointer to 0); [Table = n] decodes to [n].  A configuration
    that the encoder can write and whose table is in the default or an
    explicit state comes back from [Decode(Encode(c))] with the same
    table. *)
Theorem table_states_through_a_cycle :
  (forall cfg rhs,
      strings.ToLower rhs = "off" ->
      parseInterfaceLine cfg "Table" rhs = Ok (set_Table None cfg))
  /\ (forall text c,
        forallb (fun l => negb (isTableLine l)) (strings.Split text "010") = true ->
        UnmarshalText text = Ok c -> Table c = Some 0%Z)
  /\ (forall cfg n,
        int64 n ->
        parseInterfaceLine cfg "Table" (strconv.FormatInt n)
        = Ok (set_Table (Some n) cfg))
  /\ (forall c,
        printable c -> Table c <> None ->
        exists c', reencode c = Ok c' /\ Table c' = Table c).
Proof.
  split; [|split; [|split]].
  - intros cfg rhs H. unfold parseInterfaceLine. eval_eqb.
    rewrite H. reflexivity.
  - intros text c Hall H. unfold UnmarshalText in H.
    destruct (unmarshalLines 0 _ unknown newConfig) as [st|] eqn:E; [|discriminate].
    injection H as <-. apply (unmarshalLines_Table _ _ _ _ _ Hall E).
  - intros cfg n Hn. apply parse_Table, Hn.
  - intros c Hp Ht. exists (canon c). split; [apply reencode_canon, Hp|].
    unfold canon. simpl. destruct (Table c); [reflexivity|contradiction].
Qed.

(** C2, amended. For a configuration that the encoder can write,
    [Decode(Encode(c))] succeeds and returns the private key, the
    addresses, the DNS servers and the peers' keys and allowed IPs of [c],
    in the order [c] has them; and it returns [c] itself when moreover the
    routing table is not disabled, the hook lists are empty, intervals are
    whole seconds and the fields that the template does not write are at
    their zero values. *)
Theorem roundtrip_of_printable (c : Config) :
  printable c ->
  (exists c', reencode c = Ok c'
     /\ PrivateKey c' = PrivateKey c
     /\ Address c' = Address c
     /\ DNS c' = DNS c
     /\ map PublicKey (Peers c') = map PublicKey (Peers c)
     /\ map PresharedKey (Peers c') = map PresharedKey (Peers c)
     /\ map AllowedIPs (Peers c') = map AllowedIPs (Peers c)
     /\ map Endpoint (Peers c') = map Endpoint (Peers c))
  /\ (stable c -> reencode c = Ok c).
Proof.
  intros Hp. split.
  - exists (canon c). split; [apply reencode_canon, Hp|].
    unfold canon. cbn [PrivateKey Address DNS Peers].
    rewrite !map_map. repeat split; reflexivity.
  - intros Hs. rewrite (reencode_canon c Hp), (canon_stable c Hs). reflexivity.
Qed.

End TableClaims.

(** ** The claims on concrete inputs *)

Lemma example_printable : printable (net := ipv4.net) example.config.
Proof.
  unfold printable, example.config. cbn [PrivateKey ListenPort MTU Table
    Address DNS PreUp PostUp PreDown PostDown Peers].
  split; [exists example.key; split; reflexivity|].
  repeat split; cbn [optHolds]; unfold int64; try lia;
    repeat constructor; cbn [optHolds]; unfold int64, isKey; try lia;
    try reflexivity; try discriminate.
Defined.

Lemma example_stable : stable (net := ipv4.net) example.config.
Proof.
  unfold stable, example.config. cbn.
  repeat split; try discriminate; repeat constructor.
Defined.

(** C1, a defect of the encoder. The disabled routing table does not
    survive [Decode(Encode(c))]: the configuration decoded from an
    interface with [Table = off] has a nil table (lines 325-327), the
    template's [{{ if .Table }}] (line 114) writes no [Table] line for
    it, and the decoder reads the encoding back with [newConfig]'s
    default table (line 62), a pointer to 0. *)
Lemma table_off_lost_in_cycle :
  let c := set_Table None
             (set_PrivateKey (Some example.key) (newConfig (net := ipv4.net))) in
  let c' := set_PrivateKey (Some example.key) (newConfig (net := ipv4.net)) in
  UnmarshalText example.offText = Ok c
  /\ Table c = None
  /\ reencode c = Ok c'
  /\ Table c' = Some 0%Z
  /\ Table c' <> Table c.
Proof.
  cbv zeta. split; [reflexivity|]. split; [reflexivity|].
  split; [reflexivity|]. split; [reflexivity|discriminate].
Qed.

Lemma table_states_through_a_cycle_witness :
  parseInterfaceLine (net := ipv4.net) newConfig "Table" "Off"
  = Ok (set_Table None newConfig)
  /\ (UnmarshalText (net := ipv4.net) "[Interface]" = Ok newConfig
      -> Table (net := ipv4.net) newConfig = Some 0%Z)
  /\ parseInterfaceLine (net := ipv4.net) newConfig "Table" "42"
     = Ok (set_Table (Some 42%Z) newConfig)
  /\ printable example.config
  /\ Table example.config <> None
  /\ exists c', reencode example.config = Ok c'
                /\ Table c' = Table example.config.
Proof.
  destruct (@table_states_through_a_cycle ipv4.net) as (H1 & H2 & H3 & H4).
  split; [apply H1; reflexivity|].
  split; [apply H2; reflexivity|].
  split; [exact (H3 newConfig 42%Z ltac:(unfold int64; lia))|].
  split; [exact example_printable|].
  split; [discriminate|].
  apply H4; [exact example_printable|discriminate].
Defined.

(** C2, as stated, fails: a configuration with a private key and the one
    [PreUp] command [a] is written with the line [PreUp = [a]], and comes
    back with the command [[a]]. *)
Lemma hook_changes_in_roundtrip :
  printable example.hookConfig
  /\ reencode example.hookConfig
     = Ok (set_PreUp ["[a]" : gostring]
             (set_PrivateKey (Some example.key) (newConfig (net := ipv4.net))))
  /\ reencode example.hookConfig <> Ok example.hookConfig.
Proof.
  split; [|split].
  - unfold printable, example.hookConfig. cbn.
    split; [exists example.key; split; reflexivity|].
    repeat split; unfold int64; try lia; repeat constructor.
  - reflexivity.
  - assert (E : reencode example.hookConfig
                = Ok (set_PreUp ["[a]" : gostring]
                        (set_PrivateKey (Some example.key)
                           (newConfig (net := ipv4.net))))) by reflexivity.
    rewrite E. intros H. injection H as H. discriminate H.
Qed.

Lemma roundtrip_of_printable_witness :
  printable example.config
  /\ stable example.config
  /\ (exists c', reencode example.config = Ok c'
                 /\ Address c' = Address example.config
                 /\ DNS c' = DNS example.config)
  /\ reencode example.config = Ok example.config.
Proof.
  destruct (@roundtrip_of_printable ipv4.net example.config example_printable)
    as [(c' & H & _ & Ha & Hd & _) Hs].
  split; [exact example_printable|]. split; [exact example_stable|].
  split; [exists c'; auto|]. exact (Hs example_stable).
Defined.


Lemma extract_two_peers_witness :
  ReadFile (Provider := example.store) (confPath "wg1")
  = Ok (twoPeers example.keyText example.otherKeyText)
  /\ token example.keyText = true
  /\ token example.otherKeyText = true
  /\ wgtypes.ParseKey example.keyText = Ok example.key
  /\ GetUnresolvedEndpoints (provider := example.store) "wg1"
     = Ok {[ example.key := "host1:51820" : gostring ]}.
Proof.
  assert (Hf : ReadFile (Provider := example.store) (confPath "wg1")
               = Ok (twoPeers example.keyText example.otherKeyText))
    by (vm_compute; reflexivity).
  assert (Hk : wgtypes.ParseKey example.keyText = Ok example.key)
    by (vm_compute; reflexivity).
  split; [exact Hf|]. split; [reflexivity|]. split; [reflexivity|].
  split; [exact Hk|].
  apply (@extract_two_peers example.store "wg1" example.keyText
           example.otherKeyText example.key Hf eq_refl eq_refl Hk).
Defined.

Lemma value_after_first_equals_witness :
  contains "=" "PresharedKey " = false
  /\ splitKeyValue ("PresharedKey " ++ "="%char :: " " ++ example.keyText)
     = Some ("PresharedKey" : gostring, example.keyText).
Proof.
  split; [reflexivity|].
  destruct (@value_after_first_equals ipv4.net "PresharedKey "
              (" " ++ example.keyText) eq_refl) as (_ & H & _).
  rewrite H. reflexivity.
Defined.


Lemma MatchConfig_keys_witness :
  let c0 := set_Table None
              (set_PrivateKey (Some example.key) (newConfig (net := ipv4.net))) in
  let m : gmap gostring (Config (net := ipv4.net)) :=
    <[("wg0" : gostring) := c0]> ∅ in
  ReadDir (Provider := example.store)
  = Ok ["wg0.conf" : gostring; "wg1.conf" : gostring; "notes.txt" : gostring]
  /\ MatchConfig (provider := example.store) "wg0" = Returns m
  /\ (forall k, is_Some (m !! k)
                <-> exists file,
                      In file ["wg0.conf" : gostring; "wg1.conf" : gostring;
                               "notes.txt" : gostring]
                      /\ (6 <= len file)%Z /\ file = k ++ ".conf"
                      /\ regexp_Match (Provider := example.store)
                           (anchored "wg0") k = Ok true).
Proof.
  cbv zeta.
  assert (Hd : ReadDir (Provider := example.store)
               = Ok ["wg0.conf" : gostring; "wg1.conf" : gostring;
                     "notes.txt" : gostring]) by reflexivity.
  assert (Hm : MatchConfig (net := ipv4.net) (provider := example.store) "wg0"
               = Returns (<[("wg0" : gostring) :=
                            set_Table None
                              (set_PrivateKey (Some example.key) newConfig)]> ∅))
    by reflexivity.
  destruct (@MatchConfig_keys ipv4.net example.store "wg0" _ _ Hd Hm)
    as (_ & Hkeys & _).
  split; [exact Hd|]. split; [exact Hm|]. exact Hkeys.
Defined.

(** * Further properties of the decoder *)

Section DecoderInvariants.

Context {net : NetLib} {provider : Provider}.

(** Split a hypothesis on [parseInterfaceLine] or [parsePeerLine] into
    the cases of its [switch]. *)
Ltac switch_cases H :=
  repeat match type of H with
         | (if ?c then _ else _) = _ => destruct c eqn:?
         end;
  try discriminate;
  try match type of H with
      | bind ?r _ = _ => destruct r eqn:?; simpl in H; try discriminate
      end.

Lemma parseInterfaceLine_Peers cfg lhs rhs cfg' :
  parseInterfaceLine cfg lhs rhs = Ok cfg' -> Peers cfg' = Peers cfg.
Proof.
  intros H. unfold parseInterfaceLine in H. switch_cases H;
    injection H as <-; reflexivity.
Qed.

Lemma parseLastPeer_Peers cfg lhs rhs cfg' :
  parseLastPeer cfg lhs rhs = Ok cfg' ->
  exists ps p p', Peers cfg = ps ++ [p] /\ Peers cfg' = ps ++ [p']
                  /\ parsePeerLine p lhs rhs = Ok p'.
Proof.
  unfold parseLastPeer. destruct (last (Peers cfg)) as [p|] eqn:El; [|discriminate].
  destruct (parsePeerLine p lhs rhs) as [p'|] eqn:Ep; simpl; [|discriminate].
  intros H. injection H as <-. apply last_Some in El as [ps Hps].
  exists ps, p, p'. rewrite Hps, removelast_last. auto.
Qed.

Lemma unmarshalLine_cases no st cfg line r :
  unmarshalLine no st cfg line = Ok r ->
  (isSkipped line = true /\ r = (st, cfg))
  \/ (strings.TrimSpace line = "[Interface]" /\ r = (inter, cfg))
  \/ (strings.TrimSpace line = "[Peer]"
      /\ r = (peer, set_Peers (Peers cfg ++ [zeroPeer]) cfg))
  \/ (exists lhs rhs, isDirective line lhs rhs
        /\ isPeerHeader line = false
        /\ dispatchLine no st cfg lhs rhs = Ok r).
Proof.
  unfold unmarshalLine, isSkipped, isDirective, isPeerHeader.
  destruct (skipped _) eqn:Es.
  { intros H. injection H as <-. left. auto. }
  destruct (_ == "[Interface]") eqn:Ei.
  { intros H. injection H as <-. right. left.
    apply gostring_eqb_eq in Ei. auto. }
  destruct (_ == "[Peer]") eqn:Ep.
  { intros H. injection H as <-. right. right. left.
    apply gostring_eqb_eq in Ep. auto. }
  destruct (splitKeyValue _) as [[lhs rhs]|] eqn:Ekv; [|discriminate].
  intros H. right. right. right. exists lhs, rhs. auto.
Qed.

Lemma dispatchLine_Ok no st cfg lhs rhs r :
  dispatchLine no st cfg lhs rhs = Ok r ->
  (st = inter /\ exists cfg', parseInterfaceLine cfg lhs rhs = Ok cfg'
                              /\ r = (inter, cfg'))
  \/ (st = peer /\ exists cfg', parseLastPeer cfg lhs rhs = Ok cfg'
                                /\ r = (peer, cfg')).
Proof.
  unfold dispatchLine. destruct st; [discriminate| |].
  - destruct (parseInterfaceLine cfg lhs rhs) as [c|]; simpl; [|discriminate].
    intros H. injection H as <-. left. eauto.
  - destruct (parseLastPeer cfg lhs rhs) as [c|]; simpl; [|discriminate].
    intros H. injection H as <-. right. eauto.
Qed.

Lemma unmarshalLine_peerReady no st cfg line r :
  peerReady st cfg -> unmarshalLine no st cfg line = Ok r ->
  peerReady (fst r) (snd r).
Proof.
  intros Hr H.
  destruct (unmarshalLine_cases _ _ _ _ _ H)
    as [[_ ->]|[[_ ->]|[[_ ->]|(lhs & rhs & _ & _ & Hd)]]].
  - exact Hr.
  - intros E. discriminate.
  - intros _. exists (Peers cfg), zeroPeer. reflexivity.
  - destruct (dispatchLine_Ok _ _ _ _ _ _ Hd)
      as [[_ (c & _ & ->)]|[_ (c & Hc & ->)]].
    + intros E. discriminate.
    + intros _. destruct (parseLastPeer_Peers _ _ _ _ Hc) as (ps & p & p' & _ & E & _).
      exists ps, p'. exact E.
Qed.

Lemma unmarshalLines_peerReady lines : forall no st cfg r,
  peerReady st cfg -> unmarshalLines no lines st cfg = Ok r ->
  peerReady (fst r) (snd r).
Proof.
  induction lines as [|l lines IH]; intros no st cfg r Hr H.
  - injection H as <-. exact Hr.
  - cbn [unmarshalLines] in H.
    destruct (unmarshalLine no st cfg l) as [r1|] eqn:E; [|discriminate].
    apply (IH _ _ _ _ (unmarshalLine_peerReady _ _ _ _ _ Hr E) H).
Qed.

Lemma peerReady_start : peerReady unknown newConfig.
Proof. intros E. discriminate. Qed.

(** X1. Whenever the decoder is in a peer section, [cfg.Peers] is not
    empty: the pointer [peerCfg] that [parsePeerLine] writes through is
    never nil. *)
Theorem current_peer_exists (text : gostring) (pre post : list gostring)
  (st : parseState) (cfg : Config) :
  strings.Split text "010" = pre ++ post ->
  unmarshalLines 0 pre unknown newConfig = Ok (st, cfg) ->
  st = peer ->
  exists ps p, Peers cfg = ps ++ [p].
Proof.
  intros _ H. apply (unmarshalLines_peerReady _ _ _ _ _ peerReady_start H).
Qed.

Lemma unmarshalLine_count no st cfg line r :
  unmarshalLine no st cfg line = Ok r ->
  length (Peers (snd r))
  = length (Peers cfg) + (if isPeerHeader line then 1 else 0).
Proof.
  intros H.
  destruct (unmarshalLine_cases _ _ _ _ _ H)
    as [[Hs ->]|[[Hi ->]|[[Hp ->]|(lhs & rhs & _ & Hh & Hd)]]].
  - unfold isPeerHeader. unfold isSkipped in Hs.
    destruct (_ == "[Peer]") eqn:E; [|simpl; lia].
    apply gostring_eqb_eq in E. rewrite E in Hs. discriminate.
  - unfold isPeerHeader. rewrite Hi. simpl. lia.
  - unfold isPeerHeader. rewrite Hp. cbn [snd Peers set_Peers].
    rewrite length_app. reflexivity.
  - rewrite Hh. destruct (dispatchLine_Ok _ _ _ _ _ _ Hd)
      as [[_ (c & Hc & ->)]|[_ (c & Hc & ->)]]; cbn [snd].
    + rewrite (parseInterfaceLine_Peers _ _ _ _ Hc). lia.
    + destruct (parseLastPeer_Peers _ _ _ _ Hc) as (ps & p & p' & E1 & E2 & _).
      rewrite E1, E2, !length_app. simpl. lia.
Qed.

Lemma unmarshalLines_count lines : forall no st cfg r,
  unmarshalLines no lines st cfg = Ok r ->
  length (Peers (snd r)) = length (Peers cfg) + countPeerHeaders lines.
Proof.
  induction lines as [|l lines IH]; intros no st cfg r H.
  - injection H as <-. simpl. unfold countPeerHeaders. simpl. lia.
  - cbn [unmarshalLines] in H.
    destruct (unmarshalLine no st cfg l) as [r1|] eqn:E; [|discriminate].
    cbn [bind] in H. rewrite (IH _ _ _ _ H), (unmarshalLine_count _ _ _ _ _ E).
    unfold countPeerHeaders. rewrite filter_cons.
    destruct (isPeerHeader l); simpl.
    + destruct (decide (true = true)); [simpl; lia|contradiction].
    + destruct (decide (false = true)); [discriminate|lia].
Qed.

(** X2. A decoded configuration has one peer for each [[Peer]] header of
    the text, no more and no fewer. *)
Theorem one_peer_per_header (text : gostring) (c : Config) :
  UnmarshalText text = Ok c ->
  length (Peers c) = countPeerHeaders (strings.Split text "010").
Proof.
  unfold UnmarshalText. intros H.
  destruct (unmarshalLines 0 _ unknown newConfig) as [r|] eqn:E; [|discriminate].
  injection H as <-. rewrite (unmarshalLines_count _ _ _ _ _ E). reflexivity.
Qed.

Lemma isOneOf_cons lhs k keys :
  isOneOf (k :: keys) lhs = (lhs == k) || isOneOf keys lhs.
Proof. reflexivity. Qed.

Lemma parseInterfaceLine_unknown cfg lhs rhs :
  isOneOf interfaceKeys lhs = false ->
  parseInterfaceLine cfg lhs rhs = Err (ErrUnknownDirective lhs).
Proof.
  unfold interfaceKeys. rewrite !isOneOf_cons. intros H.
  repeat (apply orb_false_elim in H as [? H]).
  unfold parseInterfaceLine.
  repeat match goal with
         | E : (lhs == ?k) = false |- _ => rewrite E; clear E
         end.
  reflexivity.
Qed.

Lemma parsePeerLine_unknown p lhs rhs :
  isOneOf peerKeys lhs = false ->
  parsePeerLine p lhs rhs = Err (ErrUnknownDirective lhs).
Proof.
  unfold peerKeys. rewrite !isOneOf_cons. intros H.
  repeat (apply orb_false_elim in H as [? H]).
  unfold parsePeerLine.
  repeat match goal with
         | E : (lhs == ?k) = false |- _ => rewrite E; clear E
         end.
  reflexivity.
Qed.

(** X3. A directive whose name the grammar of the current section does
    not know (names are case sensitive) makes [UnmarshalText] fail with
    the unknown-directive error, wrapped with the 1-based number of the
    line. *)
Theorem unknown_directive_fails (text : gostring) (pre post : list gostring)
  (line lhs rhs : gostring) (st : parseState) (cfg : Config) :
  strings.Split text "010" = pre ++ line :: post ->
  unmarshalLines 0 pre unknown newConfig = Ok (st, cfg) ->
  isDirective line lhs rhs ->
  (st = inter /\ isOneOf interfaceKeys lhs = false)
  \/ (st = peer /\ isOneOf peerKeys lhs = false) ->
  UnmarshalText text
  = Err (ErrLine (Z.of_nat (length pre) + 1) (ErrUnknownDirective lhs)).
Proof.
  intros Hsplit Hpre [Hs Hkv] Hcase. unfold UnmarshalText.
  rewrite Hsplit, unmarshalLines_app, Hpre. cbn [bind fst snd unmarshalLines].
  rewrite (unmarshalLine_key_value _ _ _ _ _ _ Hs Hkv). unfold dispatchLine.
  rewrite Z.add_0_l.
  destruct Hcase as [[-> Hk]|[-> Hk]].
  - rewrite (parseInterfaceLine_unknown _ _ _ Hk). reflexivity.
  - destruct (unmarshalLines_peerReady _ _ _ _ _ peerReady_start Hpre eq_refl)
      as (ps & p & Hp).
    unfold parseLastPeer. cbn [fst snd] in Hp. rewrite Hp, last_snoc.
    rewrite (parsePeerLine_unknown _ _ _ Hk). reflexivity.
Qed.

Lemma unmarshalLines_skipped lines : forall no st cfg,
  forallb isSkipped lines = true ->
  unmarshalLines no lines st cfg = Ok (st, cfg).
Proof.
  induction lines as [|l lines IH]; intros no st cfg H; [reflexivity|].
  simpl in H. apply andb_prop in H as [Hl Hall].
  cbn [unmarshalLines]. rewrite (unmarshalLine_skipped _ _ _ _ Hl).
  cbn [bind fst snd]. apply IH, Hall.
Qed.

(** X4. A directive that comes before any section header (after blank
    lines and comments only) makes [UnmarshalText] fail with the
    unknown-state error and the 1-based number of the line, whatever the
    directive is. *)
Theorem directive_before_section_fails (text : gostring)
  (pre post : list gostring) (line lhs rhs : gostring) :
  strings.Split text "010" = pre ++ line :: post ->
  forallb isSkipped pre = true ->
  isDirective line lhs rhs ->
  UnmarshalText text = Err (ErrUnknownState (Z.of_nat (length pre) + 1)).
Proof.
  intros Hsplit Hpre [Hs Hkv]. unfold UnmarshalText.
  rewrite Hsplit, unmarshalLines_app, (unmarshalLines_skipped _ _ _ _ Hpre).
  cbn [bind fst snd unmarshalLines].
  rewrite (unmarshalLine_key_value _ _ _ _ _ _ Hs Hkv). unfold dispatchLine.
  rewrite Z.add_0_l. reflexivity.
Qed.

(** The number of a line matters for the text of an error only. *)
Lemma unmarshalLine_Ok_any_no no no' st cfg line r :
  unmarshalLine no st cfg line = Ok r -> unmarshalLine no' st cfg line = Ok r.
Proof.
  unfold unmarshalLine.
  destruct (skipped _); [auto|].
  destruct (_ == "[Interface]"); [auto|].
  destruct (_ == "[Peer]"); [auto|].
  destruct (splitKeyValue _) as [[lhs rhs]|]; [|discriminate].
  unfold dispatchLine. destruct st; [discriminate| |].
  - destruct (parseInterfaceLine cfg lhs rhs); simpl; [auto|discriminate].
  - destruct (parseLastPeer cfg lhs rhs); simpl; [auto|discriminate].
Qed.

Lemma unmarshalLines_Ok_any_no lines : forall no no' st cfg r,
  unmarshalLines no lines st cfg = Ok r -> unmarshalLines no' lines st cfg = Ok r.
Proof.
  induction lines as [|l lines IH]; intros no no' st cfg r H; [exact H|].
  cbn [unmarshalLines] in H |- *.
  destruct (unmarshalLine no st cfg l) as [r1|] eqn:E; [|discriminate].
  rewrite (unmarshalLine_Ok_any_no _ no' _ _ _ _ E). cbn [bind] in H |- *.
  apply (IH _ _ _ _ _ H).
Qed.

Lemma unmarshalLines_drop_skipped no pre line post r :
  isSkipped line = true ->
  (unmarshalLines no (pre ++ line :: post) unknown newConfig = Ok r
   <-> unmarshalLines no (pre ++ post) unknown newConfig = Ok r).
Proof.
  intros Hl. rewrite !unmarshalLines_app.
  destruct (unmarshalLines no pre unknown newConfig) as [r1|]; [|reflexivity].
  cbn [bind unmarshalLines]. rewrite (unmarshalLine_skipped _ _ _ _ Hl).
  cbn [bind fst snd]. split; apply unmarshalLines_Ok_any_no.
Qed.

(** X5. A blank line or a comment line changes nothing in what is
    decoded: the text with the line and the text without it decode to
    the same configuration, or both fail. *)
Theorem skipped_line_is_ignored (text text' : gostring)
  (pre post : list gostring) (line : gostring) :
  strings.Split text "010" = pre ++ line :: post ->
  strings.Split text' "010" = pre ++ post ->
  isSkipped line = true ->
  forall c, UnmarshalText text = Ok c <-> UnmarshalText text' = Ok c.
Proof.
  intros Hs Hs' Hl c. unfold UnmarshalText. rewrite Hs, Hs'.
  destruct (unmarshalLines 0 (pre ++ line :: post) unknown newConfig) as [r|] eqn:E.
  - apply (unmarshalLines_drop_skipped 0 pre line post r Hl) in E.
    rewrite E. reflexivity.
  - destruct (unmarshalLines 0 (pre ++ post) unknown newConfig) as [r'|] eqn:E'.
    + apply (unmarshalLines_drop_skipped 0 pre line post r' Hl) in E'.
      rewrite E' in E. discriminate.
    + split; discriminate.
Qed.

End DecoderInvariants.

(** * Further properties of the field grammars *)

Section FieldGrammars.

Context {net : NetLib} {provider : Provider}.

(** The lines [key = cmd] of one hook directive, read in an interface
    section: each command is appended. *)
Lemma seg_hook_lines key (get : Config -> list gostring)
  (set : list gostring -> Config -> Config) cmds :
  isKeyName key = true ->
  (forall cfg v, parseInterfaceLine cfg key v = Ok (set (get cfg ++ [v]) cfg)) ->
  (forall cfg v, get (set v cfg) = v) ->
  (forall cfg v w, set v (set w cfg) = set v cfg) ->
  (forall cfg, set (get cfg) cfg = cfg) ->
  Forall (fun s => trimmed s = true) cmds ->
  forall no cfg,
    unmarshalLines no (map (kvLine key) cmds) inter cfg
    = Ok (inter, set (get cfg ++ cmds) cfg).
Proof.
  intros Hkey Hparse Hget Hset Hid Hcmds.
  induction Hcmds as [|s cmds Hs Hcmds IH]; intros no cfg.
  - rewrite app_nil_r, Hid. reflexivity.
  - cbn [map].
    rewrite (unmarshalLines_cons _ _ _ _ _ inter (set (get cfg ++ [s]) cfg)).
    + rewrite IH, Hget, Hset, <- app_assoc. reflexivity.
    + apply unmarshalLine_inter_kv; [exact Hkey|exact Hs|apply Hparse].
Qed.

Lemma hook_text key (get : Config -> list gostring)
  (set : list gostring -> Config -> Config) cmds :
  isKeyName key = true -> contains "010" key = false ->
  (forall cfg v, parseInterfaceLine cfg key v = Ok (set (get cfg ++ [v]) cfg)) ->
  (forall cfg v, get (set v cfg) = v) ->
  (forall cfg v w, set v (set w cfg) = set v cfg) ->
  (forall cfg, set (get cfg) cfg = cfg) ->
  get newConfig = [] ->
  Forall (fun s => oneLine s = true) cmds ->
  UnmarshalText ("[Interface]" ++ afterNl (map (kvLine key) cmds))
  = Ok (set cmds newConfig).
Proof.
  intros Hkey Hnl Hparse Hget Hset Hid Hnew Hcmds. unfold UnmarshalText.
  rewrite Split_afterNl; [|reflexivity|].
  2: { induction Hcmds as [|s cmds Hs Hcmds IH]; [reflexivity|].
       cbn [map forallb]. rewrite IH. apply oneLine_inv in Hs as [_ Hs].
       rewrite (noNl_kvLine key s Hnl Hs). reflexivity. }
  rewrite (unmarshalLines_cons _ _ _ _ _ inter newConfig) by reflexivity.
  rewrite (seg_hook_lines key get set cmds Hkey Hparse Hget Hset Hid).
  - cbn [bind snd]. rewrite Hnew. reflexivity.
  - eapply Forall_impl; [exact Hcmds|]. intros s Hs. apply oneLine_inv, Hs.
Qed.

(** X6. The lines of a hook directive add up: an interface section with
    one [PreUp] (or [PostUp], [PreDown], [PostDown]) line per command
    decodes to the list of the commands, in the order of the lines. *)
Theorem hook_lines_accumulate (cmds : list gostring) :
  Forall (fun s => oneLine s = true) cmds ->
  UnmarshalText ("[Interface]" ++ afterNl (map (kvLine "PreUp") cmds))
  = Ok (set_PreUp cmds newConfig)
  /\ UnmarshalText ("[Interface]" ++ afterNl (map (kvLine "PostUp") cmds))
     = Ok (set_PostUp cmds newConfig)
  /\ UnmarshalText ("[Interface]" ++ afterNl (map (kvLine "PreDown") cmds))
     = Ok (set_PreDown cmds newConfig)
  /\ UnmarshalText ("[Interface]" ++ afterNl (map (kvLine "PostDown") cmds))
     = Ok (set_PostDown cmds newConfig).
Proof.
  intros H. repeat split.
  - apply (hook_text "PreUp" PreUp set_PreUp); try reflexivity; try exact H.
    intros cfg. destruct cfg. reflexivity.
  - apply (hook_text "PostUp" PostUp set_PostUp); try reflexivity; try exact H.
    intros cfg. destruct cfg. reflexivity.
  - apply (hook_text "PreDown" PreDown set_PreDown); try reflexivity; try exact H.
    intros cfg. destruct cfg. reflexivity.
  - apply (hook_text "PostDown" PostDown set_PostDown); try reflexivity; try exact H.
    intros cfg. destruct cfg. reflexivity.
Qed.

Lemma parseCIDRs_spelled wrap ss ips :
  Forall2 spellsCIDR ss ips ->
  forall acc, parseCIDRs wrap ss acc = Ok (acc ++ ips).
Proof.
  intros H. induction H as [|s a ss ips (_ & Hp) _ IH]; intros acc.
  - rewrite app_nil_r. reflexivity.
  - cbn [parseCIDRs]. rewrite Hp, IH, <- app_assoc. destruct a. reflexivity.
Qed.

Lemma spelled_no_comma ss ips :
  Forall2 spellsCIDR ss ips ->
  forallb (fun l => negb (contains "," l)) ss = true.
Proof.
  intros H. induction H as [|s a ss ips (Hc & _) _ IH]; [reflexivity|].
  cbn [forallb]. rewrite Hc, IH. reflexivity.
Qed.

(** X7. A comma-separated value of [Address] or [AllowedIPs] is read
    element by element, white space around an element not counting, and
    the addresses are appended in the order they are written. *)
Theorem comma_separated_addresses (ss : list gostring) (ips : list IPNet) :
  ss <> [] -> Forall2 spellsCIDR ss ips ->
  (forall cfg,
      parseInterfaceLine cfg "Address" (strings.Join ss ",")
      = Ok (set_Address (Address cfg ++ ips) cfg))
  /\ (forall p,
        parsePeerLine p "AllowedIPs" (strings.Join ss ",")
        = Ok (set_AllowedIPs (AllowedIPs p ++ ips) p)).
Proof.
  intros Hne H.
  assert (Hs : strings.Split (strings.Join ss ",") "," = ss).
  { change (String.list_ascii_of_string ",") with [","%char].
    apply Split_Join; [exact Hne|apply (spelled_no_comma ss ips H)]. }
  split.
  - intros cfg. unfold parseInterfaceLine. eval_eqb.
    rewrite Hs, (parseCIDRs_spelled _ ss ips H). reflexivity.
  - intros p. unfold parsePeerLine. eval_eqb.
    rewrite Hs, (parseCIDRs_spelled _ ss ips H). reflexivity.
Qed.



Lemma Encode_length src :
  length (base64.Encode src) = 4 * ((length src + 2) / 3).
Proof.
  induction src as [|b0|b0 b1|b0 b1 b2 src IH] using list_ind3;
    try reflexivity.
  cbn [base64.Encode length]. cbv zeta. cbn [length]. rewrite IH.
  replace (S (S (S (length src))) + 2) with (length src + 2 + 1 * 3) by lia.
  rewrite Nat.div_add by discriminate. lia.
Qed.

(** X9. A key of 32 bytes is written as 44 characters of base64, and
    both parsers of keys, [ParseKey] and [wgtypes.ParseKey], read it
    back. *)
Theorem key_text_roundtrip (k : wgtypes.Key) :
  length k = wgtypes.KeyLen ->
  length (serializeKey k) = 44
  /\ ParseKey (serializeKey k) = Ok k
  /\ wgtypes.ParseKey (wgtypes.Key_String k) = Ok k.
Proof.
  intros Hk. split; [|split].
  - unfold serializeKey, base64.EncodeToString. rewrite Encode_length, Hk.
    reflexivity.
  - apply ParseKey_serializeKey, Hk.
  - unfold wgtypes.ParseKey, wgtypes.Key_String.
    rewrite DecodeString_EncodeToString, Hk, Nat.eqb_refl, (copyKey_full k Hk).
    reflexivity.
Qed.



End FieldGrammars.

(** * Further properties of the store and of the endpoint extractor *)

Section StoreExtras.

Context {net : NetLib} {provider : Provider}.

Lemma matchFiles_values pattern files : forall cfgs m,
  matchFiles pattern files cfgs = Returns m ->
  (forall k c, cfgs !! k = Some c -> GetConfig k = Ok c) ->
  forall k c, m !! k = Some c -> GetConfig k = Ok c.
Proof.
  induction files as [|file files IH]; intros cfgs m H Hinv k c Hk.
  - simpl in H. injection H as <-. eauto.
  - cbn [matchFiles] in H. destruct (isConfName file) eqn:Econf; cbn [negb] in H.
    2: exact (IH _ _ H Hinv k c Hk).
    destruct (proj1 (isConfName_spec file) Econf) as [Hlen [b Hb]].
    rewrite Hb, baseName_conf in H.
    destruct (regexp_Match pattern b) as [[|]|e]; try discriminate.
    2: exact (IH _ _ H Hinv k c Hk).
    destruct (ReadFile _) as [text|e] eqn:Er; [|discriminate].
    destruct (UnmarshalText text) as [c0|e] eqn:Eu; [|discriminate].
    apply (IH _ _ H); [|exact Hk].
    intros k' c' Hk'. destruct (decide (b = k')) as [<-|Hne].
    + rewrite lookup_insert_eq in Hk'. injection Hk' as <-.
      unfold GetConfig, confPath. rewrite Er, Eu. reflexivity.
    + rewrite lookup_insert_ne in Hk' by exact Hne. eauto.
Qed.

(** X12. Every configuration in the mapping that [MatchConfig] returns is
    the one that [GetConfig] returns for its key: both read
    [/etc/wireguard/<key>.conf] and decode it. *)
Theorem MatchConfig_agrees_with_GetConfig (pattern : gostring)
  (m : gmap gostring Config) (k : gostring) (c : Config) :
  MatchConfig pattern = Returns m -> m !! k = Some c -> GetConfig k = Ok c.
Proof.
  unfold MatchConfig. destruct ReadDir as [files|e]; [|discriminate].
  intros H Hk. apply (matchFiles_values _ _ _ _ H); [|exact Hk].
  intros k' c' Hk'. rewrite lookup_empty in Hk'. discriminate.
Qed.

Lemma matchFiles_fatal pattern files : forall cfgs,
  matchFiles pattern files cfgs = Fatal <-> Exists (exitsOn pattern) files.
Proof.
  induction files as [|file files IH]; intros cfgs.
  - simpl. split; [discriminate|]. intros H. inversion H.
  - rewrite Exists_cons. cbn [matchFiles]. unfold exitsOn at 1.
    destruct (isConfName file) eqn:Econf; cbn [negb].
    2: { rewrite IH. split; [auto|]. intros [[? _]|H]; [discriminate|exact H]. }
    destruct (proj1 (isConfName_spec file) Econf) as [Hlen [b Hb]].
    rewrite Hb, baseName_conf. unfold GetConfig, confPath.
    destruct (regexp_Match pattern b) as [[|]|e] eqn:Em.
    + destruct (ReadFile _) as [text|e] eqn:Er.
      * destruct (UnmarshalText text) as [c|e] eqn:Eu.
        -- rewrite IH. split; [auto|].
           intros [(_ & [[e H]|[_ [e H]]])|H]; [discriminate|discriminate|exact H].
        -- split; [|reflexivity]. intros _. left. split; [reflexivity|].
           right. split; [reflexivity|]. eexists. reflexivity.
      * split; [|reflexivity]. intros _. left. split; [reflexivity|].
        right. split; [reflexivity|]. eexists. reflexivity.
    + rewrite IH. split; [auto|].
      intros [(_ & [[e H]|[H _]])|H]; [discriminate|discriminate|exact H].
    + split; [|reflexivity]. intros _. left. split; [reflexivity|].
      left. eexists. reflexivity.
Qed.

(** X13. [MatchConfig] ends the process (through [logrus.Fatalln]) in
    these cases and no other: the directory cannot be read; or the
    directory holds a name of at least six bytes ending in [.conf] on
    whose shortened name the anchored pattern fails, or whose shortened
    name it matches while the file cannot be read or decoded (which is
    when [GetConfig] fails on that name).  Entries that are skipped or
    not matched are never read. *)
Theorem MatchConfig_exits_iff (pattern : gostring) :
  MatchConfig pattern = Fatal
  <-> (exists e, ReadDir = Err e)
      \/ (exists files, ReadDir = Ok files
            /\ Exists (exitsOn (anchored pattern)) files).
Proof.
  unfold MatchConfig. destruct ReadDir as [files|e].
  - rewrite matchFiles_fatal. split.
    + intros H. right. exists files. auto.
    + intros [[e H]|(fs & H & Hex)]; [discriminate|].
      injection H as <-. exact Hex.
  - split; [|reflexivity]. intros _. left. exists e. reflexivity.
Qed.

End StoreExtras.

Section ExtractorExtras.

Context {net : NetLib} {provider : Provider}.

Lemma token_nonempty s : token s = true -> (s == "") = false.
Proof.
  intros H. apply gostring_eqb_neq. intros ->. discriminate.
Qed.

Lemma token_noNl s : token s = true -> contains "010" s = false.
Proof.
  intros H. apply token_oneLine in H. unfold oneLine in H.
  apply andb_prop in H as [_ H]. apply negb_true_iff in H. exact H.
Qed.

(** X14. Within a peer block the public key and the endpoint may come in
    either order, and a later block with the same key replaces the
    endpoint of an earlier one: the file that gives key [K] with endpoint
    [e1] and then endpoint [e2] with key [K] yields exactly the mapping
    of the parsed key to [e2]. *)
Theorem later_block_replaces_endpoint (name K e1 e2 : gostring)
  (k : wgtypes.Key) :
  ReadFile (confPath name) = Ok (samePeerTwice K e1 e2) ->
  token K = true -> token e1 = true -> token e2 = true ->
  wgtypes.ParseKey K = Ok k ->
  GetUnresolvedEndpoints name = Ok {[ k := e2 ]}.
Proof.
  intros Hfile HK He1 He2 Hkey.
  unfold GetUnresolvedEndpoints. rewrite Hfile.
  unfold extractEndpoints, samePeerTwice, nl.
  rewrite Split_Join.
  2: discriminate.
  2: { cbn [forallb]. rewrite !contains_kvLine.
       rewrite (token_noNl K HK), (token_noNl e1 He1), (token_noNl e2 He2).
       reflexivity. }
  pose proof (token_nonempty K HK) as HKne.
  pose proof (token_nonempty e1 He1) as He1ne.
  pose proof (token_nonempty e2 He2) as He2ne.
  cbn [endpointsLines].
  rewrite endpointsLine_Peer. cbn [bind].
  rewrite endpointsLine_kvLine by (auto using token_trimmed).
  eval_eqb. cbn [scan_endpoint scan_pubkey unresolvedEndpoints].
  rewrite HKne. eval_eqb. cbn [orb bind].
  rewrite endpointsLine_kvLine by (auto using token_trimmed).
  eval_eqb. cbn [scan_endpoint scan_pubkey unresolvedEndpoints].
  rewrite HKne, He1ne. cbn [orb]. rewrite Hkey. cbn [wrapErr bind].
  rewrite endpointsLine_Peer. cbn [bind unresolvedEndpoints].
  rewrite endpointsLine_kvLine by (auto using token_trimmed).
  eval_eqb. cbn [scan_endpoint scan_pubkey unresolvedEndpoints].
  eval_eqb. cbn [orb bind].
  rewrite endpointsLine_kvLine by (auto using token_trimmed).
  eval_eqb. cbn [scan_endpoint scan_pubkey unresolvedEndpoints].
  rewrite HKne, He2ne. cbn [orb]. rewrite Hkey. cbn [wrapErr bind].
  cbn [unresolvedEndpoints].
  rewrite insert_insert_eq, insert_empty. reflexivity.
Qed.

(** X15. The public key of a peer is checked only when the peer has an
    endpoint: with an endpoint, a key text that [wgtypes.ParseKey]
    rejects makes [GetUnresolvedEndpoints] fail with that error; without
    one the same key text is passed over and the result is empty. *)
Theorem key_checked_only_with_endpoint (name1 name2 K e : gostring)
  (err : error) :
  ReadFile (confPath name1) = Ok (onePeer K e) ->
  ReadFile (confPath name2) = Ok (keyOnly K) ->
  token K = true -> token e = true ->
  wgtypes.ParseKey K = Err err ->
  GetUnresolvedEndpoints name1 = Err (ErrParseKey err)
  /\ GetUnresolvedEndpoints name2 = Ok ∅.
Proof.
  intros Hf1 Hf2 HK He Hkey.
  pose proof (token_nonempty K HK) as HKne.
  pose proof (token_nonempty e He) as Hene.
  unfold GetUnresolvedEndpoints. rewrite Hf1, Hf2.
  unfold extractEndpoints, onePeer, keyOnly, nl.
  rewrite !Split_Join.
  2: discriminate.
  2: { cbn [forallb]. rewrite !contains_kvLine, (token_noNl K HK). reflexivity. }
  2: discriminate.
  2: { cbn [forallb]. rewrite !contains_kvLine.
       rewrite (token_noNl K HK), (token_noNl e He). reflexivity. }
  split.
  - cbn [endpointsLines].
    rewrite endpointsLine_Peer. cbn [bind].
    rewrite endpointsLine_kvLine by (auto using token_trimmed).
    eval_eqb. cbn [scan_endpoint scan_pubkey unresolvedEndpoints].
    rewrite HKne. eval_eqb. cbn [orb bind].
    rewrite endpointsLine_kvLine by (auto using token_trimmed).
    eval_eqb. cbn [scan_endpoint scan_pubkey unresolvedEndpoints].
    rewrite HKne, Hene. cbn [orb]. rewrite Hkey. reflexivity.
  - cbn [endpointsLines].
    rewrite endpointsLine_Peer. cbn [bind].
    rewrite endpointsLine_kvLine by (auto using token_trimmed).
    eval_eqb. cbn [scan_endpoint scan_pubkey unresolvedEndpoints].
    rewrite HKne. eval_eqb. cbn [orb bind]. reflexivity.
Qed.

End ExtractorExtras.

(** * The endpoint extractor on the text of the encoder *)

Section ExtractorOnEncoding.

Context {net : NetLib} {provider : Provider}.

Lemma Ok_inj {A} (a b : A) : Ok a = Ok b -> a = b.
Proof. intros H. injection H as H. exact H. Qed.

Lemma kvLine_notHeader key value :
  isKeyName key = true -> trimmed value = true -> notHeader (kvLine key value).
Proof.
  intros Hk Hv. destruct (kvLine_scan key value Hk Hv) as (Ht & _ & Hkv).
  unfold notHeader. rewrite Ht.
  apply contains_eq_not_header, (splitKeyValue_Some_contains _ _ Hkv).
Qed.

Lemma optLines_notHeader {A} key (show : A -> gostring) v :
  isKeyName key = true -> optHolds (fun x => trimmed (show x) = true) v ->
  Forall notHeader (optLines key show v).
Proof.
  intros Hk Hv. destruct v as [x|]; cbn [optLines]; [|constructor].
  constructor; [|constructor]. apply kvLine_notHeader; assumption.
Qed.

Lemma condLines_notHeader {A} key truthy (show : A -> gostring) v :
  isKeyName key = true -> trimmed (show v) = true ->
  Forall notHeader (condLines key truthy show v).
Proof.
  intros Hk Hv. unfold condLines. destruct (truthy v); [|constructor].
  constructor; [|constructor]. apply kvLine_notHeader; assumption.
Qed.

Lemma interfaceLines_notHeader c key :
  printable c -> isKey key -> Forall notHeader (interfaceLines c key).
Proof.
  intros (_ & Hlp & Hmtu & Htbl & Haddr & Hdns & _) Hkey.
  unfold interfaceLines. repeat (apply Forall_app; split).
  - apply List.Forall_map. eapply Forall_impl; [exact Haddr|].
    intros a (Hl & _). apply kvLine_notHeader; [reflexivity|].
    apply oneLine_inv, Hl.
  - apply List.Forall_map. eapply Forall_impl; [exact Hdns|].
    intros d (Hl & _). apply kvLine_notHeader; [reflexivity|].
    apply oneLine_inv, Hl.
  - constructor; [|constructor].
    apply kvLine_notHeader; [reflexivity|apply serializeKey_trimmed, Hkey].
  - apply optLines_notHeader; [reflexivity|].
    eapply optHolds_impl; [|exact Hlp]. apply FormatInt_trimmed.
  - apply condLines_notHeader; [reflexivity|apply FormatInt_trimmed, Hmtu].
  - apply optLines_notHeader; [reflexivity|].
    eapply optHolds_impl; [|exact Htbl]. apply FormatInt_trimmed.
  - apply condLines_notHeader; [reflexivity|apply printStrings_trimmed].
  - apply condLines_notHeader; [reflexivity|apply printStrings_trimmed].
  - apply condLines_notHeader; [reflexivity|apply printStrings_trimmed].
  - apply condLines_notHeader; [reflexivity|apply printStrings_trimmed].
  - unfold condLines, id. destruct (SaveConfig c); [|constructor].
    constructor; [|constructor]. apply kvLine_notHeader; reflexivity.
Qed.

(** Outside a peer section the lines that are no headers are passed
    over. *)
Lemma endpointsLines_outside lines : forall no s,
  Forall notHeader lines -> scan_state s <> peer ->
  endpointsLines no lines s = Ok s.
Proof.
  induction lines as [|l lines IH]; intros no s H Hs; [reflexivity|].
  inversion H as [|? ? [Hi Hp] Hrest]; subst. cbn [endpointsLines].
  rewrite (endpointsLine_outside no s l Hs Hi Hp). cbn [bind].
  apply IH; assumption.
Qed.

(** In a peer section with a public key and no endpoint yet, a directive
    other than [PublicKey] and [Endpoint] changes nothing. *)
Lemma endpointsLine_other no key value pub m :
  isKeyName key = true -> trimmed value = true ->
  (key == "PublicKey") = false -> (key == "Endpoint") = false ->
  endpointsLine no (mkScan peer [] pub m) (kvLine key value)
  = Ok (mkScan peer [] pub m).
Proof.
  intros Hk Hv Hp He.
  rewrite endpointsLine_kvLine by (try reflexivity; assumption).
  rewrite Hp, He. cbn [scan_endpoint scan_pubkey unresolvedEndpoints].
  eval_eqb. rewrite orb_true_r. reflexivity.
Qed.

Lemma endpointsLines_other_opt {A} no key (show : A -> gostring) v pub m :
  isKeyName key = true -> optHolds (fun x => trimmed (show x) = true) v ->
  (key == "PublicKey") = false -> (key == "Endpoint") = false ->
  endpointsLines no (optLines key show v) (mkScan peer [] pub m)
  = Ok (mkScan peer [] pub m).
Proof.
  intros Hk Hv Hp He. destruct v as [x|]; cbn [optLines endpointsLines];
    [|reflexivity].
  rewrite (endpointsLine_other no key (show x) pub m Hk Hv Hp He).
  reflexivity.
Qed.

Lemma wgtypes_ParseKey_serializeKey (k : wgtypes.Key) :
  isKey k -> wgtypes.ParseKey (serializeKey k) = Ok k.
Proof.
  intros Hk. unfold wgtypes.ParseKey, serializeKey.
  rewrite DecodeString_EncodeToString, Hk, Nat.eqb_refl, (copyKey_full k Hk).
  reflexivity.
Qed.

(** The lines of one peer: its endpoint, when it has one, is committed
    under its public key. *)
Lemma endpoints_peer p no s :
  printablePeer p ->
  exists s', endpointsLines no (peerLines p) s = Ok s'
             /\ unresolvedEndpoints s' = withEndpoint p (unresolvedEndpoints s).
Proof.
  intros (Hpk & Hpsk & Hne & Hips & Hep & Hka). unfold peerLines.
  cbn [app endpointsLines].
  rewrite endpointsLine_blank. cbn [bind].
  rewrite endpointsLine_Peer. cbn [bind].
  pose proof (serializeKey_trimmed _ Hpk) as Hkt.
  assert (Hkne : (serializeKey (PublicKey p) == "") = false).
  { apply gostring_eqb_neq. intros E. rewrite E in Hkt. discriminate. }
  rewrite endpointsLine_kvLine by (try reflexivity; assumption).
  eval_eqb. cbn [scan_endpoint scan_pubkey]. rewrite Hkne. eval_eqb.
  cbn [orb bind].
  rewrite endpointsLine_other;
    [|reflexivity|apply allowedIPs_trimmed; assumption|reflexivity|reflexivity].
  cbn [bind]. rewrite endpointsLines_app.
  rewrite endpointsLines_other_opt; [|reflexivity| |reflexivity|reflexivity].
  2: { eapply optHolds_impl; [|exact Hpsk]. intros k Hk.
       apply serializeKey_trimmed, Hk. }
  cbn [bind]. rewrite endpointsLines_app.
  rewrite endpointsLines_other_opt; [|reflexivity| |reflexivity|reflexivity].
  2: { eapply optHolds_impl; [|exact Hka]. intros d Hd.
       apply FormatInt_trimmed, toSeconds_int64, Hd. }
  cbn [bind]. unfold withEndpoint.
  destruct (Endpoint p) as [a|]; cbn [optLines endpointsLines].
  - destruct Hep as (Hl & _). apply oneLine_inv in Hl as [Hat _].
    assert (Hane : (UDPAddr_String a == "") = false).
    { apply gostring_eqb_neq. intros E. rewrite E in Hat. discriminate. }
    rewrite endpointsLine_kvLine by (try reflexivity; assumption).
    eval_eqb. cbn [scan_endpoint scan_pubkey]. rewrite Hkne, Hane.
    cbn [orb]. rewrite (wgtypes_ParseKey_serializeKey _ Hpk).
    cbn [wrapErr bind]. eexists. split; reflexivity.
  - eexists. split; reflexivity.
Qed.

Lemma endpoints_peers ps : forall no s,
  Forall printablePeer ps ->
  exists s', endpointsLines no (concat (map peerLines ps)) s = Ok s'
             /\ unresolvedEndpoints s' = endpointsOf ps (unresolvedEndpoints s).
Proof.
  induction ps as [|p ps IH]; intros no s H.
  - exists s. split; reflexivity.
  - inversion H as [|? ? Hp Hps]; subst. cbn [map concat].
    rewrite endpointsLines_app.
    destruct (endpoints_peer p no s Hp) as (s1 & -> & E1). cbn [bind].
    destruct (IH (no + Z.of_nat (length (peerLines p)))%Z s1 Hps)
      as (s2 & -> & E2).
    exists s2. split; [reflexivity|]. rewrite E2, E1. reflexivity.
Qed.

(** X16. The extractor agrees with the encoder: on a file that holds the
    text [MarshalText] writes for a configuration the encoder can write,
    [GetUnresolvedEndpoints] returns the endpoint of every peer that has
    one, as [net] prints it, under the peer's public key (a later peer
    with the same key replacing an earlier one), and nothing else. *)
Theorem endpoints_of_encoding (name text : gostring) (c : Config) :
  printable c ->
  MarshalText c = Ok text ->
  ReadFile (confPath name) = Ok text ->
  GetUnresolvedEndpoints name = Ok (endpointsOf (Peers c) ∅).
Proof.
  intros Hp Hm Hfile.
  pose proof Hp as ((key & Hk & Hkey) & _ & _ & _ & _ & _ & _ & _ & _ & _ & Hpeers).
  rewrite (MarshalText_lines c key Hk) in Hm. apply Ok_inj in Hm. subst text.
  unfold GetUnresolvedEndpoints. rewrite Hfile. unfold extractEndpoints.
  rewrite Split_afterNl; [|reflexivity|apply bodyLines_noNl; assumption].
  cbn [endpointsLines]. unfold bodyLines.
  change (endpointsLine 0 (mkScan unknown [] [] ∅) "[Interface]")
    with (Ok (mkScan inter [] [] ∅) : result scan).
  cbn [bind]. rewrite endpointsLines_app.
  rewrite endpointsLines_outside;
    [|apply interfaceLines_notHeader; assumption|discriminate].
  cbn [bind]. rewrite endpointsLines_app.
  match goal with
  | |- context [endpointsLines ?no (concat (map peerLines (Peers c))) ?s] =>
      destruct (endpoints_peers (Peers c) no s Hpeers) as (s' & -> & E)
  end.
  cbn [bind endpointsLines]. rewrite endpointsLine_blank. cbn [bind].
  rewrite E. reflexivity.
Qed.

End ExtractorOnEncoding.

(** * Where the readers and the writer disagree *)

Section Disagreements.

Context {net : NetLib} {provider : Provider}.

(** X17. The two readers disagree on a public key whose base64 text does
    not decode to 32 bytes: for a peer with such a key and an endpoint,
    [GetConfig] returns a configuration whose peer has the decoded bytes
    padded or cut to 32, and [GetUnresolvedEndpoints] fails on the same
    file with the key-size error of [wgtypes.ParseKey]. *)
Theorem readers_disagree_on_key_size (name K e : gostring)
  (b : list ascii) (a : UDPAddr) :
  ReadFile (confPath name) = Ok (onePeer K e) ->
  token K = true -> token e = true ->
  base64.DecodeString K = Ok b -> length b <> wgtypes.KeyLen ->
  ResolveUDPAddr e = Ok a ->
  GetConfig name
  = Ok (set_Peers [set_Endpoint (Some a)
                     (set_PublicKey (wgtypes.copyKey b) zeroPeer)] newConfig)
  /\ GetUnresolvedEndpoints name
     = Err (ErrParseKey (ErrKeySize (length b))).
Proof.
  intros Hfile HK He Hb Hlen Ha.
  pose proof (token_nonempty K HK) as HKne.
  pose proof (token_nonempty e He) as Hene.
  assert (Hsplit : strings.Split (onePeer K e) "010"
                   = [ "[Peer]" : gostring; kvLine "PublicKey" K;
                       kvLine "Endpoint" e ]).
  { unfold onePeer, nl. apply Split_Join; [discriminate|].
    cbn [forallb]. rewrite !contains_kvLine.
    rewrite (token_noNl K HK), (token_noNl e He). reflexivity. }
  split.
  - unfold GetConfig. rewrite Hfile. unfold UnmarshalText. rewrite Hsplit.
    rewrite (unmarshalLines_cons _ _ _ _ _ peer
               (set_Peers ([] ++ [zeroPeer]) newConfig)) by reflexivity.
    rewrite (unmarshalLines_cons _ _ _ _ _ peer
               (set_Peers ([] ++ [set_PublicKey (wgtypes.copyKey b) zeroPeer])
                  newConfig)).
    2: { apply unmarshalLine_peer_kv;
           [reflexivity|apply token_trimmed, HK|].
         unfold parsePeerLine, ParseKey. eval_eqb. rewrite Hb. reflexivity. }
    rewrite (unmarshalLines_cons _ _ _ _ _ peer
               (set_Peers ([] ++ [set_Endpoint (Some a)
                                    (set_PublicKey (wgtypes.copyKey b) zeroPeer)])
                  newConfig)).
    2: { apply unmarshalLine_peer_kv;
           [reflexivity|apply token_trimmed, He|].
         unfold parsePeerLine. eval_eqb. rewrite Ha. reflexivity. }
    reflexivity.
  - unfold GetUnresolvedEndpoints. rewrite Hfile. unfold extractEndpoints.
    rewrite Hsplit. cbn [endpointsLines].
    rewrite endpointsLine_Peer. cbn [bind].
    rewrite endpointsLine_kvLine by (auto using token_trimmed).
    eval_eqb. cbn [scan_endpoint scan_pubkey unresolvedEndpoints].
    rewrite HKne. eval_eqb. cbn [orb bind].
    rewrite endpointsLine_kvLine by (auto using token_trimmed).
    eval_eqb. cbn [scan_endpoint scan_pubkey unresolvedEndpoints].
    rewrite HKne, Hene. cbn [orb]. unfold wgtypes.ParseKey. rewrite Hb.
    apply Nat.eqb_neq in Hlen. rewrite Hlen. reflexivity.
Qed.

(** The lines of a text up to a point that a newline follows. *)
Lemma Split_afterNl_prefix pre : forall first R,
  contains "010" first = false -> forallb noNl pre = true -> R <> [] ->
  exists tl,
    strings.Split (first ++ afterNl (pre ++ R)) "010" = first :: pre ++ tl.
Proof.
  induction pre as [|l pre IH]; intros first R Hf Hpre HR.
  - destruct R as [|r R]; [contradiction|]. cbn [app].
    rewrite afterNl_cons. unfold nl.
    change (first ++ ["010"%char] ++ r ++ afterNl R)
      with (first ++ "010"%char :: r ++ afterNl R).
    rewrite (Split_app_sep first "010" _ Hf). eexists. reflexivity.
  - cbn [forallb] in Hpre. apply andb_prop in Hpre as [Hl Hpre].
    apply negb_true_iff in Hl. cbn [app].
    rewrite afterNl_cons. unfold nl.
    change (first ++ ["010"%char] ++ l ++ afterNl (pre ++ R))
      with (first ++ "010"%char :: l ++ afterNl (pre ++ R)).
    rewrite (Split_app_sep first "010" _ Hf).
    destruct (IH l R Hl Hpre HR) as [tl ->]. exists tl. reflexivity.
Qed.

(** X18. A peer without allowed IPs is written but not read back: the
    encoder writes the line [AllowedIPs = ] with an empty value, and the
    decoder fails on that line when [net.ParseCIDR] rejects the empty
    text (as Go's does), whatever comes after it. *)
Theorem peer_without_allowed_ips_is_not_read_back (c : Config)
  (ps rest : list PeerConfig) (p : PeerConfig) (e : error) :
  Peers c = ps ++ p :: rest ->
  printable (set_Peers ps c) ->
  isKey (PublicKey p) -> AllowedIPs p = [] ->
  ParseCIDR [] = Err e ->
  exists text n,
    MarshalText c = Ok text
    /\ UnmarshalText text = Err (ErrLine n (ErrCannotParse [] e)).
Proof.
  intros HP Hp Hpk Ha He.
  pose proof Hp as ((key & Hk & Hkey) & _).
  change (PrivateKey (set_Peers ps c)) with (PrivateKey c) in Hk.
  pose proof (reencode_canon _ Hp) as Hre.
  pose proof (bodyLines_noNl _ key Hp Hk) as HnoNl.
  unfold reencode in Hre.
  rewrite (MarshalText_lines (set_Peers ps c) key Hk) in Hre.
  cbn [bind] in Hre. unfold UnmarshalText in Hre.
  rewrite Split_afterNl in Hre; [|reflexivity|exact HnoNl].
  unfold bodyLines in Hre, HnoNl.
  change (Peers (set_Peers ps c)) with ps in Hre, HnoNl.
  change (interfaceLines (set_Peers ps c) key)
    with (interfaceLines c key) in Hre, HnoNl.
  rewrite app_assoc in Hre, HnoNl.
  set (L := interfaceLines c key ++ concat (map peerLines ps)) in *.
  rewrite forallb_app in HnoNl. apply andb_prop in HnoNl as [HL _].
  rewrite app_comm_cons, unmarshalLines_app in Hre.
  destruct (unmarshalLines 0 (("[Interface]" : gostring) :: L) unknown newConfig)
    as [[st1 cfg1]|e1] eqn:E1; [clear Hre|discriminate Hre].
  set (four := [ [] ; "[Peer]" : gostring;
                 kvLine "PublicKey" (serializeKey (PublicKey p));
                 kvLine "AllowedIPs" [] ]).
  set (R := optLines "PresharedKey" wgtypes.Key_String (PresharedKey p)
            ++ optLines "PersistentKeepalive"
                 (fun d => strconv.FormatInt (toSeconds d))
                 (PersistentKeepaliveInterval p)
            ++ optLines "Endpoint" UDPAddr_String (Endpoint p)
            ++ concat (map peerLines rest) ++ [[]]).
  assert (Hbody : bodyLines c key = (L ++ four) ++ R).
  { unfold bodyLines, L, four, R. rewrite HP, map_app, concat_app.
    cbn [map concat]. unfold peerLines at 2. rewrite Ha.
    rewrite <- !app_assoc. reflexivity. }
  assert (HR : R <> []).
  { unfold R. intros E. apply (f_equal (@length gostring)) in E.
    rewrite !length_app in E. simpl in E. lia. }
  assert (Hfour : forallb noNl four = true).
  { unfold four. cbn [forallb].
    rewrite noNl_kvLine; [reflexivity|reflexivity|apply serializeKey_noNl, Hpk]. }
  destruct (Split_afterNl_prefix (L ++ four) "[Interface]" R eq_refl) as [tl Hsplit];
    [rewrite forallb_app, HL, Hfour; reflexivity|exact HR|].
  exists ("[Interface]" ++ afterNl (bodyLines c key)). eexists.
  split; [apply MarshalText_lines, Hk|].
  unfold UnmarshalText. rewrite Hbody, Hsplit.
  rewrite <- (app_assoc L four tl).
  change (("[Interface]" : gostring) :: L ++ four ++ tl)
    with ((("[Interface]" : gostring) :: L) ++ four ++ tl).
  rewrite unmarshalLines_app, E1. cbn [bind fst snd].
  rewrite unmarshalLines_app. unfold four.
  rewrite (unmarshalLines_cons _ _ _ _ _ st1 cfg1) by reflexivity.
  rewrite (unmarshalLines_cons _ _ _ _ _ peer
             (set_Peers (Peers cfg1 ++ [zeroPeer]) cfg1)) by reflexivity.
  rewrite (unmarshalLines_cons _ _ _ _ _ peer
             (set_Peers (Peers cfg1 ++ [set_PublicKey (PublicKey p) zeroPeer])
                cfg1)).
  2: { apply (unmarshalLine_peer_kv _ cfg1 (Peers cfg1) zeroPeer);
         [reflexivity|apply serializeKey_trimmed, Hpk
         |apply parse_PublicKey, Hpk]. }
  cbn [unmarshalLines].
  rewrite (unmarshalLine_key_value _ _ _ _ "AllowedIPs" [])
    by reflexivity.
  unfold dispatchLine, parseLastPeer.
  cbn [Peers set_Peers]. rewrite last_snoc.
  unfold parsePeerLine. eval_eqb.
  change (strings.Split [] ",") with [@nil ascii].
  cbn [parseCIDRs].
  change (strings.TrimSpace []) with (@nil ascii). rewrite He.
  reflexivity.
Qed.

End Disagreements.

(** ** The further properties on concrete inputs *)

Lemma current_peer_exists_witness :
  strings.Split (strings.Join sample.twoHeaders nl) "010"
  = firstn 3 sample.twoHeaders ++ skipn 3 sample.twoHeaders
  /\ unmarshalLines (net := ipv4.net) 0 (firstn 3 sample.twoHeaders)
       unknown newConfig
     = Ok (peer, set_Peers [sample.firstPeer] newConfig)
  /\ exists ps p,
       Peers (net := ipv4.net) (set_Peers [sample.firstPeer] newConfig)
       = ps ++ [p].
Proof.
  assert (Hs : strings.Split (strings.Join sample.twoHeaders nl) "010"
               = firstn 3 sample.twoHeaders ++ skipn 3 sample.twoHeaders)
    by (vm_compute; reflexivity).
  assert (Hu : unmarshalLines (net := ipv4.net) 0 (firstn 3 sample.twoHeaders)
                 unknown newConfig
               = Ok (peer, set_Peers [sample.firstPeer] newConfig))
    by reflexivity.
  split; [exact Hs|]. split; [exact Hu|].
  exact (@current_peer_exists ipv4.net _ _ _ _ _ Hs Hu eq_refl).
Defined.

Lemma one_peer_per_header_witness :
  let c := set_Peers [sample.firstPeer; zeroPeer] (newConfig (net := ipv4.net)) in
  UnmarshalText (strings.Join sample.twoHeaders nl) = Ok c
  /\ countPeerHeaders
       (strings.Split (strings.Join sample.twoHeaders nl) "010") = 2
  /\ length (Peers c)
     = countPeerHeaders
         (strings.Split (strings.Join sample.twoHeaders nl) "010").
Proof.
  cbv zeta.
  assert (Hu : UnmarshalText (net := ipv4.net)
                 (strings.Join sample.twoHeaders nl)
               = Ok (set_Peers [sample.firstPeer; zeroPeer] newConfig))
    by reflexivity.
  split; [exact Hu|]. split; [vm_compute; reflexivity|].
  exact (@one_peer_per_header ipv4.net _ _ Hu).
Defined.

Lemma unknown_directive_fails_witness :
  isDirective "address = 10.0.0.1/24" "address" "10.0.0.1/24"
  /\ isOneOf interfaceKeys "address" = false
  /\ UnmarshalText (net := ipv4.net)
       ("[Interface]" ++ nl ++ "address = 10.0.0.1/24")
     = Err (ErrLine 2 (ErrUnknownDirective "address")).
Proof.
  assert (Hd : isDirective "address = 10.0.0.1/24" "address" "10.0.0.1/24")
    by (split; reflexivity).
  split; [exact Hd|]. split; [reflexivity|].
  exact (@unknown_directive_fails ipv4.net
           ("[Interface]" ++ nl ++ "address = 10.0.0.1/24")
           ["[Interface]" : gostring] [] "address = 10.0.0.1/24"
           "address" "10.0.0.1/24" inter newConfig
           eq_refl eq_refl Hd (or_introl (conj eq_refl eq_refl))).
Defined.

Lemma directive_before_section_fails_witness :
  isDirective "Address = 10.0.0.1/24" "Address" "10.0.0.1/24"
  /\ UnmarshalText (net := ipv4.net)
       ("# wg0" ++ nl ++ "Address = 10.0.0.1/24" ++ nl ++ "[Interface]")
     = Err (ErrUnknownState 2).
Proof.
  assert (Hd : isDirective "Address = 10.0.0.1/24" "Address" "10.0.0.1/24")
    by (split; reflexivity).
  split; [exact Hd|].
  exact (@directive_before_section_fails ipv4.net
           ("# wg0" ++ nl ++ "Address = 10.0.0.1/24" ++ nl ++ "[Interface]")
           ["# wg0" : gostring] ["[Interface]" : gostring]
           "Address = 10.0.0.1/24" "Address" "10.0.0.1/24"
           eq_refl eq_refl Hd).
Defined.

Lemma skipped_line_is_ignored_witness :
  let c := set_MTU 1400 (newConfig (net := ipv4.net)) in
  isSkipped "  # the tunnel" = true
  /\ UnmarshalText ("[Interface]" ++ nl ++ "MTU = 1400") = Ok c
  /\ UnmarshalText
       ("[Interface]" ++ nl ++ "  # the tunnel" ++ nl ++ "MTU = 1400")
     = Ok c.
Proof.
  cbv zeta.
  assert (Hu : UnmarshalText (net := ipv4.net)
                 ("[Interface]" ++ nl ++ "MTU = 1400")
               = Ok (set_MTU 1400 newConfig)) by reflexivity.
  split; [reflexivity|]. split; [exact Hu|].
  apply (@skipped_line_is_ignored ipv4.net
           ("[Interface]" ++ nl ++ "  # the tunnel" ++ nl ++ "MTU = 1400")
           ("[Interface]" ++ nl ++ "MTU = 1400")
           ["[Interface]" : gostring] ["MTU = 1400" : gostring]
           "  # the tunnel" eq_refl eq_refl eq_refl).
  exact Hu.
Defined.

Lemma hook_lines_accumulate_witness :
  let cmds := ["ip rule add from 10.0.0.1" : gostring;
               "echo up" : gostring] in
  Forall (fun s => oneLine s = true) cmds
  /\ UnmarshalText (net := ipv4.net)
       ("[Interface]" ++ afterNl (map (kvLine "PreUp") cmds))
     = Ok (set_PreUp cmds newConfig)
  /\ UnmarshalText (net := ipv4.net)
       ("[Interface]" ++ afterNl (map (kvLine "PostDown") cmds))
     = Ok (set_PostDown cmds newConfig).
Proof.
  cbv zeta.
  assert (Hc : Forall (fun s => oneLine s = true)
                 ["ip rule add from 10.0.0.1" : gostring;
                  "echo up" : gostring])
    by (repeat constructor).
  destruct (@hook_lines_accumulate ipv4.net _ Hc) as (H1 & _ & _ & H4).
  split; [exact Hc|]. split; [exact H1|exact H4].
Defined.

Lemma comma_separated_addresses_witness :
  Forall2 spellsCIDR sample.spellings sample.addresses
  /\ strings.Join sample.spellings "," = "10.0.0.1/24, 10.0.1.1/24"
  /\ parseInterfaceLine newConfig "Address" (strings.Join sample.spellings ",")
     = Ok (set_Address (Address newConfig ++ sample.addresses) newConfig)
  /\ parsePeerLine zeroPeer "AllowedIPs" (strings.Join sample.spellings ",")
     = Ok (set_AllowedIPs (AllowedIPs zeroPeer ++ sample.addresses) zeroPeer).
Proof.
  assert (Hs : Forall2 (spellsCIDR (net := ipv4.net))
                 sample.spellings sample.addresses)
    by (repeat constructor).
  assert (Hne : sample.spellings <> []) by discriminate.
  destruct (@comma_separated_addresses ipv4.net _ _ Hne Hs) as [H1 H2].
  split; [exact Hs|]. split; [reflexivity|].
  split; [exact (H1 newConfig)|exact (H2 zeroPeer)].
Defined.


Lemma key_text_roundtrip_witness :
  serializeKey example.key = example.keyText
  /\ length (serializeKey example.key) = 44
  /\ ParseKey (serializeKey example.key) = Ok example.key
  /\ wgtypes.ParseKey (wgtypes.Key_String example.key) = Ok example.key.
Proof.
  split; [vm_compute; reflexivity|].
  exact (key_text_roundtrip example.key eq_refl).
Defined.

Lemma MatchConfig_agrees_with_GetConfig_witness :
  let c0 := set_Table None
              (set_PrivateKey (Some example.key) (newConfig (net := ipv4.net))) in
  let m : gmap gostring (Config (net := ipv4.net)) :=
    <[("wg0" : gostring) := c0]> ∅ in
  MatchConfig (provider := example.store) "wg0" = Returns m
  /\ GetConfig (provider := example.store) "wg0" = Ok c0.
Proof.
  cbv zeta.
  assert (Hm : MatchConfig (net := ipv4.net) (provider := example.store) "wg0"
               = Returns (<[("wg0" : gostring) :=
                            set_Table None
                              (set_PrivateKey (Some example.key) newConfig)]> ∅))
    by reflexivity.
  split; [exact Hm|].
  apply (@MatchConfig_agrees_with_GetConfig ipv4.net example.store "wg0" _
           "wg0" _ Hm).
  apply lookup_insert_eq.
Defined.

Lemma later_block_replaces_endpoint_witness :
  ReadFile (Provider := sample.store) (confPath "twice")
  = Ok (samePeerTwice example.keyText "1.2.3.4:51820" "5.6.7.8:51820")
  /\ wgtypes.ParseKey example.keyText = Ok example.key
  /\ GetUnresolvedEndpoints (provider := sample.store) "twice"
     = Ok {[ example.key := "5.6.7.8:51820" : gostring ]}.
Proof.
  assert (Hf : ReadFile (Provider := sample.store) (confPath "twice")
               = Ok (samePeerTwice example.keyText "1.2.3.4:51820"
                       "5.6.7.8:51820"))
    by (vm_compute; reflexivity).
  assert (Hk : wgtypes.ParseKey example.keyText = Ok example.key)
    by (vm_compute; reflexivity).
  split; [exact Hf|]. split; [exact Hk|].
  exact (@later_block_replaces_endpoint sample.store "twice" example.keyText
           "1.2.3.4:51820" "5.6.7.8:51820" example.key
           Hf eq_refl eq_refl eq_refl Hk).
Defined.

Lemma key_checked_only_with_endpoint_witness :
  wgtypes.ParseKey "QUJD" = Err (ErrKeySize 3)
  /\ GetUnresolvedEndpoints (provider := sample.store) "bad"
     = Err (ErrParseKey (ErrKeySize 3))
  /\ GetUnresolvedEndpoints (provider := sample.store) "lone" = Ok ∅.
Proof.
  assert (Hk : wgtypes.ParseKey "QUJD" = Err (ErrKeySize 3))
    by (vm_compute; reflexivity).
  assert (H1 : ReadFile (Provider := sample.store) (confPath "bad")
               = Ok (onePeer "QUJD" "1.2.3.4:51820"))
    by (vm_compute; reflexivity).
  assert (H2 : ReadFile (Provider := sample.store) (confPath "lone")
               = Ok (keyOnly "QUJD"))
    by (vm_compute; reflexivity).
  split; [exact Hk|].
  exact (@key_checked_only_with_endpoint sample.store "bad" "lone" "QUJD"
           "1.2.3.4:51820" (ErrKeySize 3) H1 H2 eq_refl eq_refl Hk).
Defined.

Lemma endpoints_of_encoding_witness :
  MarshalText (net := ipv4.net) example.config = Ok sample.encoded
  /\ endpointsOf (net := ipv4.net) (Peers example.config) ∅
     = {[ example.key := "1.2.3.4:51820" : gostring ]}
  /\ GetUnresolvedEndpoints (provider := sample.store) "wg0"
     = Ok (endpointsOf (net := ipv4.net) (Peers example.config) ∅).
Proof.
  assert (Hm : MarshalText (net := ipv4.net) example.config
               = Ok sample.encoded)
    by (vm_compute; reflexivity).
  assert (Hf : ReadFile (Provider := sample.store) (confPath "wg0")
               = Ok sample.encoded)
    by (vm_compute; reflexivity).
  split; [exact Hm|]. split; [reflexivity|].
  exact (@endpoints_of_encoding ipv4.net sample.store "wg0" sample.encoded
           example.config example_printable Hm Hf).
Defined.

Lemma readers_disagree_on_key_size_witness :
  let b : list ascii := ["A"%char; "B"%char; "C"%char] in
  base64.DecodeString "QUJD" = Ok b
  /\ GetConfig (net := ipv4.net) (provider := sample.store) "bad"
     = Ok (set_Peers [set_Endpoint (Some sample.endpoint)
                        (set_PublicKey (wgtypes.copyKey b) zeroPeer)]
             newConfig)
  /\ GetUnresolvedEndpoints (provider := sample.store) "bad"
     = Err (ErrParseKey (ErrKeySize 3)).
Proof.
  cbv zeta.
  assert (Hb : base64.DecodeString "QUJD" = Ok ["A"%char; "B"%char; "C"%char])
    by (vm_compute; reflexivity).
  assert (Hf : ReadFile (Provider := sample.store) (confPath "bad")
               = Ok (onePeer "QUJD" "1.2.3.4:51820"))
    by (vm_compute; reflexivity).
  split; [exact Hb|].
  exact (@readers_disagree_on_key_size ipv4.net sample.store "bad" "QUJD"
           "1.2.3.4:51820" ["A"%char; "B"%char; "C"%char] sample.endpoint
           Hf eq_refl eq_refl Hb ltac:(discriminate) eq_refl).
Defined.

Lemma peer_without_allowed_ips_is_not_read_back_witness :
  let p := set_AllowedIPs [] example.peer1 in
  let c := set_Peers [example.peer1; p] example.config in
  ParseCIDR (NetLib := ipv4.net) [] = Err NetError
  /\ exists text n,
       MarshalText c = Ok text
       /\ UnmarshalText (net := ipv4.net) text
          = Err (ErrLine n (ErrCannotParse [] NetError)).
Proof.
  cbv zeta. split; [reflexivity|].
  exact (@peer_without_allowed_ips_is_not_read_back ipv4.net
           (set_Peers [example.peer1; set_AllowedIPs [] example.peer1]
              example.config)
           [example.peer1] [] (set_AllowedIPs [] example.peer1) NetError
           eq_refl example_printable eq_refl eq_refl eq_refl).
Defined.
